(** * Runtime argument derivation of devito Operators

    A shallow embedding of [devito/arguments.py] (the dependency graph of
    [Parameter] nodes and [Dependency] edges, the [ArgumentVisitor] and
    [ValueVisitor], and the [ArgumentEngine]) together with the naming
    scheme of [devito/dimension.py].  Python 3 semantics are followed:
    dictionaries keep insertion order, [functools.reduce] needs a function
    and a sequence, and unrelated objects do not compare. *)

From Stdlib Require Import List ZArith String Bool Lia.
Import ListNotations.
Open Scope string_scope.
Open Scope Z_scope.

(** ** Exceptions and the error monad *)

Inductive exn : Type :=
| TypeError
| KeyError
| IndexError
| ValueError
| AttributeError
| AssertionError
| InvalidArgument (msg : string).

Inductive M (A : Type) : Type :=
| OK (a : A)
| Raise (e : exn).
Arguments OK {A} a.
Arguments Raise {A} e.

Definition bind {A B : Type} (m : M A) (k : A -> M B) : M B :=
  match m with
  | OK a => k a
  | Raise e => Raise e
  end.

Notation "x <- m ;; k" := (bind m (fun x => k))
  (at level 61, m at next level, right associativity).
Notation "'assert!' b ;; k" := (if b then k else Raise AssertionError)
  (at level 61, b at next level, right associativity).

Fixpoint mapM {A B : Type} (f : A -> M B) (l : list A) : M (list B) :=
  match l with
  | [] => OK []
  | a :: l' => b <- f a ;; bs <- mapM f l' ;; OK (b :: bs)
  end.

(** ** Plain data: [None], integers, booleans, numpy arrays and symbolic
    (sympy) expressions.  An array is represented by its [shape]; its
    contents play no role in argument derivation. *)

Inductive pyval : Type :=
| PNone
| PInt (z : Z)
| PBool (b : bool)
| PArray (shape : list Z)
| PExpr.

(** ** Dimensions ([devito/dimension.py]) *)

Record Dimension : Type := mkDimension {
  dim_name : string;
  is_Stepping : bool
}.

Definition size_name (d : Dimension) : string := dim_name d ++ "_size".
Definition start_name (d : Dimension) : string := dim_name d ++ "_s".
Definition end_name (d : Dimension) : string := dim_name d ++ "_e".

Definition Dimension_eqb (a b : Dimension) : bool :=
  String.eqb (dim_name a) (dim_name b) && Bool.eqb (is_Stepping a) (is_Stepping b).

(** ** Tiling (DLE) argument descriptors.
    [dle_value] is the descriptor's [value]: absent, a fixed block size, or a
    function of the dimension extent. *)

Inductive sizing : Type :=
| Fixed (z : Z)
| SizingFunction (f : pyval -> pyval).

Record dle_argument : Type := mkDle {
  argument : Dimension;
  original_dim : Dimension;
  dle_value : option sizing
}.

(** ** The object universe.
    Every Python object the engine touches: plain data, the providers
    (a [PyFunction] with [children] is a CompositeFunction), the graph
    nodes, dependencies, deferred values and the function objects.  [uid]
    stands for object identity, which is what the dictionaries keyed by
    nodes compare.  The [provider] attribute of a tensor argument is the
    target of its last dependency and is not stored a second time. *)

Inductive dependency_type : Type := gets_value_from_t | verified_by_t.

Set Warnings "-register-all".

Inductive pyobj : Type :=
| PyData (d : pyval)
| PyFunction (name : string) (dtype : string) (indices : list Dimension)
             (data : pyval) (children : option (list pyobj))
| PyConstant (name : string) (dtype : string) (data : pyval)
| PyObject (name : string) (dtype : string) (value : pyval)
| PyScalar (name : string) (dtype : string)
| PyDimension (d : Dimension)
| PyDle (a : dle_argument)
| PyList (l : list pyobj)
| Pyfunction (f : pyfunc)
| PyDependency (d : dependency)
| PyParameter (n : node)
| PyUnevaluated (consumer : node) (evaluator : pyfunc) (extra_param : pyobj)
with pyfunc : Type :=
| derive_dle_argument_value_f
| late_evaluate_dim_size (unknown_args : list pyobj)
| sizing_function (f : pyval -> pyval)
with dependency : Type :=
| Dependency (ty : dependency_type) (obj : pyobj) (param : pyobj)
with node : Type :=
| DimensionParameter (uid : nat) (provider : Dimension)
                     (dependencies : option (list dependency))
| ScalarArgument (uid : nat) (name : string)
                 (dependencies : option (list dependency)) (dtype : string)
| TensorArgument (uid : nat) (name : string)
                 (dependencies : option (list dependency)) (dtype : string)
| PtrArgument (uid : nat) (name : string)
              (dependencies : option (list dependency)) (dtype : string).

Definition None_ : pyobj := PyData PNone.
Definition int_ (z : Z) : pyobj := PyData (PInt z).

Set Warnings "register-all".

(** ** Attribute access *)

Definition node_uid (n : node) : nat :=
  match n with
  | DimensionParameter u _ _ | ScalarArgument u _ _ _
  | TensorArgument u _ _ _ | PtrArgument u _ _ _ => u
  end.

Definition node_name (n : node) : string :=
  match n with
  | DimensionParameter _ p _ => dim_name p
  | ScalarArgument _ s _ _ | TensorArgument _ s _ _ | PtrArgument _ s _ _ => s
  end.

Definition node_dependencies (n : node) : option (list dependency) :=
  match n with
  | DimensionParameter _ _ d | ScalarArgument _ _ d _
  | TensorArgument _ _ d _ | PtrArgument _ _ d _ => d
  end.

Definition is_Argument (n : node) : bool :=
  match n with DimensionParameter _ _ _ => false | _ => true end.

Definition is_DimensionParameter (n : node) : bool :=
  match n with DimensionParameter _ _ _ => true | _ => false end.

Definition is_TensorArgument (n : node) : bool :=
  match n with TensorArgument _ _ _ _ => true | _ => false end.

Definition dep_type (d : dependency) : dependency_type :=
  match d with Dependency t _ _ => t end.
Definition dep_obj (d : dependency) : pyobj :=
  match d with Dependency _ o _ => o end.
Definition dep_param (d : dependency) : pyobj :=
  match d with Dependency _ _ p => p end.

Definition is_gets_value_from (d : dependency) : bool :=
  match dep_type d with gets_value_from_t => true | verified_by_t => false end.
Definition is_verified_by (d : dependency) : bool :=
  match dep_type d with verified_by_t => true | gets_value_from_t => false end.

(** [Parameter.gets_value_from] and [Parameter.verified_by]: a list
    comprehension over [self.dependencies], which fails when that attribute
    is not a sequence. *)
Definition gets_value_from (n : node) : M (list dependency) :=
  match node_dependencies n with
  | Some l => OK (filter is_gets_value_from l)
  | None => Raise TypeError
  end.

Definition verified_by (n : node) : M (list dependency) :=
  match node_dependencies n with
  | Some l => OK (filter is_verified_by l)
  | None => Raise TypeError
  end.

(** The [name] attribute of the objects that have one. *)
Definition obj_name (o : pyobj) : M string :=
  match o with
  | PyFunction n _ _ _ _ | PyConstant n _ _ | PyObject n _ _ | PyScalar n _ => OK n
  | PyDimension d => OK (dim_name d)
  | PyParameter n => OK (node_name n)
  | _ => Raise AttributeError
  end.

Definition is_None (o : pyobj) : bool :=
  match o with PyData PNone => true | _ => false end.

Definition is_Unevaluated (o : pyobj) : bool :=
  match o with PyUnevaluated _ _ _ => true | _ => false end.

(** ** Ordered dictionaries.
    [odict K V] is insertion ordered; assigning to a key that is present
    keeps its position. *)

Section OrderedDict.
Variables (K V : Type) (keq : K -> K -> bool).

Fixpoint od_get (d : list (K * V)) (k : K) : option V :=
  match d with
  | [] => None
  | (k', v) :: d' => if keq k' k then Some v else od_get d' k
  end.

Fixpoint od_set (d : list (K * V)) (k : K) (v : V) : list (K * V) :=
  match d with
  | [] => [(k, v)]
  | (k', v') :: d' => if keq k' k then (k', v) :: d' else (k', v') :: od_set d' k v
  end.

Fixpoint od_remove (d : list (K * V)) (k : K) : list (K * V) :=
  match d with
  | [] => []
  | (k', v') :: d' => if keq k' k then d' else (k', v') :: od_remove d' k
  end.

Definition od_of_list (l : list (K * V)) : list (K * V) :=
  fold_left (fun d kv => od_set d (fst kv) (snd kv)) l [].

Definition od_update (d new : list (K * V)) : list (K * V) :=
  fold_left (fun d kv => od_set d (fst kv) (snd kv)) new d.
End OrderedDict.
Arguments od_get {K V} keq d k.
Arguments od_set {K V} keq d k v.
Arguments od_remove {K V} keq d k.
Arguments od_of_list {K V} keq l.
Arguments od_update {K V} keq d new.

(** Dictionaries keyed by nodes compare object identity. *)
Definition node_eqb (a b : node) : bool := Nat.eqb (node_uid a) (node_uid b).
Definition values_t : Type := list (node * pyobj).
(** Keyword arguments are keyed by name. *)
Definition kwargs_t : Type := list (string * pyobj).

(** [known_values[o]] for an arbitrary object: only nodes are keys; a list
    is not hashable. *)
Definition known_lookup (known : values_t) (o : pyobj) : M pyobj :=
  match o with
  | PyParameter n =>
      match od_get node_eqb known n with Some v => OK v | None => Raise KeyError end
  | PyList _ => Raise TypeError
  | _ => Raise KeyError
  end.

(** ** Arithmetic, comparison and indexing of Python objects.
    Integers and booleans are numbers; an array combined with a number keeps
    its shape and two arrays broadcast; the providers built on sympy symbols
    combine with numbers and with each other into symbolic expressions;
    everything else is a [TypeError]. *)

Definition as_number (o : pyobj) : option Z :=
  match o with
  | PyData (PInt z) => Some z
  | PyData (PBool b) => Some (if b then 1 else 0)
  | _ => None
  end.

Definition as_array (o : pyobj) : option (list Z) :=
  match o with PyData (PArray s) => Some s | _ => None end.

Definition is_sympy (o : pyobj) : bool :=
  match o with
  | PyFunction _ _ _ _ _ | PyConstant _ _ _ | PyScalar _ _
  | PyDimension _ | PyData PExpr => true
  | _ => false
  end.

(** numpy broadcasting of two shapes, given with the trailing axis first. *)
Fixpoint broadcast_rev (a b : list Z) : option (list Z) :=
  match a, b with
  | [], _ => Some b
  | _, [] => Some a
  | x :: a', y :: b' =>
      match broadcast_rev a' b' with
      | None => None
      | Some r =>
          if Z.eqb x y then Some (x :: r)
          else if Z.eqb x 1 then Some (y :: r)
          else if Z.eqb y 1 then Some (x :: r)
          else None
      end
  end.

Definition broadcast (a b : list Z) : option (list Z) :=
  option_map (@rev Z) (broadcast_rev (rev a) (rev b)).

Definition py_arith (op : Z -> Z -> Z) (a b : pyobj) : M pyval :=
  match as_number a, as_number b with
  | Some x, Some y => OK (PInt (op x y))
  | _, _ =>
    match as_array a, as_array b with
    | Some s, Some t =>
        match broadcast s t with
        | Some r => OK (PArray r)
        | None => Raise ValueError
        end
    | Some s, None =>
        if is_sympy b then OK (PArray s)
        else match as_number b with Some _ => OK (PArray s) | None => Raise TypeError end
    | None, Some t =>
        if is_sympy a then OK (PArray t)
        else match as_number a with Some _ => OK (PArray t) | None => Raise TypeError end
    | None, None =>
        match is_sympy a, is_sympy b with
        | true, true => OK PExpr
        | true, false =>
            match as_number b with Some _ => OK PExpr | None => Raise TypeError end
        | false, true =>
            match as_number a with Some _ => OK PExpr | None => Raise TypeError end
        | false, false => Raise TypeError
        end
    end
  end.

Definition py_add : pyobj -> pyobj -> M pyval := py_arith Z.add.
Definition py_sub : pyobj -> pyobj -> M pyval := py_arith Z.sub.

(** [a > b] used as a condition: numbers compare; the truth value of an
    array comparison is ambiguous; no other objects are ordered. *)
Definition py_gt (a b : pyobj) : M bool :=
  match as_number a, as_number b with
  | Some x, Some y => OK (Z.ltb y x)
  | _, _ =>
      match as_array a, as_array b with
      | None, None => Raise TypeError
      | _, _ => Raise ValueError
      end
  end.

(** The builtin [max(a, b)]: the first argument unless the second is greater. *)
Definition py_max (a b : pyobj) : M pyobj :=
  g <- py_gt b a ;; OK (if g then b else a).

(** [functools.reduce(f, l)] without an initial value. *)
Definition reduce (f : pyobj -> pyobj -> M pyobj) (l : list pyobj) : M pyobj :=
  match l with
  | [] => Raise TypeError
  | x :: l' =>
      fold_left (fun acc y => a <- acc ;; f a y) l' (OK x)
  end.

(** [functools.reduce(l)]: the function argument is missing. *)
Definition reduce_without_function (l : list pyobj) : M pyobj := Raise TypeError.

(** The [shape] attribute. *)
Definition obj_shape (o : pyobj) : M (list Z) :=
  match o with
  | PyData (PArray s) => OK s
  | PyFunction _ _ _ (PArray s) _ => OK s
  | _ => Raise AttributeError
  end.

(** [shape[param]] on a tuple, with Python's negative indices. *)
Definition tuple_index (s : list Z) (param : pyobj) : M pyobj :=
  match as_number param with
  | None => Raise TypeError
  | Some i =>
      let n := Z.of_nat (List.length s) in
      let j := if Z.ltb i 0 then i + n else i in
      if (Z.leb 0 j && Z.ltb j n)%bool
      then match nth_error s (Z.to_nat j) with
           | Some z => OK (int_ z)
           | None => Raise IndexError
           end
      else Raise IndexError
  end.

(** Truth value of a descriptor's [value] in [if i.value:]. *)
Definition sizing_truthy (v : option sizing) : bool :=
  match v with
  | None => false
  | Some (Fixed z) => negb (Z.eqb z 0)
  | Some (SizingFunction _) => true
  end.

(** ** Free functions of the module *)

Definition catch {A : Type} (m : M A) (handled : exn -> bool) (h : M A) : M A :=
  match m with
  | OK a => OK a
  | Raise e => if handled e then h else Raise e
  end.

Definition KeyError_or_TypeError (e : exn) : bool :=
  match e with KeyError | TypeError => true | _ => false end.
Definition is_KeyError (e : exn) : bool :=
  match e with KeyError => true | _ => false end.
Definition is_TypeError (e : exn) : bool :=
  match e with TypeError => true | _ => false end.

Definition find_argument_by_name (name : string) (haystack : values_t) : M pyobj :=
  let filtered := filter (fun kv => String.eqb (node_name (fst kv)) name) haystack in
  assert! (Nat.ltb (List.length filtered) 2) ;;
  match filtered with
  | [kv] => OK (snd kv)
  | _ => OK None_
  end.

Definition runtime_dim_extent (dimension : Dimension) (values : values_t) : M pyval :=
  catch (e <- find_argument_by_name (end_name dimension) values ;;
         s <- find_argument_by_name (start_name dimension) values ;;
         py_sub e s)
        KeyError_or_TypeError
        (OK PNone).

(** The call [value(dim_size)] of a descriptor's value: an integer is not
    callable. *)
Definition call_sizing (v : sizing) (dim_size : pyval) : M pyobj :=
  match v with
  | Fixed _ => Raise TypeError
  | SizingFunction f => OK (PyData (f dim_size))
  end.

(** The descriptor's [value] attribute as an object. *)
Definition sizing_obj (v : option sizing) : pyobj :=
  match v with
  | None => None_
  | Some (Fixed z) => int_ z
  | Some (SizingFunction f) => Pyfunction (sizing_function f)
  end.

Definition is_PNone (d : pyval) : bool :=
  match d with PNone => true | _ => false end.

Definition derive_dle_argument_value (blocked_dim : node) (known_values : values_t)
    (dle_argument : pyobj) : M pyobj :=
  match dle_argument with
  | PyDle a =>
      dim_size <- runtime_dim_extent (original_dim a) known_values ;;
      if is_PNone dim_size
      then OK (PyUnevaluated blocked_dim derive_dle_argument_value_f dle_argument)
      else match dle_value a with
           | Some v =>
               if sizing_truthy (Some v)
               then catch (call_sizing v dim_size) is_TypeError (OK (sizing_obj (Some v)))
               else OK (PyData dim_size)
           | None => OK (PyData dim_size)
           end
  | _ => Raise AttributeError
  end.

(** The closure [late_evaluate_dim_size] created in
    [ValueVisitor.visit_DimensionParameter], with its captured
    [unknown_args]. *)
Definition late_evaluate (unknown_args : list pyobj) (consumer : node)
    (known_values : values_t) (partial_values : pyobj) : M pyobj :=
  known <- catch (new_values <- mapM (known_lookup known_values) unknown_args ;;
                  OK (filter (fun x => negb (is_None x)) new_values))
                 is_KeyError
                 (OK []) ;;
  match partial_values with
  | PyList l => reduce py_max (l ++ known)%list
  | _ => Raise TypeError
  end.

(** Calling a function object with [(consumer, known_values, param)]. *)
Definition call_function (f : pyfunc) (consumer : node) (known_values : values_t)
    (param : pyobj) : M pyobj :=
  match f with
  | derive_dle_argument_value_f => derive_dle_argument_value consumer known_values param
  | late_evaluate_dim_size unknown_args => late_evaluate unknown_args consumer known_values param
  | sizing_function _ => Raise TypeError
  end.

(** [UnevaluatedDependency.evaluate]; only such objects reach it. *)
Definition evaluate (v : pyobj) (known_values : values_t) : M pyobj :=
  match v with
  | PyUnevaluated consumer evaluator extra_param =>
      call_function evaluator consumer known_values extra_param
  | _ => Raise AttributeError
  end.

(** ** ValueVisitor

    [visit_DimensionParameter] after the candidate values have been
    computed: [candidates] pairs every [gets_value_from] dependency of [o]
    with [get_value(o, x, known_values)].  The source recomputes the same
    calls to collect [unknown_args]; the values are those already paired. *)
Definition reconcile (o : node) (known_values : values_t)
    (candidates : list (dependency * pyobj)) : M pyobj :=
  let provided_values :=
    match od_get node_eqb known_values o with
    | Some v =>
        if (negb (is_Unevaluated v) && negb (is_None v))%bool
        then [v] else map snd candidates
    | None => map snd candidates
    end in
  match provided_values with
  | [] => OK None_
  | [v] => OK v
  | _ =>
      if forallb (fun x => negb (is_None x)) provided_values
      then reduce py_max provided_values
      else
        let unknown_args :=
          map (fun c => dep_obj (fst c)) (filter (fun c => is_None (snd c)) candidates) in
        OK (PyUnevaluated o (late_evaluate_dim_size unknown_args)
              (PyList (filter (fun x => negb (is_None x)) provided_values)))
  end.

(** [ValueVisitor(consumer, known_values).visit(o, *param)].  [param] is
    [None] when [visit] is called with the object alone, as [get_value]
    does.

    Modelled from the spec: the dispatch of [GenericVisitor] (declared in
    devito.tools) on the kind of the visited object, as listed for the
    polymorphic value resolution; objects with no handler of their own fall
    to [visit_object]. *)
Fixpoint visit (consumer : node) (known_values : values_t) (o : pyobj)
    (param : option pyobj) {struct o} : M pyobj :=
  match o with
  | PyFunction _ _ _ data _ =>                         (* visit_Function *)
      assert! (is_TensorArgument consumer) ;; OK (PyData data)
  | PyConstant _ _ data => OK (PyData data)            (* visit_Constant *)
  | PyObject _ _ value => OK (PyData value)            (* visit_Object *)
  | Pyfunction f =>                                    (* visit_function *)
      call_function f consumer known_values
        (match param with Some p => p | None => None_ end)
  | PyDependency (Dependency _ obj p) =>               (* visit_Dependency *)
      match param with
      | None => visit consumer known_values obj (Some p)
      | Some _ => Raise TypeError
      end
  | PyParameter (DimensionParameter uid provider deps) => (* visit_DimensionParameter *)
      let this := DimensionParameter uid provider deps in
      if String.eqb (node_name consumer) (start_name provider)
      then OK (int_ 0)
      else
        match deps with
        | None => Raise TypeError
        | Some l =>
            candidates <-
              (fix go (l : list dependency) : M (list (dependency * pyobj)) :=
                 match l with
                 | [] => OK []
                 | Dependency ty obj p :: l' =>
                     match ty with
                     | gets_value_from_t =>
                         v <- visit this known_values obj (Some p) ;;
                         r <- go l' ;;
                         OK ((Dependency ty obj p, v) :: r)
                     | verified_by_t => go l'
                     end
                 end) l ;;
            reconcile this known_values candidates
        end
  | PyParameter (TensorArgument uid name deps dtype) =>  (* visit_TensorArgument *)
      match param with
      | None => Raise TypeError
      | Some p =>
          assert! (is_DimensionParameter consumer) ;;
          v <- known_lookup known_values o ;;
          s <- obj_shape v ;;
          tuple_index s p
      end
  | _ => OK o                                          (* visit_object *)
  end.

Definition get_value (consumer : node) (provider : pyobj) (known_values : values_t)
  : M pyobj :=
  visit consumer known_values provider None.

(** ** ArgumentEngine *)

Record ArgumentEngine : Type := mkEngine {
  parameters : list pyobj;
  dle_arguments : list dle_argument;
  argument_mapper : list (option node);
  arguments : list node;
  dims : list node;
  offsets : list (string * Z)
}.

(** [kwargs.pop(name, default)] *)
Definition kwargs_pop (kwargs : kwargs_t) (name : string) (default : pyobj)
  : pyobj * kwargs_t :=
  match od_get String.eqb kwargs name with
  | Some v => (v, od_remove String.eqb kwargs name)
  | None => (default, kwargs)
  end.

Section Engine.
Variable self : ArgumentEngine.

(** [_offset_adjust]: every entry whose key is in [self.offsets] is
    reassigned in place. *)
Definition _offset_adjust (kwargs : kwargs_t) : M kwargs_t :=
  mapM (fun kv : string * pyobj =>
          match od_get String.eqb (offsets self) (fst kv) with
          | Some off => v <- py_add (snd kv) (int_ off) ;; OK (fst kv, PyData v)
          | None => OK kv
          end) kwargs.

Definition is_CompositeFunction (v : pyobj) : bool :=
  match v with PyFunction _ _ _ _ (Some _) => true | _ => false end.

Definition obj_children (o : pyobj) : M (list pyobj) :=
  match o with
  | PyFunction _ _ _ _ (Some c) => OK c
  | _ => Raise AttributeError
  end.

(** [[i for i in self.parameters if i.name == k]] *)
Fixpoint parameters_named (k : string) (ps : list pyobj) : M (list pyobj) :=
  match ps with
  | [] => OK []
  | i :: ps' =>
      n <- obj_name i ;;
      r <- parameters_named k ps' ;;
      OK (if String.eqb n k then i :: r else r)
  end.

(** The loop of [_extract_children_of_composites] that fills
    [new_params].  The message of the exception raised for an undeclared
    name is built with [%] applied to a string with no conversion, which
    is itself a [TypeError]. *)
Fixpoint collect_children (items : kwargs_t) (new_params : kwargs_t) : M kwargs_t :=
  match items with
  | [] => OK new_params
  | (k, v) :: items' =>
      if is_CompositeFunction v then
        orig_param_l <- parameters_named k (parameters self) ;;
        match orig_param_l with
        | [] => Raise TypeError
        | [orig_param] =>
            oc <- obj_children orig_param ;;
            nc <- obj_children v ;;
            new_params' <-
              fold_left (fun acc (p : pyobj * pyobj) =>
                           d <- acc ;;
                           n <- obj_name (fst p) ;;
                           OK (od_set String.eqb d n (snd p)))
                        (combine oc nc) (OK new_params) ;;
            collect_children items' new_params'
        | _ => Raise AssertionError
        end
      else collect_children items' new_params
  end.

Definition _extract_children_of_composites (kwargs : kwargs_t) : M kwargs_t :=
  new_params <- collect_children kwargs [] ;;
  OK (od_update String.eqb kwargs new_params).
End Engine.

Section Derivation.
Variable self : ArgumentEngine.

(** First loop of [_derive_values]: seed every argument from [kwargs]. *)
Fixpoint seed_arguments (args : list node) (kwargs : kwargs_t) (values : values_t)
  : M (values_t * kwargs_t) :=
  match args with
  | [] => OK (values, kwargs)
  | i :: args' =>
      let (given, kwargs') := kwargs_pop kwargs (node_name i) None_ in
      v <- get_value i given values ;;
      seed_arguments args' kwargs' (od_set node_eqb values i v)
  end.

(** Second loop: the dimension values, kept apart. *)
Fixpoint seed_dimensions (ds : list node) (kwargs : kwargs_t) (dimension_values : values_t)
  : values_t * kwargs_t :=
  match ds with
  | [] => (dimension_values, kwargs)
  | i :: ds' =>
      let (given, kwargs') := kwargs_pop kwargs (node_name i) None_ in
      seed_dimensions ds' kwargs' (od_set node_eqb dimension_values i given)
  end.

Definition unknown_arguments_message (kwargs : kwargs_t) : string :=
  "Unknown arguments passed: " ++ String.concat ", " (map fst kwargs).

(** [values[i]] *)
Definition values_get (values : values_t) (i : node) : M pyobj :=
  match od_get node_eqb values i with
  | Some v => OK v
  | None => Raise KeyError
  end.

(** Third loop: derive the arguments that are still [None]. *)
Fixpoint propagate (args : list node) (dimension_values : values_t) (values : values_t)
  : M values_t :=
  match args with
  | [] => OK values
  | i :: args' =>
      cur <- values_get values i ;;
      if is_None cur then
        let known_values := od_of_list node_eqb (values ++ dimension_values)%list in
        gvf <- gets_value_from i ;;
        provided_values <- mapM (fun x => get_value i (PyDependency x) known_values) gvf ;;
        assert! (Nat.ltb 0 (List.length provided_values)) ;;
        v <- match provided_values with
             | [v] => OK v
             | _ => reduce_without_function provided_values
             end ;;
        propagate args' dimension_values (od_set node_eqb values i v)
      else propagate args' dimension_values values
  end.

(** Last loop: evaluate what is still an [UnevaluatedDependency], in the
    order of the dictionary and against the dictionary as it then is. *)
Fixpoint settle (keys : list node) (values : values_t) : M values_t :=
  match keys with
  | [] => OK values
  | k :: keys' =>
      v <- values_get values k ;;
      if is_Unevaluated v then
        r <- evaluate v values ;;
        settle keys' (od_set node_eqb values k r)
      else settle keys' values
  end.

Definition _derive_values (kwargs : kwargs_t) : M values_t :=
  seeded <- seed_arguments (arguments self) kwargs [] ;;
  let (values, kwargs1) := (seeded : values_t * kwargs_t) in
  let (dimension_values, kwargs2) := seed_dimensions (dims self) kwargs1 [] in
  if Nat.ltb 0 (List.length kwargs2)
  then Raise (InvalidArgument (unknown_arguments_message kwargs2))
  else
    values' <- propagate (arguments self) dimension_values values ;;
    settle (map fst values') values'.
End Derivation.

Section Handle.
Variable self : ArgumentEngine.

(** The [dimensions] property. *)
Definition dimensions : list Dimension :=
  flat_map (fun x => match x with PyDimension d => [d] | _ => [] end) (parameters self).

(** The message logged through [error] in [_dle_arguments]. *)
Definition unable_to_derive_message (d : Dimension) : string :=
  "Unable to derive size of dimension " ++ dim_name d ++
  " from defaults. Please provide an explicit value.".

(** [_dle_arguments]: the lines logged through [error], and the result. *)
Fixpoint _dle_arguments_loop (l : list dle_argument) (dim_sizes : list (string * pyval))
    (acc : list (string * pyobj)) (autotune : bool)
  : list string * M (list (string * pyobj) * bool) :=
  match l with
  | [] => ([], OK (acc, autotune))
  | i :: l' =>
      let dim_size :=
        match od_get String.eqb dim_sizes (dim_name (original_dim i)) with
        | Some v => v
        | None => PNone
        end in
      if is_PNone dim_size then
        ([unable_to_derive_message (original_dim i)],
         Raise (InvalidArgument "Unknown dimension size"))
      else
        match dle_value i with
        | Some v =>
            if sizing_truthy (Some v) then
              match call_sizing v dim_size with
              | OK r =>
                  _dle_arguments_loop l' dim_sizes
                    (od_set String.eqb acc (dim_name (argument i)) r) autotune
              | Raise TypeError =>
                  _dle_arguments_loop l' dim_sizes
                    (od_set String.eqb acc (dim_name (argument i)) (sizing_obj (Some v))) false
              | Raise e => ([], Raise e)
              end
            else
              _dle_arguments_loop l' dim_sizes
                (od_set String.eqb acc (dim_name (argument i)) (PyData dim_size)) autotune
        | None =>
            _dle_arguments_loop l' dim_sizes
              (od_set String.eqb acc (dim_name (argument i)) (PyData dim_size)) autotune
        end
  end.

Definition _dle_arguments (dim_sizes : list (string * pyval))
  : list string * M (list (string * pyobj) * bool) :=
  _dle_arguments_loop (dle_arguments self) dim_sizes [] true.

(** Calling the boolean local [verify] of [_verify] as a function. *)
Definition call_bool (verify : bool) (i : node) (x : dependency) : M bool :=
  Raise TypeError.

(** The builtin [all] over a generator. *)
Fixpoint py_all {A : Type} (f : A -> M bool) (l : list A) : M bool :=
  match l with
  | [] => OK true
  | x :: l' => b <- f x ;; if b then py_all f l' else OK false
  end.

Fixpoint _verify_loop (keys : list node) (verify : bool) : M bool :=
  match keys with
  | [] => OK verify
  | i :: keys' =>
      if verify then
        vb <- verified_by i ;;
        r <- py_all (call_bool verify i) vb ;;
        _verify_loop keys' r
      else _verify_loop keys' false
  end.

Definition _verify (values : values_t) : M bool :=
  _verify_loop (map fst values) true.

(** Truth value of an object. *)
Definition truthy (o : pyobj) : M bool :=
  match o with
  | PyData PNone => OK false
  | PyData (PInt z) => OK (negb (Z.eqb z 0))
  | PyData (PBool b) => OK b
  | PyData (PArray _) => Raise ValueError
  | PyList l => OK (match l with [] => false | _ => true end)
  | _ => OK true
  end.

(** [a and b] *)
Definition py_and (a b : pyobj) : M pyobj :=
  t <- truthy a ;; OK (if t then b else a).

(** The statements of [handle] from the offset adjustment to the
    computation of [dim_sizes]. *)
Definition prepare_kwargs (kwargs0 : kwargs_t) : M kwargs_t :=
  kwargs1 <- _offset_adjust self kwargs0 ;;
  _extract_children_of_composites self kwargs1.

Definition dim_sizes_of (values : values_t) : M (list (string * pyval)) :=
  l <- mapM (fun d => e <- runtime_dim_extent d values ;; OK (dim_name d, e))
            dimensions ;;
  OK (od_of_list String.eqb l).

Definition derive_stage (kwargs0 : kwargs_t)
  : M (values_t * list (string * pyval)) :=
  kwargs2 <- prepare_kwargs kwargs0 ;;
  values <- _derive_values self kwargs2 ;;
  dim_sizes <- dim_sizes_of values ;;
  OK (values, dim_sizes).

(** The returned mapping [OrderedDict([(k.name, v) for k, v in values.items()])]. *)
Definition arguments_of (values : values_t) : list (string * pyobj) :=
  od_of_list String.eqb (map (fun kv => (node_name (fst kv), snd kv)) values).

(** [handle]: the lines logged through [error], and the result. *)
Definition handle (kwargs : kwargs_t)
  : list string * M (list (string * pyobj) * pyobj) :=
  let (user_autotune, kwargs0) := kwargs_pop kwargs "autotune" (PyData (PBool false)) in
  match derive_stage kwargs0 with
  | Raise e => ([], Raise e)
  | OK (values, dim_sizes) =>
      match _dle_arguments dim_sizes with
      | (log, Raise e) => (log, Raise e)
      | (log, OK (_, dle_autotune)) =>
          (log,
           ok <- _verify values ;;
           assert! ok ;;
           flag <- py_and user_autotune (PyData (PBool dle_autotune)) ;;
           OK (arguments_of values, flag))
      end
  end.
End Handle.

(** ** Node constructors and the ArgumentVisitor *)

Definition obj_dtype (o : pyobj) : M string :=
  match o with
  | PyFunction _ t _ _ _ | PyConstant _ t _ | PyObject _ t _ | PyScalar _ t => OK t
  | _ => Raise AttributeError
  end.

Definition gvf (obj param : pyobj) : dependency := Dependency gets_value_from_t obj param.

(** [TensorArgument(provider, dependencies=[])] *)
Definition new_TensorArgument (uid : nat) (provider : pyobj) (dependencies : list dependency)
  : M node :=
  n <- obj_name provider ;;
  t <- obj_dtype provider ;;
  OK (TensorArgument uid n (Some (dependencies ++ [gvf provider None_])%list) t).

(** [PtrArgument(provider)] *)
Definition new_PtrArgument (uid : nat) (provider : pyobj) : M node :=
  n <- obj_name provider ;;
  t <- obj_dtype provider ;;
  OK (PtrArgument uid n (Some [gvf provider None_]) t).

Definition int32 : string := "int32".

Module ArgumentVisitor.
Definition visit_SymbolicFunction (uid : nat) (o : pyobj) : M node :=
  new_TensorArgument uid o [].

(** The three scalars take the identities [uid], [uid + 1], [uid + 2].
    Only a [DimensionParameter] has a [provider] with the three names. *)
Definition visit_DimensionParameter (uid : nat) (o : node) : M (list node) :=
  match o with
  | DimensionParameter _ provider _ =>
      let dependency := gvf (PyParameter o) None_ in
      let size := ScalarArgument uid (size_name provider) (Some [dependency]) int32 in
      let start := ScalarArgument (uid + 1) (start_name provider) (Some [dependency]) int32 in
      let end_ := ScalarArgument (uid + 2) (end_name provider) (Some [dependency]) int32 in
      OK [size; start; end_]
  | _ => Raise AttributeError
  end.

Definition visit_Object (uid : nat) (o : pyobj) : M node := new_PtrArgument uid o.

(** The provider itself, not a list, is stored as [dependencies]. *)
Definition visit_Scalar (uid : nat) (o : pyobj) : M node :=
  n <- obj_name o ;;
  t <- obj_dtype o ;;
  OK (ScalarArgument uid n None t).

Definition visit_Constant (uid : nat) (o : pyobj) : M node :=
  n <- obj_name o ;;
  t <- obj_dtype o ;;
  OK (ScalarArgument uid n (Some [gvf o None_]) t).

(** Modelled from the spec: the dispatch of [GenericVisitor] (declared in
    devito.tools) on the kind of provider; a provider with no handler
    yields the visitor's default, [None]. *)
Definition visit (uid : nat) (o : pyobj) : M (option node) :=
  match o with
  | PyFunction _ _ _ _ _ => n <- visit_SymbolicFunction uid o ;; OK (Some n)
  | PyObject _ _ _ => n <- visit_Object uid o ;; OK (Some n)
  | PyScalar _ _ => n <- visit_Scalar uid o ;; OK (Some n)
  | PyConstant _ _ _ => n <- visit_Constant uid o ;; OK (Some n)
  | _ => OK None
  end.
End ArgumentVisitor.

(** ** Helpers declared outside this module *)

(** Modelled from the spec: [filter_ordered] of devito.tools, which keeps,
    in order, the first element met for every key. *)
Fixpoint filter_ordered_from (seen : list string) (l : list node) : list node :=
  match l with
  | [] => []
  | x :: l' =>
      if existsb (String.eqb (node_name x)) seen
      then filter_ordered_from seen l'
      else x :: filter_ordered_from (node_name x :: seen) l'
  end.

Definition filter_ordered (l : list node) : list node := filter_ordered_from [] l.

(** A stencil: for every dimension it touches, the relative offsets. *)
Definition Stencil : Type := list (Dimension * list Z).

(** Modelled from the spec: [retrieve_offsets] of devito.ir.support.stencil,
    which gives, per dimension, the maximum absolute relative offset seen
    in any stencil. *)
Definition max_abs (l : list Z) : Z := fold_left (fun m z => Z.max m (Z.abs z)) l 0.

Definition retrieve_offsets (stencils : list Stencil) : list (Dimension * Z) :=
  fold_left
    (fun acc (e : Dimension * list Z) =>
       let old := match od_get Dimension_eqb acc (fst e) with Some m => m | None => 0 end in
       od_set Dimension_eqb acc (fst e) (Z.max old (max_abs (snd e))))
    (List.concat stencils) [].

(** ** Graph construction *)

Definition dep_mapper : Type := list (Dimension * list dependency).

(** [if d not in mapper: mapper[d] = []] followed by [mapper[d].append(dep)] *)
Definition mapper_append (mapper : dep_mapper) (d : Dimension) (dep : dependency)
  : dep_mapper :=
  match od_get Dimension_eqb mapper d with
  | Some old => od_set Dimension_eqb mapper d (old ++ [dep])%list
  | None => od_set Dimension_eqb mapper d [dep]
  end.

Definition obj_indices (o : pyobj) : list Dimension :=
  match o with PyFunction _ _ idx _ _ => idx | _ => [] end.

(** Modelled from the spec: the class hierarchy of the providers (declared
    in devito.function and devito.types); the instances of
    [SymbolicFunction] are the providers that represent a multi-dimensional
    computed quantity. *)
Definition is_SymbolicFunction (o : pyobj) : bool :=
  match o with PyFunction _ _ _ _ _ => true | _ => false end.

Fixpoint enumerate_from {A : Type} (i : nat) (l : list A) : list (nat * A) :=
  match l with
  | [] => []
  | a :: l' => (i, a) :: enumerate_from (S i) l'
  end.

(** The pass over the symbolic functions; [uid] is the identity given to the
    next node created. *)
Fixpoint build_tensor_arguments (fs : list pyobj) (uid : nat) (mapper : dep_mapper)
  : M (list node * dep_mapper) :=
  match fs with
  | [] => OK ([], mapper)
  | f :: fs' =>
      a <- ArgumentVisitor.visit_SymbolicFunction uid f ;;
      let mapper' :=
        fold_left (fun m (id : nat * Dimension) =>
                     mapper_append m (snd id)
                       (gvf (PyParameter a) (int_ (Z.of_nat (fst id)))))
                  (enumerate_from 0 (obj_indices f)) mapper in
      r <- build_tensor_arguments fs' (S uid) mapper' ;;
      OK (a :: fst r, snd r)
  end.

Definition add_dle_dependencies (dles : list dle_argument) (mapper : dep_mapper)
  : dep_mapper :=
  fold_left (fun m arg =>
               mapper_append m (argument arg)
                 (gvf (Pyfunction derive_dle_argument_value_f) (PyDle arg)))
            dles mapper.

(** [SteppingDimension.__new__] stores [modulo] only, so a stepping
    dimension has no [parent] attribute to read. *)
Definition Dimension_parent (d : Dimension) : M Dimension := Raise AttributeError.

(** [dimension_parameter_mapper] after the loop over
    [dimension_dependency_mapper.items()]. *)
Definition recorded_dimension_parameters (u0 : nat) (ddm : dep_mapper)
  : list (Dimension * node) :=
  map (fun e : nat * (Dimension * list dependency) =>
         (fst (snd e), DimensionParameter (fst e) (fst (snd e)) (Some (snd (snd e)))))
      (enumerate_from u0 ddm).

(** The dimensions among the parameters that no expression references. *)
Definition unreferenced_dimensions (ddm : dep_mapper) (params : list pyobj)
  : list Dimension :=
  flat_map (fun x => match x with
                     | PyDimension d =>
                         match od_get Dimension_eqb ddm d with
                         | Some _ => []
                         | None => [d]
                         end
                     | _ => []
                     end) params.

Definition add_unreferenced (u1 : nat) (unreferenced : list Dimension)
    (dpm : list (Dimension * node)) : list (Dimension * node) :=
  fold_left (fun m (e : nat * Dimension) =>
               od_set Dimension_eqb m (snd e) (DimensionParameter (fst e) (snd e) (Some [])))
            (enumerate_from u1 unreferenced) dpm.

Definition stepping_dimensions (params : list pyobj) : list Dimension :=
  flat_map (fun x => match x with
                     | PyDimension d => if is_Stepping d then [d] else []
                     | _ => []
                     end) params.

(** The pass over the dimension parameters. *)
Definition visit_dimension_parameters (u2 : nat) (dimension_parameters : list node)
  : M (list (list node)) :=
  mapM (fun e : nat * node =>
          ArgumentVisitor.visit_DimensionParameter (u2 + 3 * fst e) (snd e))
       (enumerate_from 0 dimension_parameters).

Definition visit_parameters (u3 : nat) (params : list pyobj) : M (list (option node)) :=
  mapM (fun e : nat * pyobj => ArgumentVisitor.visit (fst e) (snd e))
       (enumerate_from u3 params).

Definition _build_argument_mapper (dles : list dle_argument) (params : list pyobj)
  : M (list (option node)) :=
  let symbolic_functions := filter is_SymbolicFunction params in
  r <- build_tensor_arguments symbolic_functions 0 [] ;;
  let tensor_arguments := fst r in
  let dimension_dependency_mapper := add_dle_dependencies dles (snd r) in
  let u0 := List.length tensor_arguments in
  let u1 := (u0 + List.length dimension_dependency_mapper)%nat in
  let unreferenced := unreferenced_dimensions dimension_dependency_mapper params in
  let dimension_parameter_mapper :=
    add_unreferenced u1 unreferenced
      (recorded_dimension_parameters u0 dimension_dependency_mapper) in
  let u2 := (u1 + List.length unreferenced)%nat in
  _ <- mapM Dimension_parent (stepping_dimensions params) ;;
  let dimension_parameters := map snd dimension_parameter_mapper in
  visited <- visit_dimension_parameters u2 dimension_parameters ;;
  let scalar_arguments := List.concat visited in
  let u3 := (u2 + 3 * List.length dimension_parameters)%nat in
  other_arguments <- visit_parameters u3 params ;;
  OK (map Some tensor_arguments ++ map Some dimension_parameters
        ++ map Some scalar_arguments ++ other_arguments)%list.

Definition mapper_nodes (m : list (option node)) : list node :=
  flat_map (fun x => match x with Some n => [n] | None => [] end) m.

(** [ArgumentEngine.__init__] *)
Definition ArgumentEngine_init (stencils : list Stencil) (params : list pyobj)
    (dles : list dle_argument) : M ArgumentEngine :=
  m <- _build_argument_mapper dles params ;;
  OK {| parameters := params;
        dle_arguments := dles;
        argument_mapper := m;
        arguments := filter_ordered (filter is_Argument (mapper_nodes m));
        dims := filter is_DimensionParameter (mapper_nodes m);
        offsets :=
          od_of_list String.eqb
            (map (fun dv : Dimension * Z => (end_name (fst dv), snd dv))
                 (retrieve_offsets stencils)) |}.

(** ** Engines used as concrete inputs *)

Module Examples.
Definition x : Dimension := mkDimension "x" false.
Definition y : Dimension := mkDimension "y" false.
Definition bx : Dimension := mkDimension "bx" false.

(** Two functions indexed by [x], of extents [a] and [b] along it. *)
Definition f (a : Z) : pyobj := PyFunction "f" "float32" [x] (PArray [a]) None.
Definition g (b : Z) : pyobj := PyFunction "g" "float32" [x] (PArray [b]) None.

Definition two_tensors (a b : Z) : M ArgumentEngine :=
  ArgumentEngine_init [] [f a; g b; PyDimension x] [].

(** A scalar argument with two literal sources, [a] and [b]. *)
Definition n_arg (a b : Z) : node :=
  ScalarArgument 0 "n" (Some [gvf (int_ a) None_; gvf (int_ b) None_]) int32.

Definition two_sources (a b : Z) : ArgumentEngine :=
  {| parameters := []; dle_arguments := [];
     argument_mapper := [Some (n_arg a b)];
     arguments := [n_arg a b]; dims := []; offsets := [] |}.

(** A scalar argument with one literal source and a verification edge
    to [predicate]. *)
Definition checked_arg (predicate param : pyobj) : node :=
  ScalarArgument 0 "n"
    (Some [gvf (int_ 5) None_; Dependency verified_by_t predicate param]) int32.

Definition checked (predicate param : pyobj) : ArgumentEngine :=
  {| parameters := []; dle_arguments := [];
     argument_mapper := [Some (checked_arg predicate param)];
     arguments := [checked_arg predicate param]; dims := []; offsets := [] |}.

(** Nested tiling: [bx] blocks [x], and [x] itself blocks [y]. *)
Definition dle_bx : dle_argument := mkDle bx x None.
Definition dle_x : dle_argument := mkDle x y None.

Definition nested_tiling : M ArgumentEngine :=
  ArgumentEngine_init [] [PyDimension x; PyDimension y] [dle_bx; dle_x].

(** One tile over [x] with the configured value [v]. *)
Definition one_tile (a : Z) (v : option sizing) : M ArgumentEngine :=
  ArgumentEngine_init [] [f a; PyDimension x] [mkDle bx x v].

(** A stencil touching [x] at the relative offsets -1, 0 and +2. *)
Definition stencil_x : Stencil := [(x, [-1; 0; 2])].

Definition with_halo (a : Z) : M ArgumentEngine :=
  ArgumentEngine_init [stencil_x] [f a; PyDimension x] [].

Definition the {A : Type} (default : A) (m : M A) : A :=
  match m with OK a => a | Raise _ => default end.

(** The nodes named [x_s] and [x_e] of the engine with a halo. *)
Definition halo_x_s : node :=
  ScalarArgument 3 "x_s"
    (Some [gvf (PyParameter
                  (DimensionParameter 1 x
                     (Some [gvf (PyParameter
                                   (TensorArgument 0 "f" (Some [gvf (f 10) None_]) "float32"))
                                (int_ 0)])))
               None_]) int32.

Definition halo_x_e : node :=
  ScalarArgument 4 "x_e"
    (Some [gvf (PyParameter
                  (DimensionParameter 1 x
                     (Some [gvf (PyParameter
                                   (TensorArgument 0 "f" (Some [gvf (f 10) None_]) "float32"))
                                (int_ 0)])))
               None_]) int32.

(** A tile over [x] when nothing gives [x] an extent. *)
Definition tile_without_extent : M ArgumentEngine :=
  ArgumentEngine_init [] [PyDimension x] [mkDle bx x None].

(** The tensor arguments of [f] and [g], the dimension parameter of [x] fed
    by both, its size scalar, and the values once both tensors are known. *)
Definition f_arg : node := TensorArgument 0 "f" (Some [gvf (f 10) None_]) "float32".
Definition g_arg : node := TensorArgument 1 "g" (Some [gvf (g 14) None_]) "float32".

Definition x_param : node :=
  DimensionParameter 2 x
    (Some [gvf (PyParameter f_arg) (int_ 0); gvf (PyParameter g_arg) (int_ 0)]).

Definition x_size_arg : node :=
  ScalarArgument 3 "x_size" (Some [gvf (PyParameter x_param) None_]) int32.

Definition known_fg : values_t :=
  [(f_arg, PyData (PArray [10])); (g_arg, PyData (PArray [14]))].

(** A dimension parameter of [y] with no source, and the dimension
    parameter of [x] fed by the tensor [f] and by that of [y]. *)
Definition y_param : node := DimensionParameter 4 y (Some []).

Definition x_param_partial : node :=
  DimensionParameter 5 x
    (Some [gvf (PyParameter f_arg) (int_ 0); gvf (PyParameter y_param) None_]).

(** A tile over a dimension [z] that is not among the parameters. *)
Definition z : Dimension := mkDimension "z" false.

Definition tile_over_undeclared : M ArgumentEngine :=
  ArgumentEngine_init [] [f 10; PyDimension x] [mkDle bx z None].

Definition empty_engine : ArgumentEngine :=
  {| parameters := []; dle_arguments := []; argument_mapper := [];
     arguments := []; dims := []; offsets := [] |}.
End Examples.

(** ** Notions used in the statements *)


(** The caller's autotune request, as [handle] reads it. *)
Definition autotune_request (kwargs : kwargs_t) : pyobj :=
  fst (kwargs_pop kwargs "autotune" (PyData (PBool false))).

(** The keyword arguments once the autotune request is popped. *)
Definition without_autotune (kwargs : kwargs_t) : kwargs_t :=
  snd (kwargs_pop kwargs "autotune" (PyData (PBool false))).

(** The extent of a descriptor's blocked dimension is missing from
    [dim_sizes], or recorded there as [None]. *)
Definition extent_unknown (dim_sizes : list (string * pyval)) (i : dle_argument) : bool :=
  match od_get String.eqb dim_sizes (dim_name (original_dim i)) with
  | Some v => is_PNone v
  | None => true
  end.

(** The keyword arguments left once every name of [names] is popped. *)
Definition pop_all (names : list string) (kwargs : kwargs_t) : kwargs_t :=
  fold_left (fun kw n => od_remove String.eqb kw n) names kwargs.

(** What [kwargs.pop(i.name, None)] yields for the node [i]. *)
Definition given (kwargs : kwargs_t) (i : node) : pyobj :=
  match od_get String.eqb kwargs (node_name i) with
  | Some v => v
  | None => None_
  end.

(** The arguments of an engine are distinct objects with distinct names. *)
Definition distinct_arguments (self : ArgumentEngine) : Prop :=
  NoDup (map node_uid (arguments self)) /\ NoDup (map node_name (arguments self)).

(** A name declared by the engine: of an argument or of a dimension
    parameter. *)
Definition declared (self : ArgumentEngine) (k : string) : Prop :=
  In k (map node_name (arguments self)) \/ In k (map node_name (dims self)).

(** A computation that does not end with an [InvalidArgument]. *)
Definition benign {A : Type} (m : M A) : Prop :=
  forall msg, m <> Raise (InvalidArgument msg).

(** No supplied value is a composite function. *)
Definition no_composite (kwargs : kwargs_t) : Prop :=
  Forall (fun kv => is_CompositeFunction (snd kv) = false) kwargs.

(** Nothing concrete is known yet for the node [o]: it is absent from
    [known], or its value there is [None] or still deferred. *)
Definition no_override (known : values_t) (o : node) : Prop :=
  forall v, od_get node_eqb known o = Some v ->
            is_None v = true \/ is_Unevaluated v = true.

(** What an argument with no supplied value takes from the provider it
    depends on: the data of a function (for a tensor argument), the data of
    a constant, the value of an object. *)
Definition provider_default (i : node) (o : pyobj) : option pyval :=
  match o with
  | PyFunction _ _ _ data _ => if is_TensorArgument i then Some data else None
  | PyConstant _ _ data => Some data
  | PyObject _ _ value => Some value
  | _ => None
  end.

(** The keys of [kwargs] that are the name of no argument and of no
    dimension parameter, with their values, in the order of [kwargs]. *)
Definition undeclared (self : ArgumentEngine) (kwargs : kwargs_t) : kwargs_t :=
  filter (fun kv =>
            negb (existsb (String.eqb (fst kv))
                          (map node_name (arguments self) ++ map node_name (dims self))))
         kwargs.

(** The mapper records the dependency [dep] for the dimension [d]. *)
Definition records (mapper : dep_mapper) (d : Dimension) (dep : dependency) : Prop :=
  exists deps, od_get Dimension_eqb mapper d = Some deps /\ In dep deps.

(** The engine holds a dimension parameter of [d] with the dependency
    [dep]. *)
Definition dimension_depends (self : ArgumentEngine) (d : Dimension) (dep : dependency)
  : Prop :=
  exists u deps, In (DimensionParameter u d (Some deps)) (dims self) /\ In dep deps.



(** * Properties *)

(** ** Reduction of candidate values *)

Lemma py_max_int (a b : Z) : py_max (int_ a) (int_ b) = OK (int_ (Z.max a b)).
Proof.
  unfold py_max, py_gt, int_; simpl.
  destruct (Z.ltb_spec a b) as [H | H].
  - now rewrite Z.max_r by lia.
  - now rewrite Z.max_l by lia.
Qed.

Lemma reduce_max_ints (m : Z) (l : list Z) :
  reduce py_max (map int_ (m :: l)) = OK (int_ (fold_left Z.max l m)).
Proof.
  simpl. revert m.
  induction l as [| z l IH]; intros m; simpl.
  - reflexivity.
  - rewrite py_max_int. apply IH.
Qed.

Lemma forallb_not_None_ints (l : list Z) :
  forallb (fun x => negb (is_None x)) (map int_ l) = true.
Proof. induction l; simpl; auto. Qed.

(** The dimension-level reconciliation takes the maximum of the candidates
    when all of them are resolved integers. *)
Lemma reconcile_resolved_candidates_max (o : node) (known : values_t)
    (candidates : list (dependency * pyobj)) (m1 m2 : Z) (l : list Z) :
  od_get node_eqb known o = None ->
  map snd candidates = map int_ (m1 :: m2 :: l) ->
  reconcile o known candidates = OK (int_ (fold_left Z.max (m2 :: l) m1)).
Proof.
  intros Hk Hc. unfold reconcile. rewrite Hk, Hc.
  change (map int_ (m1 :: m2 :: l)) with (int_ m1 :: int_ m2 :: map int_ l).
  cbv iota beta.
  change (int_ m1 :: int_ m2 :: map int_ l) with (map int_ (m1 :: m2 :: l)).
  rewrite forallb_not_None_ints.
  apply reduce_max_ints.
Qed.

(** A dimension indexed by two tensors of extents 10 and 14 derives size 14. *)
Lemma two_tensors_size_14 :
  exists e res flag,
    Examples.two_tensors 10 14 = OK e /\
    handle e [] = ([], OK (res, flag)) /\
    od_get String.eqb res "x_size" = Some (int_ 14).
Proof.
  eexists. eexists. eexists.
  split; [ reflexivity | ].
  split; [ vm_compute; reflexivity | reflexivity ].
Qed.

(** An argument built directly from the classes, with the two literal
    sources [a] and [b]: [_derive_values] calls [reduce] with the list
    alone, and [handle] ends with a [TypeError].  No engine that
    [ArgumentEngine.__init__] constructs holds such an argument (see
    [constructed_arguments_single_source]). *)
Lemma argument_with_two_sources_raises (a b : Z) :
  handle (Examples.two_sources a b) [] = ([], Raise TypeError).
Proof. reflexivity. Qed.

(** C2: the claim asks that no value of the mapping returned by [handle] is
    an UnevaluatedDependency.  With [bx] tiling [x] and [x] tiling [y], and
    only [y_e] supplied, [handle] returns normally and the value of
    [bx_size] is still an UnevaluatedDependency: its single evaluation in
    the last loop runs before [x_e] is settled and defers again. *)
Theorem C2_nested_tiling_leaves_unevaluated :
  exists e res flag u,
    Examples.nested_tiling = OK e /\
    handle e [("y_e", int_ 8)] = ([], OK (res, flag)) /\
    od_get String.eqb res "bx_size" = Some u /\
    is_Unevaluated u = true.
Proof.
  eexists. eexists. eexists. eexists.
  split; [ reflexivity | ].
  split; [ vm_compute; reflexivity | ].
  split; reflexivity.
Qed.

(** [_verify] never yields [False]: its loop either finds no verification
    edge at all or fails on calling its own boolean. *)
Lemma _verify_loop_true_or_TypeError (keys : list node) :
  _verify_loop keys true = OK true \/ _verify_loop keys true = Raise TypeError.
Proof.
  induction keys as [| i keys IH]; simpl.
  - now left.
  - unfold verified_by. destruct (node_dependencies i) as [l |]; simpl.
    + destruct (filter is_verified_by l); simpl; auto.
    + now right.
Qed.

(** An argument built directly from the classes, with a verification
    edge to any [predicate]: [_verify] calls its local boolean instead of
    the predicate and [handle] ends with a [TypeError], whatever the
    predicate would have answered.  No engine that
    [ArgumentEngine.__init__] constructs holds such an argument (see
    [constructed_arguments_single_source]). *)
Lemma verification_edge_raises_TypeError (predicate param : pyobj) :
  handle (Examples.checked predicate param) [] = ([], Raise TypeError).
Proof. reflexivity. Qed.

(** ** The shape of a successful call *)

Lemma handle_unfold (self : ArgumentEngine) (kwargs : kwargs_t) :
  handle self kwargs =
  match derive_stage self (without_autotune kwargs) with
  | Raise e => ([], Raise e)
  | OK (values, dim_sizes) =>
      match _dle_arguments self dim_sizes with
      | (log, Raise e) => (log, Raise e)
      | (log, OK (_, dle_autotune)) =>
          (log,
           ok <- _verify values ;;
           assert! ok ;;
           flag <- py_and (autotune_request kwargs) (PyData (PBool dle_autotune)) ;;
           OK (arguments_of values, flag))
      end
  end.
Proof.
  unfold handle, without_autotune, autotune_request.
  destruct (kwargs_pop kwargs "autotune" (PyData (PBool false))); reflexivity.
Qed.

Lemma handle_OK_inv (self : ArgumentEngine) (kwargs : kwargs_t) log res flag :
  handle self kwargs = (log, OK (res, flag)) ->
  exists values dim_sizes dle dle_autotune,
    derive_stage self (without_autotune kwargs) = OK (values, dim_sizes) /\
    _dle_arguments self dim_sizes = (log, OK (dle, dle_autotune)) /\
    _verify values = OK true /\
    py_and (autotune_request kwargs) (PyData (PBool dle_autotune)) = OK flag /\
    res = arguments_of values.
Proof.
  rewrite handle_unfold.
  destruct (derive_stage self (without_autotune kwargs)) as [[values ds] | e];
    [ | discriminate ].
  destruct (_dle_arguments self ds) as [log' [[dle at_] | e]] eqn:Hd; [ | discriminate ].
  destruct (_verify values) as [[|] | e] eqn:Hv; simpl; try discriminate.
  destruct (py_and (autotune_request kwargs) (PyData (PBool at_))) as [fl | e] eqn:Hf;
    simpl; [ | discriminate ].
  intros H; inversion H; subst.
  exists values, ds, dle, at_. repeat split; auto.
Qed.

(** ** Autotune eligibility *)


(** With a fixed nonzero value and a known extent, the derived value of
    the blocked dimension is the configured value itself. *)
Lemma derive_dle_argument_value_fixed (blocked : node) (known : values_t)
    (a : dle_argument) (z : Z) (d : pyval) :
  dle_value a = Some (Fixed z) -> z <> 0 ->
  runtime_dim_extent (original_dim a) known = OK d -> is_PNone d = false ->
  derive_dle_argument_value blocked known (PyDle a) = OK (int_ z).
Proof.
  intros Hv Hz He Hd. unfold derive_dle_argument_value.
  rewrite He. simpl. rewrite Hd, Hv. simpl.
  destruct (Z.eqb_spec z 0); [ contradiction | reflexivity ].
Qed.




(** ** Tiling resize on an unknown extent *)

Lemma _dle_arguments_loop_unknown (l : list dle_argument) :
  forall dim_sizes acc at_,
    (exists i, In i l /\ extent_unknown dim_sizes i = true) ->
    exists j, In j l /\ extent_unknown dim_sizes j = true /\
      _dle_arguments_loop l dim_sizes acc at_ =
        ([unable_to_derive_message (original_dim j)],
         Raise (InvalidArgument "Unknown dimension size")).
Proof.
  induction l as [| i l IH]; intros ds acc at_ (k & Hin & Hk).
  - destruct Hin.
  - destruct (extent_unknown ds i) eqn:Hi.
    + exists i. split; [ now left | split; [ exact Hi | ] ].
      simpl. unfold extent_unknown in Hi.
      destruct (od_get String.eqb ds (dim_name (original_dim i))) as [v |].
      * now rewrite Hi.
      * reflexivity.
    + assert (Hk' : exists i', In i' l /\ extent_unknown ds i' = true).
      { destruct Hin as [-> | Hin]; [ congruence | eauto ]. }
      unfold extent_unknown in Hi. simpl.
      destruct (od_get String.eqb ds (dim_name (original_dim i))) as [v |];
        [ | discriminate ].
      rewrite Hi.
      destruct (dle_value i) as [[z | f] |]; simpl.
      * destruct (Z.eqb z 0); simpl;
          match goal with
          | |- context [_dle_arguments_loop l ds ?a ?b] =>
              destruct (IH ds a b Hk') as (j & Hj & Hu & ->)
          end; exists j; auto.
      * match goal with
        | |- context [_dle_arguments_loop l ds ?a ?b] =>
            destruct (IH ds a b Hk') as (j & Hj & Hu & ->)
        end; exists j; auto.
      * match goal with
        | |- context [_dle_arguments_loop l ds ?a ?b] =>
            destruct (IH ds a b Hk') as (j & Hj & Hu & ->)
        end; exists j; auto.
Qed.

(** C8: when the derivation has produced its values and the extent of
    some tiling descriptor's blocked dimension is not known from them,
    [handle] fails with the invalid-argument error, and the message logged
    with it names the dimension of the first such descriptor. *)
Theorem C8_unknown_extent_is_invalid_argument (self : ArgumentEngine)
    (kwargs : kwargs_t) values dim_sizes :
  derive_stage self (without_autotune kwargs) = OK (values, dim_sizes) ->
  (exists i, In i (dle_arguments self) /\ extent_unknown dim_sizes i = true) ->
  exists j, In j (dle_arguments self) /\ extent_unknown dim_sizes j = true /\
    handle self kwargs =
      (["Unable to derive size of dimension " ++ dim_name (original_dim j) ++
        " from defaults. Please provide an explicit value."],
       Raise (InvalidArgument "Unknown dimension size")).
Proof.
  intros Hd Hex.
  destruct (_dle_arguments_loop_unknown (dle_arguments self) dim_sizes [] true Hex)
    as (j & Hj & Hu & Hloop).
  exists j. split; [ exact Hj | split; [ exact Hu | ] ].
  rewrite handle_unfold, Hd. unfold _dle_arguments. rewrite Hloop. reflexivity.
Qed.

(** C8, at a tile over a dimension that nothing gives an extent. *)
Lemma C8_unknown_extent_witness :
  exists j,
    In j (dle_arguments (Examples.the Examples.empty_engine Examples.tile_without_extent)) /\
    extent_unknown [("x", PNone)] j = true /\
    handle (Examples.the Examples.empty_engine Examples.tile_without_extent) [] =
      (["Unable to derive size of dimension " ++ dim_name (original_dim j) ++
        " from defaults. Please provide an explicit value."],
       Raise (InvalidArgument "Unknown dimension size")).
Proof.
  eapply (C8_unknown_extent_is_invalid_argument
            (Examples.the Examples.empty_engine Examples.tile_without_extent) []).
  - vm_compute. reflexivity.
  - exists (mkDle Examples.bx Examples.x None). split; [ simpl; auto | reflexivity ].
Defined.

(** ** Generic facts on [mapM] and enumeration *)

Lemma mapM_Forall2 {A B : Type} (f : A -> M B) (l : list A) :
  forall r, mapM f l = OK r -> Forall2 (fun a b => f a = OK b) l r.
Proof.
  induction l as [| a l IH]; simpl; intros r H.
  - inversion H. constructor.
  - destruct (f a) as [b | e] eqn:Hf; simpl in H; [ | discriminate ].
    destruct (mapM f l) as [bs | e]; simpl in H; [ | discriminate ].
    inversion H; subst. constructor; auto.
Qed.

Lemma mapM_length {A B : Type} (f : A -> M B) (l : list A) r :
  mapM f l = OK r -> List.length r = List.length l.
Proof.
  intros H. apply mapM_Forall2 in H.
  induction H; simpl; congruence.
Qed.

Lemma enumerate_from_snd {A : Type} (l : list A) :
  forall i, map snd (enumerate_from i l) = l.
Proof. induction l; simpl; intros; [ reflexivity | now rewrite IHl ]. Qed.

Lemma enumerate_from_fst {A : Type} (l : list A) :
  forall i, map fst (enumerate_from i l) = seq i (List.length l).
Proof. induction l; simpl; intros; [ reflexivity | now rewrite IHl ]. Qed.

Lemma enumerate_from_length {A : Type} (l : list A) :
  forall i, List.length (enumerate_from i l) = List.length l.
Proof. induction l; simpl; intros; [ reflexivity | now rewrite IHl ]. Qed.

(** ** The nodes built by [_build_argument_mapper] *)

Lemma mapper_nodes_Some (l : list node) : mapper_nodes (map Some l) = l.
Proof. induction l; simpl; [ reflexivity | now rewrite IHl ]. Qed.

Lemma mapper_nodes_app (a b : list (option node)) :
  mapper_nodes (a ++ b) = (mapper_nodes a ++ mapper_nodes b)%list.
Proof. unfold mapper_nodes. apply flat_map_app. Qed.

Lemma new_TensorArgument_inv uid provider deps n :
  new_TensorArgument uid provider deps = OK n ->
  exists name dt d, n = TensorArgument uid name d dt.
Proof.
  unfold new_TensorArgument.
  destruct (obj_name provider); simpl; [ | discriminate ].
  destruct (obj_dtype provider); simpl; [ | discriminate ].
  intros H; inversion H; eauto.
Qed.

Lemma build_tensor_arguments_spec (fs : list pyobj) :
  forall uid mapper ts mapper',
    build_tensor_arguments fs uid mapper = OK (ts, mapper') ->
    map node_uid ts = seq uid (List.length ts) /\
    Forall (fun t => is_TensorArgument t = true) ts.
Proof.
  induction fs as [| f fs IH]; simpl; intros uid mapper ts mapper' H.
  - inversion H; subst. split; constructor.
  - unfold ArgumentVisitor.visit_SymbolicFunction in H.
    destruct (new_TensorArgument uid f []) as [a | e] eqn:Ha; simpl in H; [ | discriminate ].
    match type of H with
    | context [build_tensor_arguments fs (S uid) ?m] =>
        destruct (build_tensor_arguments fs (S uid) m) as [[ts0 mp0] | e] eqn:Hr
    end; simpl in H; [ | discriminate ].
    inversion H; subst.
    apply IH in Hr as [Hu Ht].
    apply new_TensorArgument_inv in Ha as (name & dt & d & ->).
    simpl. rewrite Hu. split; [ reflexivity | constructor; auto ].
Qed.

Lemma visit_DimensionParameter_inv (uid : nat) (o : node) (l : list node) :
  ArgumentVisitor.visit_DimensionParameter uid o = OK l ->
  exists u p deps,
    o = DimensionParameter u p deps /\
    l = [ScalarArgument uid (size_name p) (Some [gvf (PyParameter o) None_]) int32;
         ScalarArgument (uid + 1) (start_name p) (Some [gvf (PyParameter o) None_]) int32;
         ScalarArgument (uid + 2) (end_name p) (Some [gvf (PyParameter o) None_]) int32].
Proof.
  destruct o; simpl; intros H; inversion H; subst.
  eexists _, _, _. split; reflexivity.
Qed.

Lemma visit_dimension_parameters_from (u2 : nat) (dps : list node) :
  forall k visited,
    mapM (fun e : nat * node =>
            ArgumentVisitor.visit_DimensionParameter (u2 + 3 * fst e) (snd e))
         (enumerate_from k dps) = OK visited ->
    Forall2 (fun dp l => exists uid, ArgumentVisitor.visit_DimensionParameter uid dp = OK l)
            dps visited /\
    map node_uid (List.concat visited) = seq (u2 + 3 * k) (3 * List.length dps) /\
    Forall (fun s => is_Argument s = true) (List.concat visited).
Proof.
  induction dps as [| dp dps IH]; intros k visited H;
    cbn [enumerate_from mapM fst snd] in H.
  - inversion H; subst. repeat split; constructor.
  - destruct (ArgumentVisitor.visit_DimensionParameter (u2 + 3 * k) dp) as [l | e] eqn:Hv;
      cbn [bind] in H; [ | discriminate ].
    match type of H with
    | context [mapM ?f (enumerate_from (S k) dps)] =>
        destruct (mapM f (enumerate_from (S k) dps)) as [vs | e] eqn:Hr
    end; cbn [bind] in H; [ | discriminate ].
    inversion H; subst.
    apply IH in Hr as (HF & Hu & Ha).
    split; [ constructor; eauto | ].
    apply visit_DimensionParameter_inv in Hv as (u & p & deps & -> & ->).
    cbn [List.concat app map node_uid List.length is_Argument].
    rewrite Hu.
    replace (u2 + 3 * S k)%nat with (S (S (S (u2 + 3 * k)))) by lia.
    replace (3 * S (List.length dps))%nat with (S (S (S (3 * List.length dps)))) by lia.
    cbn [seq].
    replace (u2 + 3 * k + 1)%nat with (S (u2 + 3 * k)) by lia.
    replace (u2 + 3 * k + 2)%nat with (S (S (u2 + 3 * k))) by lia.
    split; [ reflexivity | repeat constructor; exact Ha ].
Qed.

Lemma ArgumentVisitor_visit_inv (uid : nat) (o : pyobj) (n : node) :
  ArgumentVisitor.visit uid o = OK (Some n) ->
  node_uid n = uid /\ is_Argument n = true.
Proof.
  unfold ArgumentVisitor.visit, ArgumentVisitor.visit_SymbolicFunction,
    ArgumentVisitor.visit_Object, ArgumentVisitor.visit_Scalar,
    ArgumentVisitor.visit_Constant, new_TensorArgument, new_PtrArgument.
  destruct o; simpl; intros H; inversion H; subst; split; reflexivity.
Qed.

Lemma visit_parameters_from (params : list pyobj) :
  forall k others,
    mapM (fun e : nat * pyobj => ArgumentVisitor.visit (fst e) (snd e))
         (enumerate_from k params) = OK others ->
    Forall (fun n => is_Argument n = true) (mapper_nodes others) /\
    Forall (fun n => (k <= node_uid n)%nat) (mapper_nodes others) /\
    NoDup (map node_uid (mapper_nodes others)).
Proof.
  induction params as [| o params IH]; intros k others H;
    cbn [enumerate_from mapM fst snd] in H.
  - inversion H; subst. simpl. repeat split; constructor.
  - destruct (ArgumentVisitor.visit k o) as [r | e] eqn:Hv; cbn [bind] in H; [ | discriminate ].
    match type of H with
    | context [mapM ?f (enumerate_from (S k) params)] =>
        destruct (mapM f (enumerate_from (S k) params)) as [rs | e] eqn:Hr
    end; cbn [bind] in H; [ | discriminate ].
    inversion H; subst.
    apply IH in Hr as (Ha & Hk & Hn).
    assert (Hk' : Forall (fun n => (k <= node_uid n)%nat) (mapper_nodes rs)).
    { eapply Forall_impl; [ | exact Hk ]. simpl. intros; lia. }
    destruct r as [n |]; cbn [mapper_nodes flat_map app].
    + apply ArgumentVisitor_visit_inv in Hv as [Hu Hi].
      fold (mapper_nodes rs).
      repeat split.
      * constructor; auto.
      * constructor; [ lia | exact Hk' ].
      * simpl. constructor; [ | exact Hn ].
        intros Hin. apply in_map_iff in Hin as (n' & Heq & Hin).
        rewrite Forall_forall in Hk. specialize (Hk n' Hin). lia.
    + fold (mapper_nodes rs). auto.
Qed.

(** What a successful [_build_argument_mapper] returns: the tensor
    arguments, the dimension parameters, the three scalars of each
    dimension parameter, and what the remaining visits give. *)
Lemma _build_argument_mapper_inv (dles : list dle_argument) (params : list pyobj) m :
  _build_argument_mapper dles params = OK m ->
  exists tensors mapper dps visited others u2,
    m = (map Some tensors ++ map Some dps ++ map Some (List.concat visited) ++ others)%list /\
    build_tensor_arguments (filter is_SymbolicFunction params) 0 [] = OK (tensors, mapper) /\
    (List.length tensors <= u2)%nat /\
    visit_dimension_parameters u2 dps = OK visited /\
    visit_parameters (u2 + 3 * List.length dps) params = OK others.
Proof.
  unfold _build_argument_mapper.
  destruct (build_tensor_arguments (filter is_SymbolicFunction params) 0 [])
    as [[ts mp] | e] eqn:Hb; cbn [bind fst snd]; [ | discriminate ].
  destruct (mapM Dimension_parent (stepping_dimensions params)); cbn [bind]; [ | discriminate ].
  match goal with
  | |- context [visit_dimension_parameters ?u ?d] =>
      destruct (visit_dimension_parameters u d) as [vis | e] eqn:Hv;
      cbn [bind]; [ | discriminate ];
      destruct (visit_parameters (u + 3 * List.length d) params) as [oth | e] eqn:Ho;
      cbn [bind]; [ | discriminate ];
      intros H; inversion H; subst;
      exists ts, mp, d, vis, oth, u
  end.
  split; [ reflexivity | ].
  split; [ reflexivity | ].
  split; [ lia | ].
  split; assumption.
Qed.

Lemma visited_dimension_parameters (dps : list node) (visited : list (list node)) :
  Forall2 (fun dp l => exists uid, ArgumentVisitor.visit_DimensionParameter uid dp = OK l)
          dps visited ->
  Forall (fun dp => is_DimensionParameter dp = true) dps.
Proof.
  induction 1 as [| dp l dps visited (uid & Hv) _ IH]; constructor; auto.
  apply visit_DimensionParameter_inv in Hv as (u & p & deps & -> & _). reflexivity.
Qed.

Lemma filter_all {A : Type} (f : A -> bool) (l : list A) :
  Forall (fun a => f a = true) l -> filter f l = l.
Proof. induction 1; simpl; [ reflexivity | ]. now rewrite H, IHForall. Qed.

Lemma filter_none {A : Type} (f : A -> bool) (l : list A) :
  Forall (fun a => f a = false) l -> filter f l = [].
Proof. induction 1; simpl; [ reflexivity | ]. now rewrite H. Qed.

Lemma Argument_not_DimensionParameter (l : list node) :
  Forall (fun n => is_Argument n = true) l ->
  Forall (fun n => is_DimensionParameter n = false) l.
Proof. apply Forall_impl. now destruct a. Qed.

Lemma DimensionParameter_not_Argument (l : list node) :
  Forall (fun n => is_DimensionParameter n = true) l ->
  Forall (fun n => is_Argument n = false) l.
Proof. apply Forall_impl. now destruct a. Qed.

Lemma TensorArgument_is_Argument (l : list node) :
  Forall (fun n => is_TensorArgument n = true) l ->
  Forall (fun n => is_Argument n = true) l.
Proof. apply Forall_impl. now destruct a. Qed.

Lemma ArgumentEngine_init_inv (stencils : list Stencil) (params : list pyobj)
    (dles : list dle_argument) (self : ArgumentEngine) :
  ArgumentEngine_init stencils params dles = OK self ->
  _build_argument_mapper dles params = OK (argument_mapper self) /\
  arguments self = filter_ordered (filter is_Argument (mapper_nodes (argument_mapper self))) /\
  dims self = filter is_DimensionParameter (mapper_nodes (argument_mapper self)) /\
  parameters self = params /\ dle_arguments self = dles.
Proof.
  unfold ArgumentEngine_init.
  destruct (_build_argument_mapper dles params) as [m | e]; cbn [bind]; [ | discriminate ].
  intros H; inversion H; subst; cbn. repeat split; reflexivity.
Qed.

(** The visit of one dimension parameter, on its own. *)
Lemma visit_DimensionParameter_three (uid u : nat) (p : Dimension) deps :
  ArgumentVisitor.visit_DimensionParameter uid (DimensionParameter u p deps) =
  OK [ScalarArgument uid (size_name p)
        (Some [gvf (PyParameter (DimensionParameter u p deps)) None_]) int32;
      ScalarArgument (uid + 1) (start_name p)
        (Some [gvf (PyParameter (DimensionParameter u p deps)) None_]) int32;
      ScalarArgument (uid + 2) (end_name p)
        (Some [gvf (PyParameter (DimensionParameter u p deps)) None_]) int32].
Proof. reflexivity. Qed.

(** C9: in a constructed engine the argument mapper is the tensor
    arguments, then the dimension parameters, then, for each dimension
    parameter in turn, exactly three ScalarArguments named with its size,
    start and end names, each with the single dependency
    GetsValueFrom on that DimensionParameter node, then the other
    arguments. *)
Theorem C9_three_scalars_per_dimension_parameter (stencils : list Stencil)
    (params : list pyobj) (dles : list dle_argument) (self : ArgumentEngine) :
  ArgumentEngine_init stencils params dles = OK self ->
  exists tensors visited others,
    argument_mapper self =
      (map Some tensors ++ map Some (dims self)
         ++ map Some (List.concat visited) ++ others)%list /\
    Forall2
      (fun dp l =>
         exists uid u p deps,
           dp = DimensionParameter u p deps /\
           l = [ScalarArgument uid (size_name p) (Some [gvf (PyParameter dp) None_]) int32;
                ScalarArgument (uid + 1) (start_name p) (Some [gvf (PyParameter dp) None_]) int32;
                ScalarArgument (uid + 2) (end_name p) (Some [gvf (PyParameter dp) None_]) int32])
      (dims self) visited.
Proof.
  intros Hinit.
  apply ArgumentEngine_init_inv in Hinit as (Hb & _ & Hdims & _).
  apply _build_argument_mapper_inv in Hb
    as (ts & mp & dps & vis & oth & u2 & Hm & Hts & _ & Hv & Ho).
  apply build_tensor_arguments_spec in Hts as [_ Hts].
  unfold visit_dimension_parameters in Hv.
  apply visit_dimension_parameters_from in Hv as (HF & _ & Hsc).
  unfold visit_parameters in Ho.
  apply visit_parameters_from in Ho as (Hoa & _ & _).
  assert (Hd : dims self = dps).
  { rewrite Hdims, Hm. rewrite !mapper_nodes_app, !mapper_nodes_Some.
    rewrite !filter_app.
    rewrite (filter_none _ ts)
      by (apply Argument_not_DimensionParameter, TensorArgument_is_Argument, Hts).
    rewrite (filter_all _ dps) by (eapply visited_dimension_parameters; eauto).
    rewrite (filter_none _ (List.concat vis)) by (apply Argument_not_DimensionParameter, Hsc).
    rewrite (filter_none _ (mapper_nodes oth)) by (apply Argument_not_DimensionParameter, Hoa).
    simpl. now rewrite app_nil_r. }
  exists ts, vis, oth. rewrite Hd. split; [ exact Hm | ].
  eapply Forall2_impl; [ | exact HF ].
  intros dp l (uid & Hvis).
  apply visit_DimensionParameter_inv in Hvis as (u & p & deps & Hdp & Hl).
  exists uid, u, p, deps. split; [ exact Hdp | exact Hl ].
Qed.

(** C9, at the engine of two tensors indexed by [x]. *)
Lemma C9_three_scalars_witness :
  exists tensors visited others,
    argument_mapper (Examples.the Examples.empty_engine (Examples.two_tensors 10 14)) =
      (map Some tensors
         ++ map Some (dims (Examples.the Examples.empty_engine (Examples.two_tensors 10 14)))
         ++ map Some (List.concat visited) ++ others)%list /\
    Forall2
      (fun dp l =>
         exists uid u p deps,
           dp = DimensionParameter u p deps /\
           l = [ScalarArgument uid (size_name p) (Some [gvf (PyParameter dp) None_]) int32;
                ScalarArgument (uid + 1) (start_name p) (Some [gvf (PyParameter dp) None_]) int32;
                ScalarArgument (uid + 2) (end_name p) (Some [gvf (PyParameter dp) None_]) int32])
      (dims (Examples.the Examples.empty_engine (Examples.two_tensors 10 14))) visited.
Proof.
  apply (C9_three_scalars_per_dimension_parameter
           [] [Examples.f 10; Examples.g 14; PyDimension Examples.x] []).
  reflexivity.
Defined.

(** ** Ordered dictionaries whose keys compare through a projection *)

Section OrderedDictFacts.
Context {K V X : Type} (proj : K -> X) (xeqb : X -> X -> bool).
Hypothesis xeqb_eq : forall a b, xeqb a b = true <-> a = b.

Let keq (a b : K) : bool := xeqb (proj a) (proj b).

Lemma od_get_None_iff (d : list (K * V)) (k : K) :
  od_get keq d k = None <-> ~ In (proj k) (map (fun e => proj (fst e)) d).
Proof.
  induction d as [| [k' v] d IH]; simpl.
  - tauto.
  - unfold keq at 1. destruct (xeqb (proj k') (proj k)) eqn:E.
    + apply xeqb_eq in E. split; [ discriminate | intros H; exfalso; apply H; auto ].
    + assert (proj k' <> proj k) by (intros Hc; apply xeqb_eq in Hc; congruence).
      rewrite IH. tauto.
Qed.

Lemma od_set_absent (d : list (K * V)) (k : K) (v : V) :
  od_get keq d k = None -> od_set keq d k v = (d ++ [(k, v)])%list.
Proof.
  induction d as [| [k' v'] d IH]; simpl; [ reflexivity | ].
  destruct (keq k' k); [ discriminate | ].
  intros H. now rewrite IH.
Qed.

Lemma od_set_keys_present (d : list (K * V)) (k : K) (v w : V) :
  od_get keq d k = Some w -> map fst (od_set keq d k v) = map fst d.
Proof.
  induction d as [| [k' v'] d IH]; simpl; [ discriminate | ].
  destruct (keq k' k); simpl; [ reflexivity | ].
  intros H. now rewrite IH.
Qed.

Lemma od_get_set_same (d : list (K * V)) (k : K) (v : V) :
  od_get keq (od_set keq d k v) k = Some v.
Proof.
  induction d as [| [k' v'] d IH]; simpl.
  - unfold keq. now rewrite (proj2 (xeqb_eq _ _) eq_refl).
  - destruct (keq k' k) eqn:E; simpl; rewrite E; auto.
Qed.

Lemma od_get_set_other (d : list (K * V)) (k k' : K) (v : V) :
  proj k <> proj k' -> od_get keq (od_set keq d k v) k' = od_get keq d k'.
Proof.
  intros Hne.
  assert (Hf : keq k k' = false).
  { unfold keq. destruct (xeqb (proj k) (proj k')) eqn:E; [ | reflexivity ].
    apply xeqb_eq in E. contradiction. }
  induction d as [| [k0 v0] d IH]; simpl.
  - now rewrite Hf.
  - destruct (keq k0 k) eqn:E; simpl.
    + unfold keq in E. apply xeqb_eq in E.
      unfold keq at 1 3. rewrite E. unfold keq in Hf. now rewrite Hf.
    + destruct (keq k0 k'); auto.
Qed.

Lemma od_get_remove_other (d : list (K * V)) (k k' : K) :
  proj k <> proj k' -> od_get keq (od_remove keq d k) k' = od_get keq d k'.
Proof.
  intros Hne.
  induction d as [| [k0 v0] d IH]; simpl; [ reflexivity | ].
  destruct (keq k0 k) eqn:E; simpl.
  - unfold keq in E. apply xeqb_eq in E.
    destruct (keq k0 k') eqn:E'; [ | reflexivity ].
    unfold keq in E'. apply xeqb_eq in E'. congruence.
  - destruct (keq k0 k'); auto.
Qed.

Lemma od_remove_keys_incl (d : list (K * V)) (k : K) :
  incl (map fst (od_remove keq d k)) (map fst d).
Proof.
  induction d as [| [k0 v0] d IH]; simpl; [ apply incl_refl | ].
  destruct (keq k0 k); simpl.
  - apply incl_tl, incl_refl.
  - apply incl_cons; [ now left | apply incl_tl, IH ].
Qed.

Lemma od_remove_keeps (d : list (K * V)) (k : K) (x : X) :
  x <> proj k ->
  In x (map (fun e => proj (fst e)) d) ->
  In x (map (fun e => proj (fst e)) (od_remove keq d k)).
Proof.
  intros Hne.
  induction d as [| [k0 v0] d IH]; simpl; [ tauto | ].
  destruct (keq k0 k) eqn:E; simpl.
  - unfold keq in E. apply xeqb_eq in E. intros [H | H]; [ congruence | exact H ].
  - intros [H | H]; [ now left | right; auto ].
Qed.

Lemma od_remove_drops (d : list (K * V)) (k : K) :
  NoDup (map (fun e => proj (fst e)) d) ->
  ~ In (proj k) (map (fun e => proj (fst e)) (od_remove keq d k)) /\
  NoDup (map (fun e => proj (fst e)) (od_remove keq d k)) /\
  incl (map (fun e => proj (fst e)) (od_remove keq d k)) (map (fun e => proj (fst e)) d).
Proof.
  induction d as [| [k0 v0] d IH]; simpl; intros Hnd.
  - repeat split; auto. apply incl_refl.
  - inversion Hnd as [| ? ? Hnotin Hnd']; subst.
    destruct (keq k0 k) eqn:E; simpl.
    + unfold keq in E. apply xeqb_eq in E. rewrite <- E.
      repeat split; auto. apply incl_tl, incl_refl.
    + destruct (IH Hnd') as (H1 & H2 & H3).
      assert (proj k0 <> proj k).
      { intros Hc. apply xeqb_eq in Hc. unfold keq in E. congruence. }
      repeat split.
      * intros [Hc | Hc]; [ congruence | contradiction ].
      * constructor; [ | exact H2 ]. intros Hc. apply Hnotin. now apply H3.
      * apply incl_cons; [ now left | apply incl_tl, H3 ].
Qed.

Lemma od_of_list_NoDup_from (l d : list (K * V)) :
  NoDup (map (fun e => proj (fst e)) (d ++ l)) ->
  fold_left (fun d kv => od_set keq d (fst kv) (snd kv)) l d = (d ++ l)%list.
Proof.
  revert d. induction l as [| [k v] l IH]; simpl; intros d Hnd.
  - now rewrite app_nil_r.
  - rewrite od_set_absent.
    + rewrite IH; rewrite <- app_assoc; [ reflexivity | exact Hnd ].
    + apply od_get_None_iff.
      rewrite map_app in Hnd. apply NoDup_remove_2 in Hnd.
      intros Hin. apply Hnd. apply in_or_app. now left.
Qed.

Lemma od_of_list_NoDup (l : list (K * V)) :
  NoDup (map (fun e => proj (fst e)) l) -> od_of_list keq l = l.
Proof. intros H. unfold od_of_list. now rewrite od_of_list_NoDup_from. Qed.
End OrderedDictFacts.

(** ** Keyword arguments *)

Lemma od_remove_absent {K V : Type} (keq : K -> K -> bool) (d : list (K * V)) (k : K) :
  od_get keq d k = None -> od_remove keq d k = d.
Proof.
  induction d as [| [k0 v0] d IH]; simpl; [ reflexivity | ].
  destruct (keq k0 k); [ discriminate | ]. intros H. now rewrite IH.
Qed.

Lemma kwargs_pop_snd (kwargs : kwargs_t) (n : string) (default : pyobj) :
  snd (kwargs_pop kwargs n default) = od_remove String.eqb kwargs n.
Proof.
  unfold kwargs_pop. destruct (od_get String.eqb kwargs n) eqn:E; simpl.
  - reflexivity.
  - symmetry. now apply od_remove_absent.
Qed.

Lemma kwargs_pop_fst (kwargs : kwargs_t) (n : string) (default : pyobj) :
  fst (kwargs_pop kwargs n default) =
  match od_get String.eqb kwargs n with Some v => v | None => default end.
Proof. unfold kwargs_pop. now destruct (od_get String.eqb kwargs n). Qed.

Lemma map_fst_id {V : Type} (d : list (string * V)) :
  map (fun e : string * V => (fun s : string => s) (fst e)) d = map fst d.
Proof. reflexivity. Qed.

Lemma kw_get_remove_other (d : kwargs_t) (k k' : string) :
  k <> k' -> od_get String.eqb (od_remove String.eqb d k) k' = od_get String.eqb d k'.
Proof. intros H. now apply (od_get_remove_other (fun s : string => s) String.eqb String.eqb_eq). Qed.

Lemma kw_remove_keeps (d : kwargs_t) (k x : string) :
  x <> k -> In x (map fst d) -> In x (map fst (od_remove String.eqb d k)).
Proof.
  intros H Hin.
  now apply (od_remove_keeps (fun s : string => s) String.eqb String.eqb_eq d k x).
Qed.

Lemma kw_remove_drops (d : kwargs_t) (k : string) :
  NoDup (map fst d) ->
  ~ In k (map fst (od_remove String.eqb d k)) /\
  NoDup (map fst (od_remove String.eqb d k)) /\
  incl (map fst (od_remove String.eqb d k)) (map fst d).
Proof.
  intros H.
  now apply (od_remove_drops (fun s : string => s) String.eqb String.eqb_eq d k).
Qed.

(** ** Values keyed by nodes *)

Lemma values_get_None_iff (d : values_t) (k : node) :
  od_get node_eqb d k = None <-> ~ In (node_uid k) (map (fun e => node_uid (fst e)) d).
Proof. apply (od_get_None_iff node_uid Nat.eqb Nat.eqb_eq). Qed.

Lemma values_set_absent (d : values_t) (k : node) (v : pyobj) :
  od_get node_eqb d k = None -> od_set node_eqb d k v = (d ++ [(k, v)])%list.
Proof. apply (od_set_absent node_uid Nat.eqb). Qed.

Lemma values_set_keys (d : values_t) (k : node) (v w : pyobj) :
  od_get node_eqb d k = Some w -> map fst (od_set node_eqb d k v) = map fst d.
Proof. apply (od_set_keys_present node_uid Nat.eqb). Qed.

Lemma values_get_set_same (d : values_t) (k : node) (v : pyobj) :
  od_get node_eqb (od_set node_eqb d k v) k = Some v.
Proof. apply (od_get_set_same node_uid Nat.eqb Nat.eqb_eq). Qed.

Lemma values_get_set_other (d : values_t) (k k' : node) (v : pyobj) :
  node_uid k <> node_uid k' ->
  od_get node_eqb (od_set node_eqb d k v) k' = od_get node_eqb d k'.
Proof. apply (od_get_set_other node_uid Nat.eqb Nat.eqb_eq). Qed.

Lemma values_get_same_uid (d : values_t) (k k' : node) :
  node_uid k = node_uid k' -> od_get node_eqb d k = od_get node_eqb d k'.
Proof.
  intros H. induction d as [| [k0 v0] d IH]; simpl; [ reflexivity | ].
  unfold node_eqb at 1 3. rewrite H. now rewrite IH.
Qed.

(** ** Seeding *)

Lemma seed_arguments_kwargs (args : list node) :
  forall kwargs values values' kwargs',
    seed_arguments args kwargs values = OK (values', kwargs') ->
    kwargs' = pop_all (map node_name args) kwargs.
Proof.
  induction args as [| i args IH]; intros kw vals vals' kw' H; simpl in H.
  - now inversion H.
  - destruct (kwargs_pop kw (node_name i) None_) as [g kw1] eqn:Hp.
    destruct (get_value i g vals) as [v | e]; cbn [bind] in H; [ | discriminate ].
    apply IH in H. subst kw'. simpl.
    now rewrite <- (kwargs_pop_snd kw (node_name i) None_), Hp.
Qed.

Lemma seed_dimensions_kwargs (ds : list node) :
  forall kwargs dvalues,
    snd (seed_dimensions ds kwargs dvalues) = pop_all (map node_name ds) kwargs.
Proof.
  induction ds as [| i ds IH]; intros kw dv; simpl.
  - reflexivity.
  - destruct (kwargs_pop kw (node_name i) None_) as [g kw1] eqn:Hp.
    rewrite IH. now rewrite <- (kwargs_pop_snd kw (node_name i) None_), Hp.
Qed.

Lemma pop_all_keeps (names : list string) :
  forall kwargs k,
    In k (map fst kwargs) -> ~ In k names -> In k (map fst (pop_all names kwargs)).
Proof.
  induction names as [| n names IH]; intros kw k Hin Hnot; simpl.
  - exact Hin.
  - apply IH.
    + apply kw_remove_keeps; [ | exact Hin ]. intros ->. apply Hnot. now left.
    + intros Hc. apply Hnot. now right.
Qed.

Lemma pop_all_drops (names : list string) :
  forall kwargs,
    NoDup (map fst kwargs) ->
    NoDup (map fst (pop_all names kwargs)) /\
    forall k, In k (map fst (pop_all names kwargs)) -> In k (map fst kwargs) /\ ~ In k names.
Proof.
  induction names as [| n names IH]; intros kw Hnd; simpl.
  - split; [ exact Hnd | tauto ].
  - destruct (kw_remove_drops kw n Hnd) as (H1 & H2 & H3).
    destruct (IH _ H2) as [Hnd' Hk].
    split; [ exact Hnd' | ].
    intros k Hin. destruct (Hk k Hin) as [Ha Hb].
    split; [ now apply H3 | ].
    intros [-> | Hc]; [ contradiction | contradiction ].
Qed.

Lemma pop_all_app (a b : list string) (kwargs : kwargs_t) :
  pop_all (a ++ b) kwargs = pop_all b (pop_all a kwargs).
Proof. unfold pop_all. apply fold_left_app. Qed.

(** ** Where [InvalidArgument] can come from *)

Lemma benign_OK {A : Type} (a : A) : benign (OK a).
Proof. intros msg; discriminate. Qed.

Lemma benign_bind {A B : Type} (m : M A) (k : A -> M B) :
  benign m -> (forall a, benign (k a)) -> benign (bind m k).
Proof.
  intros Hm Hk msg. destruct m as [a | e]; simpl.
  - apply Hk.
  - intros Hc. apply (Hm msg). inversion Hc. reflexivity.
Qed.

Lemma benign_mapM {A B : Type} (f : A -> M B) (l : list A) :
  (forall a, benign (f a)) -> benign (mapM f l).
Proof.
  intros Hf. induction l as [| a l IH]; simpl.
  - apply benign_OK.
  - apply benign_bind; [ apply Hf | intros b ].
    apply benign_bind; [ exact IH | intros; apply benign_OK ].
Qed.

Lemma benign_catch {A : Type} (m : M A) (handled : exn -> bool) (h : M A) :
  benign m -> benign h -> benign (catch m handled h).
Proof.
  intros Hm Hh msg. destruct m as [a | e]; simpl; [ discriminate | ].
  destruct (handled e); [ apply Hh | apply Hm ].
Qed.

Ltac benign_step :=
  match goal with
  | |- benign (OK _) => apply benign_OK
  | |- benign (Raise _) => intros ?; discriminate
  | |- benign (bind _ _) => apply benign_bind; [ | intros ? ]
  | |- benign (catch _ _ _) => apply benign_catch
  | |- benign (mapM _ _) => apply benign_mapM; intros ?
  | |- benign (if ?b then _ else _) => destruct b
  | |- benign (match ?x with _ => _ end) => destruct x
  end.

Ltac benign_auto := repeat benign_step.

Lemma benign_py_arith op a b : benign (py_arith op a b).
Proof. unfold py_arith. benign_auto. Qed.

Lemma benign_py_max a b : benign (py_max a b).
Proof. unfold py_max, py_gt. benign_auto. Qed.

Lemma benign_reduce_max (l : list pyobj) : benign (reduce py_max l).
Proof.
  unfold reduce. destruct l as [| x l]; [ benign_auto | ].
  assert (H : forall acc, benign acc ->
            benign (fold_left (fun acc y => a <- acc ;; py_max a y) l acc)).
  { induction l as [| y l IH]; simpl; intros acc Hacc; [ exact Hacc | ].
    apply IH. apply benign_bind; [ exact Hacc | intros; apply benign_py_max ]. }
  apply H, benign_OK.
Qed.

Lemma benign_known_lookup known o : benign (known_lookup known o).
Proof. unfold known_lookup. benign_auto. Qed.

Lemma benign_find_argument_by_name n h : benign (find_argument_by_name n h).
Proof. unfold find_argument_by_name. benign_auto. Qed.

Lemma benign_runtime_dim_extent d values : benign (runtime_dim_extent d values).
Proof.
  unfold runtime_dim_extent, py_sub.
  benign_auto; auto using benign_find_argument_by_name, benign_py_arith.
Qed.

Lemma benign_derive_dle_argument_value blocked known a :
  benign (derive_dle_argument_value blocked known a).
Proof.
  unfold derive_dle_argument_value, call_sizing.
  destruct a; try (intros ?; discriminate).
  apply benign_bind; [ apply benign_runtime_dim_extent | intros d ].
  benign_auto.
Qed.

Lemma benign_late_evaluate unknown consumer known partial :
  benign (late_evaluate unknown consumer known partial).
Proof.
  unfold late_evaluate.
  apply benign_bind.
  - apply benign_catch; [ | apply benign_OK ].
    apply benign_bind; [ | intros; apply benign_OK ].
    apply benign_mapM. intros; apply benign_known_lookup.
  - intros known'. destruct partial; try (intros ?; discriminate).
    apply benign_reduce_max.
Qed.

Lemma benign_call_function f consumer known param :
  benign (call_function f consumer known param).
Proof.
  destruct f; simpl.
  - apply benign_derive_dle_argument_value.
  - apply benign_late_evaluate.
  - intros ?; discriminate.
Qed.

Lemma benign_evaluate v known : benign (evaluate v known).
Proof.
  destruct v; simpl; try (intros ?; discriminate).
  apply benign_call_function.
Qed.

Lemma benign_reconcile o known candidates : benign (reconcile o known candidates).
Proof.
  unfold reconcile.
  match goal with |- benign (match ?l with _ => _ end) => destruct l as [| v [| w l']] end;
    try apply benign_OK.
  match goal with |- benign (if ?b then _ else _) => destruct b end;
    [ apply benign_reduce_max | apply benign_OK ].
Qed.

Lemma benign_tuple_index s p : benign (tuple_index s p).
Proof. unfold tuple_index. benign_auto. Qed.

Lemma benign_obj_shape o : benign (obj_shape o).
Proof. unfold obj_shape. benign_auto. Qed.

Lemma benign_visit :
  forall (o : pyobj) consumer known param, benign (visit consumer known o param).
Proof.
  fix IH 1.
  intros o consumer known param.
  destruct o as [d | n dt idx data ch | n dt data | n dt v | n dt | d | a | l | f
                 | dep | nd | c ev ex ];
    cbn [visit]; try apply benign_OK.
  - destruct (is_TensorArgument consumer); [ apply benign_OK | intros ?; discriminate ].
  - apply benign_call_function.
  - destruct dep as [ty obj p]. destruct param; [ intros ?; discriminate | apply IH ].
  - destruct nd as [uid provider deps | | uid name deps dt | ]; try apply benign_OK.
    + destruct (String.eqb (node_name consumer) (start_name provider));
        [ apply benign_OK | ].
      destruct deps as [l |]; [ | intros ?; discriminate ].
      generalize (DimensionParameter uid provider (Some l)) as this. intros this.
      apply benign_bind; [ | intros; apply benign_reconcile ].
      revert l. fix IHl 1. intros l.
      destruct l as [| [ty obj p] l']; [ apply benign_OK | ].
      destruct ty.
      * apply benign_bind; [ apply IH | intros v ].
        apply benign_bind; [ apply IHl | intros; apply benign_OK ].
      * apply IHl.
    + destruct param as [p |]; [ | intros ?; discriminate ].
      destruct (is_DimensionParameter consumer); [ | intros ?; discriminate ].
      apply benign_bind; [ apply benign_known_lookup | intros v ].
      apply benign_bind; [ apply benign_obj_shape | intros s ].
      apply benign_tuple_index.
Qed.

Lemma benign_get_value consumer provider known : benign (get_value consumer provider known).
Proof. apply benign_visit. Qed.

Lemma benign_seed_arguments (args : list node) :
  forall kwargs values, benign (seed_arguments args kwargs values).
Proof.
  induction args as [| i args IH]; intros kw vals; simpl.
  - apply benign_OK.
  - destruct (kwargs_pop kw (node_name i) None_).
    apply benign_bind; [ apply benign_get_value | intros; apply IH ].
Qed.

Lemma benign_propagate (args : list node) :
  forall dvalues values, benign (propagate args dvalues values).
Proof.
  induction args as [| i args IH]; intros dv vals; simpl.
  - apply benign_OK.
  - apply benign_bind; [ unfold values_get; benign_auto | intros cur ].
    destruct (is_None cur); [ | apply IH ].
    apply benign_bind; [ unfold gets_value_from; benign_auto | intros gvf_ ].
    apply benign_bind; [ apply benign_mapM; intros; apply benign_get_value | intros pv ].
    destruct (Nat.ltb 0 (List.length pv)); [ | intros ?; discriminate ].
    apply benign_bind; [ | intros; apply IH ].
    destruct pv as [| v [| w pv']]; intros ?; discriminate.
Qed.

Lemma benign_settle (keys : list node) :
  forall values, benign (settle keys values).
Proof.
  induction keys as [| k keys IH]; intros vals; simpl.
  - apply benign_OK.
  - apply benign_bind; [ unfold values_get; benign_auto | intros v ].
    destruct (is_Unevaluated v); [ | apply IH ].
    apply benign_bind; [ apply benign_evaluate | intros; apply IH ].
Qed.

(** ** Keys through the preparation of the keyword arguments *)

Lemma _offset_adjust_keys (self : ArgumentEngine) (kwargs : kwargs_t) :
  forall kwargs', _offset_adjust self kwargs = OK kwargs' -> map fst kwargs' = map fst kwargs.
Proof.
  unfold _offset_adjust.
  induction kwargs as [| [k v] kw IH]; intros kw' H; cbn [mapM fst snd] in H.
  - now inversion H.
  - match type of H with
    | context [mapM ?f kw] => destruct (mapM f kw) as [r |] eqn:Hr
    end.
    + destruct (od_get String.eqb (offsets self) k).
      * destruct (py_add v (int_ z)); cbn [bind] in H; [ | discriminate ].
        inversion H; subst. simpl. f_equal. now apply IH.
      * cbn [bind] in H. inversion H; subst. simpl. f_equal. now apply IH.
    + destruct (od_get String.eqb (offsets self) k).
      * destruct (py_add v (int_ z)); cbn [bind] in H; discriminate.
      * cbn [bind] in H. discriminate.
Qed.

Lemma kw_set_keys_present (d : kwargs_t) (k : string) (v w : pyobj) :
  od_get String.eqb d k = Some w ->
  map fst (od_set String.eqb d k v) = map fst d.
Proof. exact (od_set_keys_present (fun s : string => s) String.eqb d k v w). Qed.

Lemma kw_set_absent (d : kwargs_t) (k : string) (v : pyobj) :
  od_get String.eqb d k = None -> od_set String.eqb d k v = (d ++ [(k, v)])%list.
Proof. exact (od_set_absent (fun s : string => s) String.eqb d k v). Qed.

Lemma kw_get_None_iff {V : Type} (d : list (string * V)) (k : string) :
  od_get String.eqb d k = None <-> ~ In k (map fst d).
Proof. exact (od_get_None_iff (fun s : string => s) String.eqb String.eqb_eq d k). Qed.

Lemma kw_set_keys (d : kwargs_t) (k : string) (v : pyobj) :
  incl (map fst d) (map fst (od_set String.eqb d k v)) /\
  (NoDup (map fst d) -> NoDup (map fst (od_set String.eqb d k v))).
Proof.
  destruct (od_get String.eqb d k) as [w |] eqn:E.
  - rewrite (kw_set_keys_present d k v w E).
    split; [ apply incl_refl | auto ].
  - rewrite (kw_set_absent d k v E).
    rewrite map_app. simpl. split.
    + apply incl_appl, incl_refl.
    + intros Hnd.
      apply kw_get_None_iff in E.
      apply NoDup_app; [ exact Hnd | repeat constructor; auto | ].
      intros a Ha [<- | []]. contradiction.
Qed.

Lemma od_update_keys (new d : kwargs_t) :
  incl (map fst d) (map fst (od_update String.eqb d new)) /\
  (NoDup (map fst d) -> NoDup (map fst (od_update String.eqb d new))).
Proof.
  unfold od_update. revert d.
  induction new as [| [k v] new IH]; intros d; simpl.
  - split; [ apply incl_refl | auto ].
  - destruct (kw_set_keys d k v) as [Hi Hn].
    destruct (IH (od_set String.eqb d k v)) as [Hi' Hn'].
    split; [ eapply incl_tran; eauto | auto ].
Qed.

Lemma prepare_kwargs_keys (self : ArgumentEngine) (kwargs kwargs2 : kwargs_t) :
  prepare_kwargs self kwargs = OK kwargs2 ->
  incl (map fst kwargs) (map fst kwargs2) /\
  (NoDup (map fst kwargs) -> NoDup (map fst kwargs2)).
Proof.
  unfold prepare_kwargs, _extract_children_of_composites.
  destruct (_offset_adjust self kwargs) as [kw1 |] eqn:H1; cbn [bind]; [ | discriminate ].
  destruct (collect_children self kw1 []) as [np |]; cbn [bind]; [ | discriminate ].
  intros H; inversion H; subst.
  apply _offset_adjust_keys in H1. rewrite <- H1.
  apply od_update_keys.
Qed.

Lemma without_autotune_keys (kwargs : kwargs_t) :
  (forall k, In k (map fst kwargs) -> k <> "autotune" ->
             In k (map fst (without_autotune kwargs))) /\
  (NoDup (map fst kwargs) -> NoDup (map fst (without_autotune kwargs))).
Proof.
  unfold without_autotune. rewrite kwargs_pop_snd. split.
  - intros k Hin Hne. now apply kw_remove_keeps.
  - intros Hnd. now apply kw_remove_drops.
Qed.

(** ** Unknown keyword arguments *)

Lemma _derive_values_cases (self : ArgumentEngine) (kwargs : kwargs_t) :
  (exists e, seed_arguments (arguments self) kwargs [] = Raise e /\
             _derive_values self kwargs = Raise e) \/
  (exists values,
     seed_arguments (arguments self) kwargs [] =
       OK (values, pop_all (map node_name (arguments self)) kwargs) /\
     let rest := pop_all (map node_name (arguments self) ++ map node_name (dims self)) kwargs in
     _derive_values self kwargs =
       if Nat.ltb 0 (List.length rest)
       then Raise (InvalidArgument (unknown_arguments_message rest))
       else values' <- propagate (arguments self)
                         (fst (seed_dimensions (dims self)
                                 (pop_all (map node_name (arguments self)) kwargs) []))
                         values ;;
            settle (map fst values') values').
Proof.
  unfold _derive_values.
  destruct (seed_arguments (arguments self) kwargs []) as [[values kw1] | e] eqn:Hs.
  - right. exists values.
    pose proof (seed_arguments_kwargs _ _ _ _ _ Hs) as ->.
    split; [ reflexivity | ].
    cbn [bind]. rewrite pop_all_app.
    pose proof (seed_dimensions_kwargs (dims self)
                  (pop_all (map node_name (arguments self)) kwargs) []) as Hd.
    destruct (seed_dimensions (dims self)
                (pop_all (map node_name (arguments self)) kwargs) []) as [dv kw2].
    simpl in Hd. subst kw2. reflexivity.
  - left. exists e. split; reflexivity.
Qed.

Lemma not_declared_not_popped (self : ArgumentEngine) (k : string) :
  ~ declared self k ->
  ~ In k (map node_name (arguments self) ++ map node_name (dims self))%list.
Proof. unfold declared. intros H Hin. apply in_app_or in Hin. tauto. Qed.

Lemma _derive_values_unknown (self : ArgumentEngine) (kwargs : kwargs_t) (k : string) :
  In k (map fst kwargs) -> ~ declared self k ->
  (exists e, _derive_values self kwargs = Raise e) /\
  (forall seeded, seed_arguments (arguments self) kwargs [] = OK seeded ->
     exists rest,
       _derive_values self kwargs = Raise (InvalidArgument (unknown_arguments_message rest)) /\
       In k (map fst rest)).
Proof.
  intros Hin Hnd.
  pose proof (pop_all_keeps _ kwargs k Hin (not_declared_not_popped self k Hnd)) as Hk.
  destruct (_derive_values_cases self kwargs) as [(e & Hs & Hd) | (values & Hs & Hd)].
  - split; [ eauto | ]. intros seeded Hc. congruence.
  - cbv zeta in Hd.
    destruct (pop_all (map node_name (arguments self) ++ map node_name (dims self)) kwargs)
      as [| kv rest] eqn:Hr; [ destruct Hk | ].
    simpl in Hd. split; [ eauto | ].
    intros seeded _. exists (kv :: rest). split; [ exact Hd | exact Hk ].
Qed.

Lemma _derive_values_all_declared (self : ArgumentEngine) (kwargs : kwargs_t) :
  NoDup (map fst kwargs) ->
  (forall k, In k (map fst kwargs) -> declared self k) ->
  benign (_derive_values self kwargs).
Proof.
  intros Hnd Hall.
  destruct (_derive_values_cases self kwargs) as [(e & Hs & Hd) | (values & Hs & Hd)].
  - intros msg Hc. rewrite Hd in Hc. inversion Hc; subst.
    exact (benign_seed_arguments _ _ _ msg Hs).
  - cbv zeta in Hd.
    destruct (pop_all_drops (map node_name (arguments self) ++ map node_name (dims self))
                kwargs Hnd) as [_ Hk].
    destruct (pop_all (map node_name (arguments self) ++ map node_name (dims self)) kwargs)
      as [| [k v] rest] eqn:Hr.
    + rewrite Hd. simpl.
      apply benign_bind; [ apply benign_propagate | intros; apply benign_settle ].
    + exfalso. destruct (Hk k (or_introl eq_refl)) as [Hin Hnot].
      apply Hnot. destruct (Hall k Hin); apply in_or_app; auto.
Qed.

Lemma _dle_arguments_loop_raise (l : list dle_argument) :
  forall dim_sizes acc at_ log e,
    _dle_arguments_loop l dim_sizes acc at_ = (log, Raise e) ->
    e = InvalidArgument "Unknown dimension size".
Proof.
  induction l as [| i l IH]; intros ds acc at_ log e H; simpl in H.
  - discriminate.
  - destruct (is_PNone _); [ now inversion H | ].
    destruct (dle_value i) as [[z | f] |]; simpl in H.
    + destruct (Z.eqb z 0); simpl in H; eapply IH; eauto.
    + eapply IH; eauto.
    + eapply IH; eauto.
Qed.

Lemma benign_parameters_named k ps : benign (parameters_named k ps).
Proof.
  induction ps as [| i ps IH]; simpl; [ apply benign_OK | ].
  apply benign_bind; [ unfold obj_name; benign_auto | intros n ].
  apply benign_bind; [ exact IH | intros; apply benign_OK ].
Qed.

Lemma benign_collect_children (self : ArgumentEngine) (items : kwargs_t) :
  forall new_params, benign (collect_children self items new_params).
Proof.
  induction items as [| [k v] items IH]; intros np; simpl; [ apply benign_OK | ].
  destruct (is_CompositeFunction v); [ | apply IH ].
  apply benign_bind; [ apply benign_parameters_named | intros l ].
  destruct l as [| p [| q l']]; try (intros ?; discriminate).
  apply benign_bind; [ unfold obj_children; benign_auto | intros oc ].
  apply benign_bind; [ unfold obj_children; benign_auto | intros nc ].
  apply benign_bind; [ | intros; apply IH ].
  generalize (OK np) as acc, (benign_OK np).
  induction (combine oc nc) as [| pr prs IHp]; intros acc Hacc; simpl; [ exact Hacc | ].
  apply IHp. apply benign_bind; [ exact Hacc | intros d ].
  apply benign_bind; [ unfold obj_name; benign_auto | intros; apply benign_OK ].
Qed.

Lemma benign_prepare_kwargs (self : ArgumentEngine) (kwargs : kwargs_t) :
  benign (prepare_kwargs self kwargs).
Proof.
  unfold prepare_kwargs, _extract_children_of_composites, _offset_adjust, py_add.
  apply benign_bind.
  - apply benign_mapM. intros [k v]. simpl.
    destruct (od_get String.eqb (offsets self) k); [ | apply benign_OK ].
    apply benign_bind; [ apply benign_py_arith | intros; apply benign_OK ].
  - intros kw1. apply benign_bind; [ apply benign_collect_children | intros; apply benign_OK ].
Qed.

Lemma benign_dim_sizes_of (self : ArgumentEngine) (values : values_t) :
  benign (dim_sizes_of self values).
Proof.
  unfold dim_sizes_of.
  apply benign_bind; [ | intros; apply benign_OK ].
  apply benign_mapM. intros d.
  apply benign_bind; [ apply benign_runtime_dim_extent | intros; apply benign_OK ].
Qed.

Lemma benign__verify (values : values_t) : benign (_verify values).
Proof.
  unfold _verify.
  destruct (_verify_loop_true_or_TypeError (map fst values)) as [-> | ->];
    intros ?; discriminate.
Qed.

Lemma handle_after_derive_stage (self : ArgumentEngine) (kwargs : kwargs_t) values dim_sizes :
  derive_stage self (without_autotune kwargs) = OK (values, dim_sizes) ->
  forall rest,
    snd (handle self kwargs) <> Raise (InvalidArgument (unknown_arguments_message rest)).
Proof.
  intros Hd rest. rewrite handle_unfold, Hd.
  destruct (_dle_arguments self dim_sizes) as [log [[dle at_] | e]] eqn:H; cbn [snd].
  - apply benign_bind; [ apply benign__verify | intros ok ].
    destruct ok; [ | intros ?; discriminate ].
    apply benign_bind; [ | intros; apply benign_OK ].
    unfold py_and. apply benign_bind; [ unfold truthy; benign_auto | intros; apply benign_OK ].
  - apply _dle_arguments_loop_raise in H. subst e.
    intros Hc. inversion Hc.
Qed.

Lemma handle_derive_stage_raise (self : ArgumentEngine) (kwargs : kwargs_t) e :
  derive_stage self (without_autotune kwargs) = Raise e ->
  handle self kwargs = ([], Raise e).
Proof. intros H. now rewrite handle_unfold, H. Qed.

(** C5 (as amended): a key of the input, other than the autotune flag,
    that is the name of no argument and of no dimension parameter makes
    [handle] fail; the failure is the unknown-arguments [InvalidArgument],
    listing that key, whenever the offset adjustment, the flattening of
    composites and the seeding of the supplied values went through.
    Conversely, when every key left after flattening is declared, [handle]
    does not end with the unknown-arguments error. *)
Theorem C5_unknown_arguments (self : ArgumentEngine) (kwargs : kwargs_t) :
  (forall k, In k (map fst kwargs) -> k <> "autotune" -> ~ declared self k ->
     (exists e, snd (handle self kwargs) = Raise e) /\
     (forall kwargs2 seeded,
        prepare_kwargs self (without_autotune kwargs) = OK kwargs2 ->
        seed_arguments (arguments self) kwargs2 [] = OK seeded ->
        exists rest,
          handle self kwargs =
            ([], Raise (InvalidArgument (unknown_arguments_message rest))) /\
          In k (map fst rest))) /\
  (NoDup (map fst kwargs) ->
   (forall kwargs2, prepare_kwargs self (without_autotune kwargs) = OK kwargs2 ->
                    forall k, In k (map fst kwargs2) -> declared self k) ->
   forall rest,
     snd (handle self kwargs) <> Raise (InvalidArgument (unknown_arguments_message rest))).
Proof.
  split.
  - intros k Hin Hne Hnd.
    destruct (prepare_kwargs self (without_autotune kwargs)) as [kw2 | e] eqn:Hp.
    + assert (Hk2 : In k (map fst kw2)).
      { apply (proj1 (prepare_kwargs_keys _ _ _ Hp)).
        now apply without_autotune_keys. }
      destruct (_derive_values_unknown self kw2 k Hk2 Hnd) as [(e & He) Hseed].
      split.
      * exists e. rewrite (handle_derive_stage_raise self kwargs e); [ reflexivity | ].
        unfold derive_stage. rewrite Hp. cbn [bind]. now rewrite He.
      * intros kwargs2 seeded Heq Hs. inversion Heq; subst kwargs2.
        destruct (Hseed seeded Hs) as (rest & Hd & Hr).
        exists rest. split; [ | exact Hr ].
        apply handle_derive_stage_raise.
        unfold derive_stage. rewrite Hp. cbn [bind]. now rewrite Hd.
    + split.
      * exists e. rewrite (handle_derive_stage_raise self kwargs e); [ reflexivity | ].
        unfold derive_stage. now rewrite Hp.
      * intros kwargs2 seeded Heq. discriminate.
  - intros Hnd Hall rest.
    destruct (derive_stage self (without_autotune kwargs)) as [[values ds] | e] eqn:Hd.
    + eapply handle_after_derive_stage; eauto.
    + rewrite (handle_derive_stage_raise _ _ _ Hd). cbn [snd].
      intros Hc. inversion Hc; subst e. revert Hd.
      unfold derive_stage.
      destruct (prepare_kwargs self (without_autotune kwargs)) as [kw2 | e] eqn:Hp;
        cbn [bind].
      * assert (Hb : benign (_derive_values self kw2)).
        { apply _derive_values_all_declared.
          - apply (proj2 (prepare_kwargs_keys _ _ _ Hp)).
            now apply without_autotune_keys.
          - now apply Hall. }
        destruct (_derive_values self kw2) as [values | e] eqn:Hv; cbn [bind].
        -- destruct (dim_sizes_of self values) as [ds | e] eqn:Hs; cbn [bind];
             [ discriminate | ].
           intros Hc'. inversion Hc'; subst e.
           exact (benign_dim_sizes_of self values _ Hs).
        -- intros Hc'. inversion Hc'; subst e. exact (Hb _ eq_refl).
      * intros Hc'. inversion Hc'; subst e.
        exact (benign_prepare_kwargs self _ _ Hp).
Qed.

(** C5, at the engine with a halo on [x]: an input with the undeclared key
    [bogus], and an input whose only key is the declared [x_e]. *)
Lemma C5_unknown_arguments_witness :
  (exists rest,
     handle (Examples.the Examples.empty_engine (Examples.with_halo 10))
            [("x_e", int_ 7); ("bogus", int_ 1)] =
       ([], Raise (InvalidArgument (unknown_arguments_message rest))) /\
     In "bogus" (map fst rest)) /\
  (forall rest,
     snd (handle (Examples.the Examples.empty_engine (Examples.with_halo 10))
                 [("x_e", int_ 7)])
       <> Raise (InvalidArgument (unknown_arguments_message rest))).
Proof.
  split.
  - eapply (proj1 (C5_unknown_arguments
                     (Examples.the Examples.empty_engine (Examples.with_halo 10))
                     [("x_e", int_ 7); ("bogus", int_ 1)]) "bogus").
    + simpl. auto.
    + discriminate.
    + vm_compute. intros [H | H]; repeat (destruct H as [H | H]; try discriminate); exact H.
    + vm_compute. reflexivity.
    + vm_compute. reflexivity.
  - apply (proj2 (C5_unknown_arguments
                    (Examples.the Examples.empty_engine (Examples.with_halo 10))
                    [("x_e", int_ 7)])).
    + repeat constructor. simpl. tauto.
    + intros kwargs2 H. vm_compute in H. inversion H; subst kwargs2.
      intros k [<- | []]. left. vm_compute. tauto.
Defined.

(** C5 as stated fails when an earlier step fails first: with a halo on
    [x], the input [x_e=None, bogus=1] has the undeclared key [bogus], and
    [handle] ends with the [TypeError] of adding the offset to [None]. *)
Lemma C5_offset_error_comes_first :
  exists e,
    Examples.with_halo 10 = OK e /\
    ~ declared e "bogus" /\
    handle e [("x_e", None_); ("bogus", int_ 1)] = ([], Raise TypeError).
Proof.
  eexists. split; [ reflexivity | split ].
  - vm_compute. intros [H | H]; repeat (destruct H as [H | H]; try discriminate); exact H.
  - vm_compute. reflexivity.
Qed.

(** ** The values after seeding *)

Lemma Forall2_impl_In {A B : Type} (P Q : A -> B -> Prop) (l : list A) (r : list B) :
  Forall2 P l r -> (forall a b, In a l -> P a b -> Q a b) -> Forall2 Q l r.
Proof.
  induction 1 as [| a b l r Hab _ IH]; intros Himp; constructor.
  - apply Himp; [ now left | exact Hab ].
  - apply IH. intros a' b' Hin. apply Himp. now right.
Qed.

Lemma given_remove_other (kwargs : kwargs_t) (n : string) (i : node) :
  n <> node_name i -> given (od_remove String.eqb kwargs n) i = given kwargs i.
Proof. intros H. unfold given. now rewrite kw_get_remove_other. Qed.

Lemma seed_arguments_values (args : list node) :
  forall kwargs values values' kwargs',
    NoDup (map node_uid args) -> NoDup (map node_name args) ->
    (forall a, In a args -> od_get node_eqb values a = None) ->
    seed_arguments args kwargs values = OK (values', kwargs') ->
    exists vs,
      values' = (values ++ combine args vs)%list /\
      List.length vs = List.length args /\
      Forall2 (fun i v => exists known, get_value i (given kwargs i) known = OK v) args vs.
Proof.
  induction args as [| a args IH]; intros kw vals vals' kw' Hu Hn Hfresh H.
  - simpl in H. inversion H; subst. exists []. simpl. rewrite app_nil_r.
    repeat split; constructor.
  - cbn [seed_arguments] in H.
    pose proof (kwargs_pop_fst kw (node_name a) None_) as Hg.
    pose proof (kwargs_pop_snd kw (node_name a) None_) as Hr.
    destruct (kwargs_pop kw (node_name a) None_) as [g kw1]. cbn [fst snd] in Hg, Hr.
    fold (given kw a) in Hg. subst g kw1.
    destruct (get_value a (given kw a) vals) as [v | e] eqn:Hv; cbn [bind] in H;
      [ | discriminate ].
    rewrite values_set_absent in H by (apply Hfresh; now left).
    inversion Hu as [| ? ? Hu1 Hu2]; subst. inversion Hn as [| ? ? Hn1 Hn2]; subst.
    apply IH in H; auto.
    + destruct H as (vs & -> & Hlen & HF).
      exists (v :: vs). simpl. rewrite <- app_assoc. simpl.
      split; [ reflexivity | split; [ now rewrite Hlen | ] ].
      constructor; [ eauto | ].
      eapply Forall2_impl_In; [ exact HF | ].
      intros i w Hin (known & Hk). exists known.
      rewrite given_remove_other in Hk; [ exact Hk | ].
      intros Heq. apply Hn1. rewrite Heq. now apply in_map.
    + intros a' Hin.
      rewrite <- (values_set_absent vals a v) by (apply Hfresh; now left).
      rewrite values_get_set_other.
      * apply Hfresh. now right.
      * intros Heq. apply Hu1. rewrite Heq. now apply in_map.
Qed.

Lemma get_value_data (i : node) (d : pyval) (known : values_t) :
  get_value i (PyData d) known = OK (PyData d).
Proof. reflexivity. Qed.

(** ** Values through the propagation and settling loops *)

Lemma propagate_spec (args : list node) :
  forall dvalues values values',
    propagate args dvalues values = OK values' ->
    map fst values' = map fst values /\
    (forall k v, od_get node_eqb values k = Some v -> is_None v = false ->
                 od_get node_eqb values' k = Some v).
Proof.
  induction args as [| i args IH]; intros dv vals vals' H; cbn [propagate] in H.
  - inversion H; subst. auto.
  - unfold values_get in H.
    destruct (od_get node_eqb vals i) as [cur |] eqn:Hcur; cbn [bind] in H;
      [ | discriminate ].
    destruct (is_None cur) eqn:Hnone; [ | eapply IH; eassumption ].
    destruct (gets_value_from i) as [gvf_ | e]; cbn [bind] in H; [ | discriminate ].
    match type of H with
    | context [mapM ?f gvf_] => destruct (mapM f gvf_) as [pv | e]
    end; cbn [bind] in H; [ | discriminate ].
    destruct (Nat.ltb 0 (List.length pv)); [ | discriminate ].
    destruct pv as [| v [| w pv']]; cbn [bind reduce_without_function] in H;
      try discriminate.
    apply IH in H as [Hk Hs]. split.
    + rewrite Hk. eapply values_set_keys; eauto.
    + intros k u Hget Hu. apply Hs; [ | exact Hu ].
      destruct (Nat.eq_dec (node_uid i) (node_uid k)) as [E | E].
      * rewrite (values_get_same_uid vals i k E) in Hcur. congruence.
      * now rewrite values_get_set_other.
Qed.

Lemma settle_spec (keys : list node) :
  forall values values',
    settle keys values = OK values' ->
    map fst values' = map fst values /\
    (forall k v, od_get node_eqb values k = Some v -> is_Unevaluated v = false ->
                 od_get node_eqb values' k = Some v).
Proof.
  induction keys as [| i keys IH]; intros vals vals' H; cbn [settle] in H.
  - inversion H; subst. auto.
  - unfold values_get in H.
    destruct (od_get node_eqb vals i) as [cur |] eqn:Hcur; cbn [bind] in H;
      [ | discriminate ].
    destruct (is_Unevaluated cur) eqn:Hun; [ | now apply IH ].
    destruct (evaluate cur vals) as [r | e]; cbn [bind] in H; [ | discriminate ].
    apply IH in H as [Hk Hs]. split.
    + rewrite Hk. eapply values_set_keys; eauto.
    + intros k u Hget Hu. apply Hs; [ | exact Hu ].
      destruct (Nat.eq_dec (node_uid i) (node_uid k)) as [E | E].
      * rewrite (values_get_same_uid vals i k E) in Hcur. congruence.
      * now rewrite values_get_set_other.
Qed.

Lemma map_fst_combine {A B : Type} (l : list A) :
  forall r : list B, List.length r = List.length l -> map fst (combine l r) = l.
Proof.
  induction l as [| a l IH]; intros [| b r] H; simpl in *; try discriminate; auto.
  f_equal. apply IH. lia.
Qed.

Lemma values_get_combine (P : node -> pyobj -> Prop) (args : list node) (vs : list pyobj) :
  NoDup (map node_uid args) -> Forall2 P args vs ->
  forall i, In i args -> exists v, od_get node_eqb (combine args vs) i = Some v /\ P i v.
Proof.
  intros Hu HF. induction HF as [| a v args vs Hav _ IH]; intros i Hin.
  - destruct Hin.
  - inversion Hu as [| ? ? Hu1 Hu2]; subst. simpl.
    destruct Hin as [-> | Hin].
    + exists v. unfold node_eqb. rewrite Nat.eqb_refl. auto.
    + assert (Hne : node_eqb a i = false).
      { unfold node_eqb. apply Nat.eqb_neq. intros Heq.
        apply Hu1. rewrite Heq. now apply in_map. }
      rewrite Hne. now apply IH.
Qed.

(** The values computed by [_derive_values] are keyed by the arguments, in
    their order. *)
Lemma _derive_values_keys (self : ArgumentEngine) (kwargs : kwargs_t) (values : values_t) :
  distinct_arguments self ->
  _derive_values self kwargs = OK values ->
  map fst values = arguments self.
Proof.
  intros [Hu Hn] H.
  destruct (_derive_values_cases self kwargs) as [(e & Hs & Hd) | (vals0 & Hs & Hd)];
    [ congruence | ].
  cbv zeta in Hd. rewrite Hd in H. clear Hd.
  destruct (Nat.ltb 0 _); [ discriminate | ].
  apply seed_arguments_values in Hs; auto.
  destruct Hs as (vs & -> & Hlen & _). simpl in H.
  match type of H with
  | context [propagate ?a ?d ?v] => destruct (propagate a d v) as [vals1 | e] eqn:Hp
  end; cbn [bind] in H; [ | discriminate ].
  apply propagate_spec in Hp as [Hk1 _].
  apply settle_spec in H as [Hk2 _].
  rewrite Hk2, Hk1. now apply map_fst_combine.
Qed.

(** A supplied plain value that is not [None] is the value of its
    argument. *)
Lemma _derive_values_supplied (self : ArgumentEngine) (kwargs : kwargs_t)
    (values : values_t) (i : node) (d : pyval) :
  distinct_arguments self ->
  _derive_values self kwargs = OK values ->
  In i (arguments self) ->
  od_get String.eqb kwargs (node_name i) = Some (PyData d) -> is_PNone d = false ->
  od_get node_eqb values i = Some (PyData d).
Proof.
  intros [Hu Hn] H Hin Hget Hd0.
  destruct (_derive_values_cases self kwargs) as [(e & Hs & Hd) | (vals0 & Hs & Hd)];
    [ congruence | ].
  cbv zeta in Hd. rewrite Hd in H. clear Hd.
  destruct (Nat.ltb 0 _); [ discriminate | ].
  apply seed_arguments_values in Hs; auto.
  destruct Hs as (vs & -> & Hlen & HF). simpl in H.
  destruct (values_get_combine _ _ _ Hu HF i Hin) as (v & Hv & known & Hk).
  unfold given in Hk. rewrite Hget in Hk. rewrite get_value_data in Hk.
  inversion Hk; subst v.
  match type of H with
  | context [propagate ?a ?dv ?v] => destruct (propagate a dv v) as [vals1 | e] eqn:Hp
  end; cbn [bind] in H; [ | discriminate ].
  apply propagate_spec in Hp as [_ Hs1].
  apply settle_spec in H as [_ Hs2].
  apply Hs2; [ | reflexivity ].
  apply Hs1; [ exact Hv | ].
  destruct d; try reflexivity. discriminate.
Qed.

Lemma arguments_of_spec (values : values_t) :
  NoDup (map node_uid (map fst values)) ->
  NoDup (map node_name (map fst values)) ->
  map fst (arguments_of values) = map node_name (map fst values) /\
  forall i, In i (map fst values) ->
            od_get String.eqb (arguments_of values) (node_name i)
            = od_get node_eqb values i.
Proof.
  intros Hu Hn. unfold arguments_of.
  rewrite (od_of_list_NoDup (fun s : string => s) String.eqb String.eqb_eq).
  2:{ rewrite map_map. simpl. rewrite <- map_map. exact Hn. }
  split.
  - rewrite !map_map. reflexivity.
  - induction values as [| [k v] vals IH]; intros i Hin; [ destruct Hin | ].
    simpl in *. inversion Hu as [| ? ? Hu1 Hu2]; subst.
    inversion Hn as [| ? ? Hn1 Hn2]; subst.
    destruct Hin as [-> | Hin].
    + unfold node_eqb. now rewrite String.eqb_refl, Nat.eqb_refl.
    + assert (E1 : String.eqb (node_name k) (node_name i) = false).
      { apply String.eqb_neq. intros Heq. apply Hn1. rewrite Heq.
        now apply in_map. }
      assert (E2 : node_eqb k i = false).
      { unfold node_eqb. apply Nat.eqb_neq. intros Heq. apply Hu1. rewrite Heq.
        now apply in_map. }
      rewrite E1, E2. now apply IH.
Qed.

(** ** Offset adjustment *)

Lemma _offset_adjust_cons (self : ArgumentEngine) k v (kwargs kwargs' : kwargs_t) :
  _offset_adjust self ((k, v) :: kwargs) = OK kwargs' ->
  exists v' rest,
    kwargs' = (k, v') :: rest /\ _offset_adjust self kwargs = OK rest /\
    match od_get String.eqb (offsets self) k with
    | Some off => exists w, py_add v (int_ off) = OK w /\ v' = PyData w
    | None => v' = v
    end.
Proof.
  unfold _offset_adjust. cbn [mapM fst snd].
  destruct (od_get String.eqb (offsets self) k) as [off |].
  - destruct (py_add v (int_ off)) as [w | e]; cbn [bind]; [ | discriminate ].
    match goal with |- context [mapM ?f kwargs] => destruct (mapM f kwargs) as [r | e] end;
      cbn [bind]; [ | discriminate ].
    intros H; inversion H; subst. exists (PyData w), r. eauto.
  - cbn [bind].
    match goal with |- context [mapM ?f kwargs] => destruct (mapM f kwargs) as [r | e] end;
      cbn [bind]; [ | discriminate ].
    intros H; inversion H; subst. exists v, r. auto.
Qed.

(** Every entry keeps its key; its value has the offset of its key added,
    once, when the key has an offset, and is unchanged otherwise. *)
Lemma _offset_adjust_spec (self : ArgumentEngine) (kwargs : kwargs_t) :
  forall kwargs',
    _offset_adjust self kwargs = OK kwargs' ->
    Forall2 (fun e e' =>
               fst e' = fst e /\
               match od_get String.eqb (offsets self) (fst e) with
               | Some off => exists w, py_add (snd e) (int_ off) = OK w /\ snd e' = PyData w
               | None => snd e' = snd e
               end) kwargs kwargs'.
Proof.
  induction kwargs as [| [k v] kw IH]; intros kw' H.
  - inversion H. constructor.
  - apply _offset_adjust_cons in H as (v' & rest & -> & Hr & Hv).
    constructor; [ simpl; auto | now apply IH ].
Qed.

Lemma _offset_adjust_get (self : ArgumentEngine) (kwargs kwargs' : kwargs_t)
    (k : string) (v : pyobj) (off : Z) :
  _offset_adjust self kwargs = OK kwargs' ->
  od_get String.eqb kwargs k = Some v ->
  od_get String.eqb (offsets self) k = Some off ->
  exists w, py_add v (int_ off) = OK w /\ od_get String.eqb kwargs' k = Some (PyData w).
Proof.
  intros H Hget Hoff. apply _offset_adjust_spec in H.
  induction H as [| [k0 v0] [k1 v1] kw kw' [Hk Hv] _ IH]; simpl in *; [ discriminate | ].
  subst k1. destruct (String.eqb k0 k) eqn:E.
  - apply String.eqb_eq in E. subst k0. inversion Hget; subst v0.
    rewrite Hoff in Hv. destruct Hv as (w & Hw & ->). eauto.
  - now apply IH.
Qed.

Lemma _offset_adjust_no_composite (self : ArgumentEngine) (kwargs kwargs' : kwargs_t) :
  _offset_adjust self kwargs = OK kwargs' -> no_composite kwargs -> no_composite kwargs'.
Proof.
  intros H Hn. apply _offset_adjust_spec in H. unfold no_composite in *.
  induction H as [| [k0 v0] [k1 v1] kw kw' [Hk Hv] _ IH]; [ constructor | ].
  inversion Hn; subst. constructor; [ | now apply IH ].
  simpl in *. destruct (od_get String.eqb (offsets self) k0).
  - destruct Hv as (w & _ & ->). reflexivity.
  - now subst.
Qed.

Lemma collect_children_no_composite (self : ArgumentEngine) (kwargs : kwargs_t) :
  no_composite kwargs -> forall np, collect_children self kwargs np = OK np.
Proof.
  induction 1 as [| [k v] kw Hv _ IH]; intros np; simpl; [ reflexivity | ].
  simpl in Hv. rewrite Hv. apply IH.
Qed.

Lemma prepare_kwargs_no_composite (self : ArgumentEngine) (kwargs kwargs2 : kwargs_t) :
  no_composite kwargs ->
  prepare_kwargs self kwargs = OK kwargs2 ->
  _offset_adjust self kwargs = OK kwargs2.
Proof.
  intros Hn. unfold prepare_kwargs, _extract_children_of_composites.
  destruct (_offset_adjust self kwargs) as [kw1 | e] eqn:H1; cbn [bind]; [ | discriminate ].
  rewrite collect_children_no_composite by (eapply _offset_adjust_no_composite; eauto).
  cbn [bind]. unfold od_update. simpl. auto.
Qed.

Lemma od_remove_Forall {V : Type} (P : string * V -> Prop) (d : list (string * V)) k :
  Forall P d -> Forall P (od_remove String.eqb d k).
Proof.
  induction 1 as [| [k0 v0] d Hp Hd IH]; simpl; [ constructor | ].
  destruct (String.eqb k0 k); [ assumption | constructor; assumption ].
Qed.

Lemma derive_stage_inv (self : ArgumentEngine) (kwargs0 : kwargs_t) values dim_sizes :
  derive_stage self kwargs0 = OK (values, dim_sizes) ->
  exists kwargs2,
    prepare_kwargs self kwargs0 = OK kwargs2 /\
    _derive_values self kwargs2 = OK values /\
    dim_sizes_of self values = OK dim_sizes.
Proof.
  unfold derive_stage.
  destruct (prepare_kwargs self kwargs0) as [kw2 | e]; cbn [bind]; [ | discriminate ].
  destruct (_derive_values self kw2) as [vals | e] eqn:Hv; cbn [bind]; [ | discriminate ].
  destruct (dim_sizes_of self vals) as [ds | e] eqn:Hs; cbn [bind]; [ | discriminate ].
  intros H; inversion H; subst.
  exists kw2. split; [ reflexivity | split; [ exact Hv | exact Hs ] ].
Qed.

(** The mapping returned by [handle] gives, under the name of each
    argument, the value derived for it. *)
Lemma handle_result_lookup (self : ArgumentEngine) (kwargs : kwargs_t) log res flag :
  distinct_arguments self ->
  handle self kwargs = (log, OK (res, flag)) ->
  exists kwargs2 values,
    prepare_kwargs self (without_autotune kwargs) = OK kwargs2 /\
    _derive_values self kwargs2 = OK values /\
    map fst res = map node_name (arguments self) /\
    forall i, In i (arguments self) ->
              od_get String.eqb res (node_name i) = od_get node_eqb values i.
Proof.
  intros Hd H.
  apply handle_OK_inv in H as (values & ds & dle & at_ & Hs & _ & _ & _ & ->).
  apply derive_stage_inv in Hs as (kw2 & Hp & Hv & _).
  exists kw2, values. split; [ exact Hp | split; [ exact Hv | ] ].
  pose proof (_derive_values_keys self kw2 values Hd Hv) as Hk.
  destruct Hd as [Hu Hn].
  destruct (arguments_of_spec values) as [H1 H2]; rewrite ?Hk; auto.
  rewrite Hk in H1, H2. auto.
Qed.

Lemma prepare_kwargs_adjusted (self : ArgumentEngine) (kwargs kwargs2 : kwargs_t) :
  prepare_kwargs self kwargs = OK kwargs2 ->
  exists kwargs1, _offset_adjust self kwargs = OK kwargs1.
Proof.
  unfold prepare_kwargs.
  destruct (_offset_adjust self kwargs) as [kw1 | e]; cbn [bind]; [ eauto | discriminate ].
Qed.

(** C6: in a call of [handle] that returns, every keyword argument whose
    key has a precomputed offset is replaced by its value plus that offset,
    added once, and the others are left as they are; for an argument of
    that name and a supplied integer [E] (no composite among the inputs),
    the returned mapping gives [E] plus the offset.  (The offsets are those
    of [retrieve_offsets]: per dimension, the maximum absolute relative
    offset of the stencils, under the dimension's end name.) *)
Theorem C6_halo_offset_added_once (self : ArgumentEngine) (kwargs : kwargs_t)
    (i : node) (E off : Z) log res flag :
  distinct_arguments self ->
  no_composite kwargs ->
  In i (arguments self) ->
  node_name i <> "autotune" ->
  od_get String.eqb kwargs (node_name i) = Some (int_ E) ->
  od_get String.eqb (offsets self) (node_name i) = Some off ->
  handle self kwargs = (log, OK (res, flag)) ->
  (exists kwargs1,
     _offset_adjust self (without_autotune kwargs) = OK kwargs1 /\
     Forall2 (fun e e' =>
                fst e' = fst e /\
                match od_get String.eqb (offsets self) (fst e) with
                | Some o => exists w, py_add (snd e) (int_ o) = OK w /\ snd e' = PyData w
                | None => snd e' = snd e
                end) (without_autotune kwargs) kwargs1) /\
  od_get String.eqb res (node_name i) = Some (int_ (E + off)).
Proof.
  intros Hd Hnc Hin Hne Hget Hoff H.
  destruct (handle_result_lookup self kwargs log res flag Hd H)
    as (kw2 & values & Hp & Hv & _ & Hres).
  split.
  { destruct (prepare_kwargs_adjusted _ _ _ Hp) as (kw1 & H1).
    exists kw1. split; [ exact H1 | now apply _offset_adjust_spec ]. }
  rewrite (Hres i Hin).
  assert (Hnc' : no_composite (without_autotune kwargs)).
  { unfold without_autotune. rewrite kwargs_pop_snd. now apply od_remove_Forall. }
  apply (prepare_kwargs_no_composite _ _ _ Hnc') in Hp.
  assert (Hget' : od_get String.eqb (without_autotune kwargs) (node_name i) = Some (int_ E)).
  { unfold without_autotune. rewrite kwargs_pop_snd.
    rewrite kw_get_remove_other; [ exact Hget | congruence ]. }
  destruct (_offset_adjust_get _ _ _ _ _ _ Hp Hget' Hoff) as (w & Hw & Hk2).
  unfold py_add, py_arith, int_ in Hw. simpl in Hw. inversion Hw; subst w.
  eapply _derive_values_supplied; eauto.
Qed.

(** C6, at a stencil touching [x] at the offsets -1, 0 and +2 and the
    supplied end value 7: the derived [x_e] is 9. *)
Lemma C6_halo_offset_witness :
  (exists kwargs1,
     _offset_adjust (Examples.the Examples.empty_engine (Examples.with_halo 10))
                    (without_autotune [("x_e", int_ 7)]) = OK kwargs1 /\
     Forall2 (fun e e' =>
                fst e' = fst e /\
                match od_get String.eqb
                        (offsets (Examples.the Examples.empty_engine (Examples.with_halo 10)))
                        (fst e) with
                | Some o => exists w, py_add (snd e) (int_ o) = OK w /\ snd e' = PyData w
                | None => snd e' = snd e
                end) (without_autotune [("x_e", int_ 7)]) kwargs1) /\
  od_get String.eqb
    [("f", PyData (PArray [10])); ("x_size", int_ 10); ("x_s", int_ 0); ("x_e", int_ 9)]
    (node_name Examples.halo_x_e)
  = Some (int_ (7 + 2)).
Proof.
  apply (C6_halo_offset_added_once
           (Examples.the Examples.empty_engine (Examples.with_halo 10))
           [("x_e", int_ 7)] Examples.halo_x_e 7 2 []
           [("f", PyData (PArray [10])); ("x_size", int_ 10); ("x_s", int_ 0);
            ("x_e", int_ 9)]
           (PyData (PBool false))).
  - split; vm_compute; repeat constructor; simpl; intuition discriminate.
  - repeat constructor.
  - vm_compute. do 3 right. left. reflexivity.
  - discriminate.
  - reflexivity.
  - reflexivity.
  - vm_compute. reflexivity.
Defined.

(** ** The default start value *)

Lemma visit_DimensionParameter_start (consumer : node) (known : values_t) (uid : nat)
    (provider : Dimension) deps (param : option pyobj) :
  node_name consumer = start_name provider ->
  visit consumer known (PyParameter (DimensionParameter uid provider deps)) param
  = OK (int_ 0).
Proof. intros H. cbn [visit]. rewrite H. now rewrite String.eqb_refl. Qed.

(** An argument seeded with [None] whose single source resolves to [r]. *)
Lemma propagate_derives (args : list node) (i : node) (dep : dependency) (r : pyobj) :
  forall dvalues values values',
    NoDup (map node_uid args) -> In i args ->
    od_get node_eqb values i = Some None_ ->
    gets_value_from i = OK [dep] ->
    (forall known, get_value i (PyDependency dep) known = OK r) ->
    is_None r = false ->
    propagate args dvalues values = OK values' ->
    od_get node_eqb values' i = Some r.
Proof.
  induction args as [| a args IH]; intros dv vals vals' Hu Hin Hget Hg Hr Hnn H.
  - destruct Hin.
  - inversion Hu as [| ? ? Hu1 Hu2]; subst.
    cbn [propagate] in H. unfold values_get in H.
    destruct Hin as [-> | Hin].
    + rewrite Hget in H. cbn [bind is_None None_] in H.
      rewrite Hg in H. cbn [bind mapM] in H. rewrite Hr in H. cbn [bind] in H.
      simpl in H.
      apply propagate_spec in H as [_ Hs].
      apply Hs; [ apply values_get_set_same | exact Hnn ].
    + assert (Hne : node_uid a <> node_uid i).
      { intros Heq. apply Hu1. rewrite Heq. now apply in_map. }
      destruct (od_get node_eqb vals a) as [cur |]; cbn [bind] in H; [ | discriminate ].
      destruct (is_None cur); [ | eapply IH; eauto ].
      destruct (gets_value_from a) as [gvf_ | e]; cbn [bind] in H; [ | discriminate ].
      match type of H with
      | context [mapM ?f gvf_] => destruct (mapM f gvf_) as [pv | e]
      end; cbn [bind] in H; [ | discriminate ].
      destruct (Nat.ltb 0 (List.length pv)); [ | discriminate ].
      destruct pv as [| v [| w pv']]; cbn [bind reduce_without_function] in H;
        try discriminate.
      apply (IH dv (od_set node_eqb vals a v) vals'); auto.
      now rewrite values_get_set_other.
Qed.

(** C7: let [i] be an argument named with the start name of the dimension
    [p], whose single source is the DimensionParameter of [p].  The value
    resolver, asked to resolve that dimension for the consumer [i], returns
    0 whatever is known; hence, when the keyword arguments give no value
    for the start name, the mapping returned by [handle] gives 0 for it. *)
Theorem C7_start_default (self : ArgumentEngine) (kwargs : kwargs_t) (i : node)
    (u : nat) (p : Dimension) deps (prm : pyobj) log res flag :
  distinct_arguments self ->
  In i (arguments self) ->
  gets_value_from i =
    OK [Dependency gets_value_from_t (PyParameter (DimensionParameter u p deps)) prm] ->
  node_name i = start_name p ->
  (forall kwargs2, prepare_kwargs self (without_autotune kwargs) = OK kwargs2 ->
                   given kwargs2 i = None_) ->
  handle self kwargs = (log, OK (res, flag)) ->
  (forall known param,
     visit i known (PyParameter (DimensionParameter u p deps)) param = OK (int_ 0)) /\
  od_get String.eqb res (start_name p) = Some (int_ 0).
Proof.
  intros Hd Hin Hg Hname Hgiven H.
  split; [ intros; now apply visit_DimensionParameter_start | ].
  destruct (handle_result_lookup self kwargs log res flag Hd H)
    as (kw2 & values & Hp & Hv & _ & Hres).
  rewrite <- Hname, (Hres i Hin).
  specialize (Hgiven kw2 Hp).
  destruct Hd as [Hu Hn].
  destruct (_derive_values_cases self kw2) as [(e & Hs & Hd) | (vals0 & Hs & Hd)];
    [ congruence | ].
  cbv zeta in Hd. rewrite Hd in Hv. clear Hd.
  destruct (Nat.ltb 0 _); [ discriminate | ].
  apply seed_arguments_values in Hs; auto.
  destruct Hs as (vs & -> & Hlen & HF). simpl in Hv.
  destruct (values_get_combine _ _ _ Hu HF i Hin) as (v & Hget & known & Hk).
  rewrite Hgiven in Hk. unfold None_ in Hk. rewrite get_value_data in Hk.
  inversion Hk; subst v.
  match type of Hv with
  | context [propagate ?a ?dv ?v] => destruct (propagate a dv v) as [vals1 | e] eqn:Hpr
  end; cbn [bind] in Hv; [ | discriminate ].
  apply settle_spec in Hv as [_ Hs2].
  apply Hs2; [ | reflexivity ].
  eapply (propagate_derives (arguments self) i _ (int_ 0)); eauto.
  intros known'. unfold get_value. cbn [visit].
  rewrite Hname. now rewrite String.eqb_refl.
Qed.

(** C7, at the engine with a halo on [x], called with the end value only. *)
Lemma C7_start_default_witness :
  (forall known param,
     visit Examples.halo_x_s known
       (PyParameter
          (DimensionParameter 1 Examples.x
             (Some [gvf (PyParameter
                           (TensorArgument 0 "f"
                              (Some [gvf (Examples.f 10) None_]) "float32"))
                        (int_ 0)])))
       param = OK (int_ 0)) /\
  od_get String.eqb
    [("f", PyData (PArray [10])); ("x_size", int_ 10); ("x_s", int_ 0); ("x_e", int_ 9)]
    (start_name Examples.x)
  = Some (int_ 0).
Proof.
  apply (C7_start_default
           (Examples.the Examples.empty_engine (Examples.with_halo 10))
           [("x_e", int_ 7)] Examples.halo_x_s 1 Examples.x _ None_ []
           [("f", PyData (PArray [10])); ("x_size", int_ 10); ("x_s", int_ 0);
            ("x_e", int_ 9)]
           (PyData (PBool false))).
  - split; vm_compute; repeat constructor; simpl; intuition discriminate.
  - vm_compute. do 2 right. left. reflexivity.
  - reflexivity.
  - reflexivity.
  - intros kwargs2 H. vm_compute in H. inversion H; subst kwargs2. reflexivity.
  - vm_compute. reflexivity.
Defined.

(** ** One argument per name *)

Lemma existsb_eqb_In (n : string) (seen : list string) :
  existsb (String.eqb n) seen = true <-> In n seen.
Proof.
  rewrite existsb_exists. split.
  - intros (x & Hin & Heq). apply String.eqb_eq in Heq. now subst.
  - intros Hin. exists n. split; [ exact Hin | apply String.eqb_refl ].
Qed.

Lemma filter_ordered_from_spec (l : list node) :
  forall seen,
    NoDup (map node_name (filter_ordered_from seen l)) /\
    (forall n, In n (filter_ordered_from seen l) ->
       ~ In (node_name n) seen /\
       exists l1 l2, l = (l1 ++ n :: l2)%list /\
                     forall x, In x l1 -> node_name x <> node_name n) /\
    (forall x, In x l -> In (node_name x) seen \/
                         In (node_name x) (map node_name (filter_ordered_from seen l))).
Proof.
  induction l as [| a l IH]; intros seen; simpl.
  - split; [ constructor | split; [ intros n [] | intros x [] ] ].
  - destruct (existsb (String.eqb (node_name a)) seen) eqn:E.
    + destruct (IH seen) as (Hnd & Hin & Hall).
      apply existsb_eqb_In in E.
      split; [ exact Hnd | split ].
      * intros n Hn. destruct (Hin n Hn) as (Hs & l1 & l2 & -> & Hf).
        split; [ exact Hs | ].
        exists (a :: l1), l2. split; [ reflexivity | ].
        intros x [<- | Hx]; [ intros Heq; apply Hs; now rewrite <- Heq | now apply Hf ].
      * intros x [<- | Hx]; [ now left | now apply Hall ].
    + destruct (IH (node_name a :: seen)) as (Hnd & Hin & Hall).
      assert (Ha : ~ In (node_name a) seen).
      { intros Hc. apply existsb_eqb_In in Hc. congruence. }
      split; [ | split ].
      * simpl. constructor; [ | exact Hnd ].
        intros Hc. apply in_map_iff in Hc as (n & Heq & Hn).
        destruct (Hin n Hn) as (Hs & _). apply Hs. left. now symmetry.
      * intros n [<- | Hn].
        -- split; [ exact Ha | ]. exists [], l. split; [ reflexivity | intros x [] ].
        -- destruct (Hin n Hn) as (Hs & l1 & l2 & -> & Hf).
           split; [ intros Hc; apply Hs; now right | ].
           exists (a :: l1), l2. split; [ reflexivity | ].
           intros x [<- | Hx]; [ intros Heq; apply Hs; left; exact Heq | now apply Hf ].
      * intros x [<- | Hx]; [ right; now left | ].
        destruct (Hall x Hx) as [[Heq | Hs] | Hr].
        -- right. left. exact Heq.
        -- now left.
        -- right. now right.
Qed.

Lemma filter_ordered_from_incl (l : list node) (seen : list string) :
  incl (filter_ordered_from seen l) l.
Proof.
  intros n Hn.
  destruct (filter_ordered_from_spec l seen) as (_ & Hin & _).
  destruct (Hin n Hn) as (_ & l1 & l2 & -> & _).
  apply in_or_app. right. now left.
Qed.

Lemma filter_ordered_from_uids (l : list node) :
  forall seen, NoDup (map node_uid l) -> NoDup (map node_uid (filter_ordered_from seen l)).
Proof.
  induction l as [| a l IH]; intros seen Hnd; simpl; [ constructor | ].
  inversion Hnd as [| ? ? H1 H2]; subst.
  destruct (existsb (String.eqb (node_name a)) seen); [ now apply IH | ].
  simpl. constructor; [ | now apply IH ].
  intros Hc. apply H1.
  apply in_map_iff in Hc as (n & Heq & Hn).
  apply in_map_iff. exists n. split; [ exact Heq | ].
  eapply filter_ordered_from_incl; eauto.
Qed.

(** The arguments created by [_build_argument_mapper] are distinct
    objects. *)
Lemma built_arguments_uids (dles : list dle_argument) (params : list pyobj) m :
  _build_argument_mapper dles params = OK m ->
  NoDup (map node_uid (filter is_Argument (mapper_nodes m))).
Proof.
  intros Hb.
  apply _build_argument_mapper_inv in Hb
    as (ts & mp & dps & vis & oth & u2 & -> & Hts & Hle & Hv & Ho).
  apply build_tensor_arguments_spec in Hts as [Htu Hts].
  unfold visit_dimension_parameters in Hv.
  apply visit_dimension_parameters_from in Hv as (HF & Hsu & Hsc).
  unfold visit_parameters in Ho.
  apply visit_parameters_from in Ho as (Hoa & Hok & Hon).
  rewrite !mapper_nodes_app, !mapper_nodes_Some, !filter_app.
  rewrite (filter_all _ ts) by (apply TensorArgument_is_Argument, Hts).
  rewrite (filter_none _ dps)
    by (apply DimensionParameter_not_Argument; eapply visited_dimension_parameters; eauto).
  rewrite (filter_all _ (List.concat vis)) by exact Hsc.
  rewrite (filter_all _ (mapper_nodes oth)) by exact Hoa.
  simpl. rewrite !map_app, Htu, Hsu.
  replace (u2 + 3 * 0)%nat with u2 by lia.
  apply NoDup_app; [ apply seq_NoDup | | ].
  - apply NoDup_app; [ apply seq_NoDup | exact Hon | ].
    intros a Ha Hc. apply in_seq in Ha.
    apply in_map_iff in Hc as (n & <- & Hn).
    rewrite Forall_forall in Hok. specialize (Hok n Hn). lia.
  - intros a Ha Hc. apply in_seq in Ha.
    apply in_app_or in Hc as [Hc | Hc].
    + apply in_seq in Hc. lia.
    + apply in_map_iff in Hc as (n & <- & Hn).
      rewrite Forall_forall in Hok. specialize (Hok n Hn). lia.
Qed.

(** A constructed engine has distinct arguments with distinct names. *)
Lemma ArgumentEngine_init_distinct (stencils : list Stencil) (params : list pyobj)
    (dles : list dle_argument) (self : ArgumentEngine) :
  ArgumentEngine_init stencils params dles = OK self -> distinct_arguments self.
Proof.
  intros H. apply ArgumentEngine_init_inv in H as (Hb & Ha & _).
  unfold distinct_arguments. rewrite Ha. unfold filter_ordered. split.
  - apply filter_ordered_from_uids. eapply built_arguments_uids; eauto.
  - apply filter_ordered_from_spec.
Qed.

(** C10: in a constructed engine the arguments carry pairwise distinct
    names; each of them is the first node of its name among the arguments
    of the argument mapper, and every name met there is kept; the mapping
    returned by [handle] lists exactly these names, in this order, hence
    without repetition. *)
Theorem C10_one_argument_per_name (stencils : list Stencil) (params : list pyobj)
    (dles : list dle_argument) (self : ArgumentEngine) :
  ArgumentEngine_init stencils params dles = OK self ->
  NoDup (map node_name (arguments self)) /\
  (forall n, In n (arguments self) ->
     exists l1 l2,
       filter is_Argument (mapper_nodes (argument_mapper self)) = (l1 ++ n :: l2)%list /\
       forall x, In x l1 -> node_name x <> node_name n) /\
  (forall x, In x (filter is_Argument (mapper_nodes (argument_mapper self))) ->
     In (node_name x) (map node_name (arguments self))) /\
  (forall kwargs log res flag,
     handle self kwargs = (log, OK (res, flag)) ->
     map fst res = map node_name (arguments self) /\ NoDup (map fst res)).
Proof.
  intros Hinit.
  pose proof (ArgumentEngine_init_distinct _ _ _ _ Hinit) as Hd.
  apply ArgumentEngine_init_inv in Hinit as (_ & Ha & _).
  destruct (filter_ordered_from_spec
              (filter is_Argument (mapper_nodes (argument_mapper self))) [])
    as (Hnd & Hfirst & Hall).
  fold (filter_ordered (filter is_Argument (mapper_nodes (argument_mapper self)))) in *.
  rewrite <- Ha in *.
  split; [ exact Hnd | split; [ | split ] ].
  - intros n Hn. now destruct (Hfirst n Hn) as (_ & H).
  - intros x Hx. destruct (Hall x Hx) as [[] | H]; exact H.
  - intros kwargs log res flag H.
    destruct (handle_result_lookup self kwargs log res flag Hd H)
      as (kw2 & values & _ & _ & Hk & _).
    rewrite Hk. split; [ reflexivity | exact Hnd ].
Qed.

(** C10, at the engine of two tensors, whose argument mapper holds the
    tensor arguments [f] and [g] twice. *)
Lemma C10_one_argument_per_name_witness :
  NoDup (map node_name
           (arguments (Examples.the Examples.empty_engine (Examples.two_tensors 10 14)))) /\
  (forall n,
     In n (arguments (Examples.the Examples.empty_engine (Examples.two_tensors 10 14))) ->
     exists l1 l2,
       filter is_Argument
         (mapper_nodes
            (argument_mapper
               (Examples.the Examples.empty_engine (Examples.two_tensors 10 14))))
       = (l1 ++ n :: l2)%list /\
       forall x, In x l1 -> node_name x <> node_name n) /\
  (forall x,
     In x (filter is_Argument
             (mapper_nodes
                (argument_mapper
                   (Examples.the Examples.empty_engine (Examples.two_tensors 10 14))))) ->
     In (node_name x)
        (map node_name
           (arguments (Examples.the Examples.empty_engine (Examples.two_tensors 10 14))))) /\
  (forall kwargs log res flag,
     handle (Examples.the Examples.empty_engine (Examples.two_tensors 10 14)) kwargs
       = (log, OK (res, flag)) ->
     map fst res =
       map node_name
         (arguments (Examples.the Examples.empty_engine (Examples.two_tensors 10 14))) /\
     NoDup (map fst res)).
Proof.
  apply (C10_one_argument_per_name
           [] [Examples.f 10; Examples.g 14; PyDimension Examples.x] []).
  reflexivity.
Defined.

(** ** The halo offsets of the stencils *)

Lemma max_abs_from (l : list Z) :
  forall m, 0 <= m ->
    m <= fold_left (fun m z => Z.max m (Z.abs z)) l m /\
    (forall z, In z l -> Z.abs z <= fold_left (fun m z => Z.max m (Z.abs z)) l m) /\
    (fold_left (fun m z => Z.max m (Z.abs z)) l m = m \/
     exists z, In z l /\ fold_left (fun m z => Z.max m (Z.abs z)) l m = Z.abs z).
Proof.
  induction l as [| a l IH]; intros m Hm; simpl.
  - split; [ lia | split; [ intros z [] | now left ] ].
  - destruct (IH (Z.max m (Z.abs a)) ltac:(lia)) as (H1 & H2 & H3).
    split; [ lia | split ].
    + intros z [<- | Hz]; [ lia | now apply H2 ].
    + destruct H3 as [H3 | (z & Hz & H3)].
      * destruct (Z.max_spec m (Z.abs a)) as [[_ E] | [_ E]]; rewrite E in *.
        -- right. exists a. split; [ now left | exact H3 ].
        -- now left.
      * right. exists z. split; [ now right | exact H3 ].
Qed.

(** [max_abs] is the largest absolute value of the offsets (0 for none). *)
Lemma max_abs_spec (l : list Z) :
  (forall z, In z l -> Z.abs z <= max_abs l) /\
  (l = [] /\ max_abs l = 0 \/ exists z, In z l /\ max_abs l = Z.abs z).
Proof.
  unfold max_abs. destruct (max_abs_from l 0 ltac:(lia)) as (H1 & H2 & H3).
  split; [ exact H2 | ].
  destruct H3 as [H3 | H3]; [ | now right ].
  destruct l as [| a l]; [ now left | right ].
  exists a. split; [ now left | ].
  pose proof (H2 a (or_introl eq_refl)). lia.
Qed.

(** The offsets of the engine whose stencil touches [x] at -1, 0 and +2,
    and the end value it derives from a supplied [E]. *)
Lemma halo_offset_example (E : Z) :
  exists e res flag,
    Examples.with_halo 10 = OK e /\
    offsets e = [("x_e", 2)] /\
    handle e [("x_e", int_ E)] = ([], OK (res, flag)) /\
    od_get String.eqb res "x_e" = Some (int_ (E + 2)).
Proof.
  eexists. eexists. eexists.
  split; [ reflexivity | ].
  split; [ reflexivity | ].
  split; [ vm_compute; reflexivity | reflexivity ].
Qed.

(** * Further properties of the module *)

(** ** Verification *)

Lemma _verify_loop_true (keys : list node) :
  _verify_loop keys true = OK true <-> Forall (fun k => verified_by k = OK []) keys.
Proof.
  induction keys as [| i keys IH]; simpl.
  - split; [ constructor | reflexivity ].
  - destruct (verified_by i) as [[| d l] | e] eqn:E; simpl.
    + rewrite IH. split.
      * intros H. constructor; [ exact E | exact H ].
      * intros H. now inversion H.
    + split; [ discriminate | intros H; inversion H; congruence ].
    + split; [ discriminate | intros H; inversion H; congruence ].
Qed.

(** X1: [_verify] answers True exactly when no key of [values] has a
    VerifiedBy dependency (and every key's dependencies are a list); in
    every other case it ends with a [TypeError].  It never answers False,
    so the [assert] on it in [handle] never fails. *)
Theorem X1_verify_outcome (values : values_t) :
  (_verify values = OK true <->
   Forall (fun k => verified_by k = OK []) (map fst values)) /\
  (_verify values = OK true \/ _verify values = Raise TypeError).
Proof.
  unfold _verify. split.
  - apply _verify_loop_true.
  - induction (map fst values) as [| i keys IH]; simpl; [ now left | ].
    destruct (verified_by i) as [[| d l] | e] eqn:E; simpl; auto.
    unfold verified_by in E. destruct (node_dependencies i); [ discriminate | ].
    inversion E. now right.
Qed.

(** X2: [handle] returns only when no argument of the engine has a
    VerifiedBy dependency and the dependencies of every argument are a
    list: with a verification edge, or with dependencies of another kind,
    the call ends in an error, whatever the inputs. *)
Theorem X2_handle_returns_without_verification (self : ArgumentEngine)
    (kwargs : kwargs_t) log res flag :
  distinct_arguments self ->
  handle self kwargs = (log, OK (res, flag)) ->
  Forall (fun a => verified_by a = OK []) (arguments self).
Proof.
  intros Hd H.
  apply handle_OK_inv in H as (values & ds & dle & at_ & Hs & _ & Hv & _ & _).
  apply derive_stage_inv in Hs as (kw2 & _ & Hdv & _).
  rewrite <- (_derive_values_keys self kw2 values Hd Hdv).
  unfold _verify in Hv. now apply _verify_loop_true.
Qed.

(** X2, at the engine of two tensors over [x], called without inputs. *)
Lemma X2_handle_returns_witness :
  Forall (fun a => verified_by a = OK [])
    (arguments (Examples.the Examples.empty_engine (Examples.two_tensors 10 14))).
Proof.
  pose (r := handle (Examples.the Examples.empty_engine (Examples.two_tensors 10 14)) []).
  assert (Hr : exists log res flag, r = (log, OK (res, flag)))
    by (do 3 eexists; vm_compute; reflexivity).
  destruct Hr as (log & res & flag & Hr).
  apply (X2_handle_returns_without_verification
           (Examples.the Examples.empty_engine (Examples.two_tensors 10 14)) []
           log res flag).
  - split; vm_compute; repeat constructor; intros Hc; simpl in Hc; intuition discriminate.
  - exact Hr.
Defined.


(** ** Lookup by name and dimension extents *)

Lemma filter_named_absent (name : string) (h : values_t) :
  (forall kv, In kv h -> node_name (fst kv) <> name) ->
  filter (fun kv => String.eqb (node_name (fst kv)) name) h = [].
Proof.
  induction h as [| kv h IH]; intros H; simpl; [ reflexivity | ].
  destruct (String.eqb_spec (node_name (fst kv)) name) as [E | E].
  - exfalso. apply (H kv); [ now left | exact E ].
  - apply IH. intros kv' Hin. apply H. now right.
Qed.

Lemma filter_named_unique (h : values_t) (k : node) (v : pyobj) :
  NoDup (map node_name (map fst h)) -> In (k, v) h ->
  filter (fun kv => String.eqb (node_name (fst kv)) (node_name k)) h = [(k, v)].
Proof.
  induction h as [| [k0 v0] h IH]; intros Hnd Hin; [ destruct Hin | ].
  simpl in Hnd. inversion Hnd as [| ? ? H1 H2]; subst. simpl.
  destruct Hin as [Heq | Hin].
  - inversion Heq; subst. rewrite String.eqb_refl. f_equal.
    apply filter_named_absent. intros kv Hkv Hc. apply H1. rewrite <- Hc.
    apply in_map, in_map, Hkv.
  - destruct (String.eqb_spec (node_name k0) (node_name k)) as [E | E].
    + exfalso. apply H1. rewrite E.
      change (node_name k) with (node_name (fst (k, v))). apply in_map, in_map, Hin.
    + now apply IH.
Qed.

(** X3: [find_argument_by_name] gives [None] when no key carries the name,
    the value of the key when exactly the names are distinct and the key
    is present, and fails its assertion when two keys carry the name. *)
Theorem X3_find_argument_by_name (name : string) (haystack : values_t) :
  ((forall kv, In kv haystack -> node_name (fst kv) <> name) ->
   find_argument_by_name name haystack = OK None_) /\
  (NoDup (map node_name (map fst haystack)) ->
   forall k v, In (k, v) haystack -> node_name k = name ->
               find_argument_by_name name haystack = OK v) /\
  (forall l1 l2 l3 k1 v1 k2 v2,
     haystack = (l1 ++ (k1, v1) :: l2 ++ (k2, v2) :: l3)%list ->
     node_name k1 = name -> node_name k2 = name ->
     find_argument_by_name name haystack = Raise AssertionError).
Proof.
  unfold find_argument_by_name. split; [ | split ].
  - intros H. now rewrite filter_named_absent.
  - intros Hnd k v Hin <-. now rewrite (filter_named_unique haystack k v).
  - intros l1 l2 l3 k1 v1 k2 v2 -> H1 H2.
    rewrite filter_app. simpl. rewrite H1, String.eqb_refl.
    rewrite filter_app. simpl. rewrite H2, String.eqb_refl.
    rewrite length_app. simpl. rewrite length_app. simpl.
    match goal with |- (if ?b then _ else _) = _ => replace b with false end;
      [ reflexivity | ].
    symmetry. apply Nat.ltb_ge. lia.
Qed.

(** X3, on a dictionary with the keys [x_s] and [x_e]. *)
Lemma X3_find_argument_by_name_witness :
  find_argument_by_name "x_size" [(Examples.halo_x_s, int_ 0); (Examples.halo_x_e, int_ 9)]
    = OK None_ /\
  find_argument_by_name "x_e" [(Examples.halo_x_s, int_ 0); (Examples.halo_x_e, int_ 9)]
    = OK (int_ 9) /\
  find_argument_by_name "x_e" [(Examples.halo_x_e, int_ 1); (Examples.halo_x_e, int_ 9)]
    = Raise AssertionError.
Proof.
  split; [ | split ].
  - apply (proj1 (X3_find_argument_by_name "x_size" _)).
    intros kv [<- | [<- | []]]; discriminate.
  - apply (proj1 (proj2 (X3_find_argument_by_name "x_e" _))) with (k := Examples.halo_x_e).
    + repeat constructor; simpl; intuition discriminate.
    + right. now left.
    + reflexivity.
  - apply (proj2 (proj2 (X3_find_argument_by_name "x_e" _))
             [] [] [] Examples.halo_x_e (int_ 1) Examples.halo_x_e (int_ 9));
      reflexivity.
Defined.

Lemma filter_named_at_most_one (name : string) (h : values_t) :
  NoDup (map node_name (map fst h)) ->
  (List.length (filter (fun kv => String.eqb (node_name (fst kv)) name) h) <= 1)%nat.
Proof.
  induction h as [| [k v] h IH]; intros Hnd; simpl; [ lia | ].
  simpl in Hnd. inversion Hnd as [| ? ? H1 H2]; subst.
  destruct (String.eqb_spec (node_name k) name) as [E | E]; [ | now apply IH ].
  rewrite filter_named_absent; [ simpl; lia | ].
  intros kv Hin Hc. apply H1. rewrite E, <- Hc. apply in_map, in_map, Hin.
Qed.

Lemma find_argument_by_name_total (name : string) (h : values_t) :
  NoDup (map node_name (map fst h)) -> exists v, find_argument_by_name name h = OK v.
Proof.
  intros Hnd. pose proof (filter_named_at_most_one name h Hnd) as Hl.
  unfold find_argument_by_name.
  destruct (filter (fun kv => String.eqb (node_name (fst kv)) name) h) as [| kv [| kv' l]];
    simpl in *; eauto. lia.
Qed.

Lemma py_sub_TypeError_l (a b : pyobj) :
  as_number a = None -> as_array a = None -> is_sympy a = false ->
  py_sub a b = Raise TypeError.
Proof.
  intros H1 H2 H3. unfold py_sub, py_arith. rewrite H1, H2, H3.
  destruct (as_array b); [ reflexivity | ].
  destruct (is_sympy b); reflexivity.
Qed.

Lemma py_sub_TypeError_r (a b : pyobj) :
  as_number b = None -> as_array b = None -> is_sympy b = false ->
  py_sub a b = Raise TypeError.
Proof.
  intros H1 H2 H3. unfold py_sub, py_arith. rewrite H1, H2, H3.
  destruct (as_number a); destruct (as_array a); try reflexivity;
    destruct (is_sympy a); reflexivity.
Qed.

Lemma unresolved_operand (u : pyobj) :
  is_Unevaluated u = true \/ is_None u = true ->
  as_number u = None /\ as_array u = None /\ is_sympy u = false.
Proof.
  intros [H | H]; destruct u as [[] | | | | | | | | | | | ]; try discriminate;
    repeat split; reflexivity.
Qed.

(** X4: over values whose keys have distinct names, [runtime_dim_extent]
    is end minus start when both are integers, and is [None], not an
    error, when the end or the start is absent, [None] or still deferred. *)
Theorem X4_runtime_dim_extent (d : Dimension) (values : values_t) :
  NoDup (map node_name (map fst values)) ->
  (forall ke ks e s,
     In (ke, int_ e) values -> node_name ke = end_name d ->
     In (ks, int_ s) values -> node_name ks = start_name d ->
     runtime_dim_extent d values = OK (PInt (e - s))) /\
  (forall ve vs,
     find_argument_by_name (end_name d) values = OK ve ->
     find_argument_by_name (start_name d) values = OK vs ->
     (is_Unevaluated ve = true \/ is_None ve = true) \/
     (is_Unevaluated vs = true \/ is_None vs = true) ->
     runtime_dim_extent d values = OK PNone) /\
  ((forall kv, In kv values -> node_name (fst kv) <> end_name d) ->
   runtime_dim_extent d values = OK PNone) /\
  ((forall kv, In kv values -> node_name (fst kv) <> start_name d) ->
   runtime_dim_extent d values = OK PNone).
Proof.
  intros Hnd.
  assert (Hun : forall ve vs,
            find_argument_by_name (end_name d) values = OK ve ->
            find_argument_by_name (start_name d) values = OK vs ->
            (is_Unevaluated ve = true \/ is_None ve = true) \/
            (is_Unevaluated vs = true \/ is_None vs = true) ->
            runtime_dim_extent d values = OK PNone).
  { intros ve vs He Hs H. unfold runtime_dim_extent. rewrite He, Hs. cbn [bind].
    destruct H as [H | H]; apply unresolved_operand in H as (H1 & H2 & H3).
    - now rewrite py_sub_TypeError_l.
    - now rewrite py_sub_TypeError_r. }
  split; [ | split; [ exact Hun | split ] ].
  - intros ke ks e s Hie He His Hs.
    unfold runtime_dim_extent, find_argument_by_name.
    rewrite <- He, (filter_named_unique values ke (int_ e) Hnd Hie).
    rewrite <- Hs, (filter_named_unique values ks (int_ s) Hnd His).
    reflexivity.
  - intros Habs.
    destruct (find_argument_by_name_total (start_name d) values Hnd) as [vs Hs].
    apply (Hun None_ vs); auto.
    unfold find_argument_by_name. now rewrite filter_named_absent.
  - intros Habs.
    destruct (find_argument_by_name_total (end_name d) values Hnd) as [ve He].
    apply (Hun ve None_); auto.
    unfold find_argument_by_name. now rewrite filter_named_absent.
Qed.

(** X4, on the values [x_s = 0] and [x_e = 9]. *)
Lemma X4_runtime_dim_extent_witness :
  runtime_dim_extent Examples.x [(Examples.halo_x_s, int_ 0); (Examples.halo_x_e, int_ 9)]
  = OK (PInt (9 - 0)).
Proof.
  apply (proj1 (X4_runtime_dim_extent Examples.x
                  [(Examples.halo_x_s, int_ 0); (Examples.halo_x_e, int_ 9)]
                  ltac:(repeat constructor; simpl; intuition discriminate))
           Examples.halo_x_e Examples.halo_x_s 9 0).
  - right. now left.
  - reflexivity.
  - now left.
  - reflexivity.
Defined.

(** ** Tiling sizes *)

(** Given the extent [d] of the descriptor's original dimension,
    [derive_dle_argument_value] defers, with the same evaluator and the
    same descriptor, when [d] is [None]; otherwise it returns [d] itself
    when no value (or the fixed value 0) is configured, the configured
    size when it is a nonzero fixed size, and the function's result when it
    is a sizing function.  Evaluating the deferred value is the same call
    again. *)
Lemma derive_dle_argument_value_cases (blocked : node) (known : values_t)
    (a : dle_argument) (d : pyval) :
  runtime_dim_extent (original_dim a) known = OK d ->
  derive_dle_argument_value blocked known (PyDle a) =
    OK (if is_PNone d
        then PyUnevaluated blocked derive_dle_argument_value_f (PyDle a)
        else match dle_value a with
             | None => PyData d
             | Some (Fixed z) => if Z.eqb z 0 then PyData d else int_ z
             | Some (SizingFunction f) => PyData (f d)
             end) /\
  forall known',
    evaluate (PyUnevaluated blocked derive_dle_argument_value_f (PyDle a)) known'
    = derive_dle_argument_value blocked known' (PyDle a).
Proof.
  intros He. split; [ | reflexivity ].
  unfold derive_dle_argument_value. rewrite He. cbn [bind].
  destruct (is_PNone d); [ reflexivity | ].
  destruct (dle_value a) as [[z | f] |]; simpl; [ | reflexivity | reflexivity ].
  destruct (Z.eqb z 0); reflexivity.
Qed.

(** The same, at a tile of fixed size 4 over [x] with [x_s = 0] and [x_e = 9]. *)
Lemma derive_dle_argument_value_cases_example :
  derive_dle_argument_value Examples.halo_x_s
    [(Examples.halo_x_s, int_ 0); (Examples.halo_x_e, int_ 9)]
    (PyDle (mkDle Examples.bx Examples.x (Some (Fixed 4))))
  = OK (if is_PNone (PInt 9)
        then PyUnevaluated Examples.halo_x_s derive_dle_argument_value_f
               (PyDle (mkDle Examples.bx Examples.x (Some (Fixed 4))))
        else match dle_value (mkDle Examples.bx Examples.x (Some (Fixed 4))) with
             | None => PyData (PInt 9)
             | Some (Fixed z) => if Z.eqb z 0 then PyData (PInt 9) else int_ z
             | Some (SizingFunction f) => PyData (f (PInt 9))
             end) /\
  forall known',
    evaluate (PyUnevaluated Examples.halo_x_s derive_dle_argument_value_f
                (PyDle (mkDle Examples.bx Examples.x (Some (Fixed 4))))) known'
    = derive_dle_argument_value Examples.halo_x_s known'
        (PyDle (mkDle Examples.bx Examples.x (Some (Fixed 4)))).
Proof.
  apply (derive_dle_argument_value_cases Examples.halo_x_s
           [(Examples.halo_x_s, int_ 0); (Examples.halo_x_e, int_ 9)]
           (mkDle Examples.bx Examples.x (Some (Fixed 4))) (PInt 9)).
  reflexivity.
Defined.



(** ** Resolution of a dimension parameter *)

Lemma candidates_resolved (this : node) (known : values_t) (l : list dependency) :
  forall cs,
    Forall2 (fun dep c => visit this known (dep_obj dep) (Some (dep_param dep)) = OK c)
            (filter is_gets_value_from l) cs ->
    (fix go (l : list dependency) : M (list (dependency * pyobj)) :=
       match l with
       | [] => OK []
       | Dependency ty obj p :: l' =>
           match ty with
           | gets_value_from_t =>
               v <- visit this known obj (Some p) ;;
               r <- go l' ;;
               OK ((Dependency ty obj p, v) :: r)
           | verified_by_t => go l'
           end
       end) l
    = OK (combine (filter is_gets_value_from l) cs).
Proof.
  induction l as [| [ty obj p] l IH]; intros cs HF.
  - inversion HF. reflexivity.
  - destruct ty; cbn [filter is_gets_value_from dep_type] in HF.
    + inversion HF as [| ? c ? cs' Hc HF']; subst.
      cbn [dep_obj dep_param] in Hc. rewrite Hc. cbn [bind].
      rewrite (IH cs' HF'). reflexivity.
    + apply IH. exact HF.
Qed.

Lemma reconcile_override (o : node) (known : values_t) candidates (v : pyobj) :
  od_get node_eqb known o = Some v -> is_None v = false -> is_Unevaluated v = false ->
  reconcile o known candidates = OK v.
Proof. intros H H1 H2. unfold reconcile. now rewrite H, H1, H2. Qed.

Lemma reconcile_no_override (o : node) (known : values_t) candidates :
  no_override known o ->
  reconcile o known candidates =
  match map snd candidates with
  | [] => OK None_
  | [v] => OK v
  | pv =>
      if forallb (fun x => negb (is_None x)) pv
      then reduce py_max pv
      else OK (PyUnevaluated o
                 (late_evaluate_dim_size
                    (map (fun c => dep_obj (fst c))
                         (filter (fun c => is_None (snd c)) candidates)))
                 (PyList (filter (fun x => negb (is_None x)) pv)))
  end.
Proof.
  intros Hno. unfold reconcile.
  assert (Hpv : match od_get node_eqb known o with
                | Some v =>
                    if (negb (is_Unevaluated v) && negb (is_None v))%bool
                    then [v] else map snd candidates
                | None => map snd candidates
                end = map snd candidates).
  { destruct (od_get node_eqb known o) as [v |] eqn:E; [ | reflexivity ].
    destruct (Hno v E) as [H | H]; rewrite H; simpl;
      [ now rewrite andb_false_r | reflexivity ]. }
  rewrite Hpv.
  destruct (map snd candidates) as [| v [| w l']]; reflexivity.
Qed.

Lemma map_snd_combine {A B : Type} (l : list A) :
  forall r : list B, List.length r = List.length l -> map snd (combine l r) = r.
Proof.
  induction l as [| a l IH]; intros [| b r] H; simpl in *; try discriminate; auto.
  f_equal. apply IH. lia.
Qed.

Lemma Forall2_length_eq {A B : Type} (P : A -> B -> Prop) l r :
  Forall2 P l r -> List.length r = List.length l.
Proof. induction 1; simpl; congruence. Qed.

Lemma visit_DimensionParameter_resolved (consumer : node) (known : values_t) (u : nat)
    (p : Dimension) (l : list dependency) (param : option pyobj) (cs : list pyobj) :
  node_name consumer <> start_name p ->
  Forall2 (fun dep c =>
             visit (DimensionParameter u p (Some l)) known (dep_obj dep)
                   (Some (dep_param dep)) = OK c)
          (filter is_gets_value_from l) cs ->
  visit consumer known (PyParameter (DimensionParameter u p (Some l))) param =
  reconcile (DimensionParameter u p (Some l)) known
            (combine (filter is_gets_value_from l) cs).
Proof.
  intros Hne HF. cbn [visit].
  destruct (String.eqb_spec (node_name consumer) (start_name p)) as [E | _];
    [ contradiction | ].
  rewrite (candidates_resolved _ known l cs HF). reflexivity.
Qed.

(** X6: when the known values already hold a concrete value for a
    dimension parameter (neither [None] nor deferred), resolving the
    dimension for a consumer other than its start scalar gives that value,
    whatever its sources resolve to. *)
Theorem X6_known_value_overrides (consumer : node) (known : values_t) (u : nat)
    (p : Dimension) (l : list dependency) (param : option pyobj)
    (cs : list pyobj) (v : pyobj) :
  node_name consumer <> start_name p ->
  Forall2 (fun dep c =>
             visit (DimensionParameter u p (Some l)) known (dep_obj dep)
                   (Some (dep_param dep)) = OK c)
          (filter is_gets_value_from l) cs ->
  od_get node_eqb known (DimensionParameter u p (Some l)) = Some v ->
  is_None v = false -> is_Unevaluated v = false ->
  visit consumer known (PyParameter (DimensionParameter u p (Some l))) param = OK v.
Proof.
  intros Hne HF Hk H1 H2.
  rewrite (visit_DimensionParameter_resolved consumer known u p l param cs Hne HF).
  now apply reconcile_override.
Qed.

(** X7: a dimension parameter with at least two GetsValueFrom sources, all
    of which resolve to integers, and with no concrete known value of its
    own, resolves (for a consumer other than its start scalar) to the
    maximum of these integers. *)
Theorem X7_dimension_takes_maximum (consumer : node) (known : values_t) (u : nat)
    (p : Dimension) (l : list dependency) (param : option pyobj)
    (m1 m2 : Z) (zs : list Z) :
  node_name consumer <> start_name p ->
  no_override known (DimensionParameter u p (Some l)) ->
  Forall2 (fun dep c =>
             visit (DimensionParameter u p (Some l)) known (dep_obj dep)
                   (Some (dep_param dep)) = OK c)
          (filter is_gets_value_from l) (map int_ (m1 :: m2 :: zs)) ->
  visit consumer known (PyParameter (DimensionParameter u p (Some l))) param
  = OK (int_ (fold_left Z.max (m2 :: zs) m1)).
Proof.
  intros Hne Hno HF.
  rewrite (visit_DimensionParameter_resolved consumer known u p l param _ Hne HF).
  rewrite (reconcile_no_override _ _ _ Hno).
  rewrite map_snd_combine by (eapply Forall2_length_eq; eauto).
  change (map int_ (m1 :: m2 :: zs)) with (int_ m1 :: int_ m2 :: map int_ zs).
  cbv iota beta zeta.
  change (int_ m1 :: int_ m2 :: map int_ zs) with (map int_ (m1 :: m2 :: zs)).
  rewrite forallb_not_None_ints. apply reduce_max_ints.
Qed.

(** X6, at the dimension [x] fed by two tensors, with 20 known for it. *)
Lemma X6_known_value_overrides_witness :
  visit Examples.x_size_arg ((Examples.x_param, int_ 20) :: Examples.known_fg)
        (PyParameter Examples.x_param) None = OK (int_ 20).
Proof.
  apply (X6_known_value_overrides Examples.x_size_arg
           ((Examples.x_param, int_ 20) :: Examples.known_fg) 2 Examples.x _ None
           [int_ 10; int_ 14] (int_ 20)).
  - intros H. vm_compute in H. discriminate.
  - repeat constructor.
  - reflexivity.
  - reflexivity.
  - reflexivity.
Defined.

(** X7, at the dimension [x] fed by tensors of extents 10 and 14. *)
Lemma X7_dimension_takes_maximum_witness :
  visit Examples.x_size_arg Examples.known_fg (PyParameter Examples.x_param) None
  = OK (int_ (fold_left Z.max [14] 10)).
Proof.
  apply (X7_dimension_takes_maximum Examples.x_size_arg Examples.known_fg 2 Examples.x
           _ None 10 14 []).
  - intros H. vm_compute in H. discriminate.
  - intros v H. vm_compute in H. discriminate.
  - repeat constructor.
Defined.

Lemma some_None_not_all (l : list pyobj) :
  existsb is_None l = true -> forallb (fun x => negb (is_None x)) l = false.
Proof.
  induction l as [| a l IH]; simpl; [ discriminate | ].
  destruct (is_None a); simpl; auto.
Qed.

(** X8: a dimension parameter with at least two GetsValueFrom sources, of
    which at least one resolves to [None], and with no concrete known
    value, is not an error: it resolves to an UnevaluatedDependency whose
    consumer is the dimension parameter itself, which carries the
    candidates that are not [None] and captures the targets of the sources
    that gave [None]. *)
Theorem X8_dimension_defers (consumer : node) (known : values_t) (u : nat)
    (p : Dimension) (l : list dependency) (param : option pyobj) (cs : list pyobj) :
  node_name consumer <> start_name p ->
  no_override known (DimensionParameter u p (Some l)) ->
  Forall2 (fun dep c =>
             visit (DimensionParameter u p (Some l)) known (dep_obj dep)
                   (Some (dep_param dep)) = OK c)
          (filter is_gets_value_from l) cs ->
  (2 <= List.length cs)%nat ->
  existsb is_None cs = true ->
  visit consumer known (PyParameter (DimensionParameter u p (Some l))) param
  = OK (PyUnevaluated (DimensionParameter u p (Some l))
          (late_evaluate_dim_size
             (map (fun c => dep_obj (fst c))
                  (filter (fun c => is_None (snd c))
                          (combine (filter is_gets_value_from l) cs))))
          (PyList (filter (fun x => negb (is_None x)) cs))).
Proof.
  intros Hne Hno HF Hlen Hsome.
  rewrite (visit_DimensionParameter_resolved consumer known u p l param _ Hne HF).
  rewrite (reconcile_no_override _ _ _ Hno).
  rewrite map_snd_combine by (eapply Forall2_length_eq; eauto).
  destruct cs as [| c1 [| c2 cs']]; simpl in Hlen; try lia.
  cbv iota beta zeta.
  now rewrite (some_None_not_all _ Hsome).
Qed.

(** X8, at the dimension [x] fed by the tensor [f] and by a dimension with
    no source. *)
Lemma X8_dimension_defers_witness :
  visit Examples.x_size_arg Examples.known_fg (PyParameter Examples.x_param_partial) None
  = OK (PyUnevaluated Examples.x_param_partial
          (late_evaluate_dim_size
             (map (fun c => dep_obj (fst c))
                  (filter (fun c => is_None (snd c))
                          (combine
                             (filter is_gets_value_from
                                [gvf (PyParameter Examples.f_arg) (int_ 0);
                                 gvf (PyParameter Examples.y_param) None_])
                             [int_ 10; None_]))))
          (PyList (filter (fun x => negb (is_None x)) [int_ 10; None_]))).
Proof.
  apply (X8_dimension_defers Examples.x_size_arg Examples.known_fg 5 Examples.x
           _ None [int_ 10; None_]).
  - intros H. vm_compute in H. discriminate.
  - intros v H. vm_compute in H. discriminate.
  - repeat constructor.
  - simpl. lia.
  - reflexivity.
Defined.

(** ** Late evaluation of a deferred dimension *)

Lemma lookups_missing_node (known : values_t) (unknown : list pyobj) :
  Forall (fun o => exists n, o = PyParameter n) unknown ->
  (exists n, In (PyParameter n) unknown /\ od_get node_eqb known n = None) ->
  mapM (known_lookup known) unknown = Raise KeyError.
Proof.
  induction 1 as [| o unknown (n & ->) _ IH]; intros (m & Hin & Hm).
  - destruct Hin.
  - cbn [mapM known_lookup].
    destruct (od_get node_eqb known n) as [v |] eqn:E; [ | reflexivity ].
    cbn [bind]. rewrite IH; [ reflexivity | ].
    exists m. split; [ | exact Hm ].
    destruct Hin as [Heq | Hin]; [ | exact Hin ].
    inversion Heq; subst. congruence.
Qed.

(** X9: when the deferred value of a dimension is evaluated against values
    that lack one of the captured unknown nodes (as the values of the
    settling loop, keyed by arguments only, lack every dimension
    parameter), the lookup fails as a whole and the result is the maximum
    of the partial values alone; with no partial value at all the
    evaluation ends with the [TypeError] of reducing an empty list. *)
Theorem X9_late_evaluation_without_unknowns (unknown : list pyobj) (consumer : node)
    (known : values_t) :
  Forall (fun o => exists n, o = PyParameter n) unknown ->
  (exists n, In (PyParameter n) unknown /\ od_get node_eqb known n = None) ->
  (forall m zs,
     evaluate (PyUnevaluated consumer (late_evaluate_dim_size unknown)
                 (PyList (map int_ (m :: zs)))) known
     = OK (int_ (fold_left Z.max zs m))) /\
  evaluate (PyUnevaluated consumer (late_evaluate_dim_size unknown) (PyList [])) known
  = Raise TypeError.
Proof.
  intros Hn Hm.
  pose proof (lookups_missing_node known unknown Hn Hm) as Hl.
  cbn [evaluate call_function]. unfold late_evaluate. rewrite Hl. cbn [bind catch is_KeyError].
  split; [ | reflexivity ].
  intros m zs. rewrite app_nil_r. apply reduce_max_ints.
Qed.

(** X9, at the deferred value of [x] fed by [f] and by the dimension [y],
    evaluated against the values of the tensors. *)
Lemma X9_late_evaluation_witness :
  (forall m zs,
     evaluate (PyUnevaluated Examples.x_param_partial
                 (late_evaluate_dim_size [PyParameter Examples.y_param])
                 (PyList (map int_ (m :: zs)))) Examples.known_fg
     = OK (int_ (fold_left Z.max zs m))) /\
  evaluate (PyUnevaluated Examples.x_param_partial
              (late_evaluate_dim_size [PyParameter Examples.y_param]) (PyList []))
           Examples.known_fg
  = Raise TypeError.
Proof.
  apply (X9_late_evaluation_without_unknowns [PyParameter Examples.y_param]
           Examples.x_param_partial Examples.known_fg).
  - repeat constructor. eexists. reflexivity.
  - exists Examples.y_param. split; [ now left | reflexivity ].
Defined.

Lemma mapM_OK_Forall2 {A B : Type} (f : A -> M B) (l : list A) (r : list B) :
  Forall2 (fun a b => f a = OK b) l r -> mapM f l = OK r.
Proof.
  induction 1 as [| a b l r Hab _ IH]; simpl; [ reflexivity | ].
  now rewrite Hab, IH.
Qed.

Lemma filter_not_None_ints (l : list Z) :
  filter (fun x => negb (is_None x)) (map int_ l) = map int_ l.
Proof. induction l as [| z l IH]; simpl; [ reflexivity | now rewrite IH ]. Qed.

(** X10: when every captured unknown node has, by the time of the
    evaluation, an integer value, the deferred value evaluates to the
    maximum of the partial values and of these late values. *)
Theorem X10_late_evaluation_with_unknowns (unknown : list pyobj) (consumer : node)
    (known : values_t) (m : Z) (zs ys : list Z) :
  Forall2 (fun o y => known_lookup known o = OK (int_ y)) unknown ys ->
  evaluate (PyUnevaluated consumer (late_evaluate_dim_size unknown)
              (PyList (map int_ (m :: zs)))) known
  = OK (int_ (fold_left Z.max (zs ++ ys) m)).
Proof.
  intros HF.
  assert (Hl : mapM (known_lookup known) unknown = OK (map int_ ys)).
  { apply mapM_OK_Forall2. clear -HF. induction HF; simpl; constructor; auto. }
  cbn [evaluate call_function]. unfold late_evaluate. rewrite Hl. cbn [bind catch].
  rewrite filter_not_None_ints, <- map_app.
  change (m :: zs ++ ys)%list with (m :: (zs ++ ys))%list.
  apply reduce_max_ints.
Qed.

(** X10, with the partial value 10 and the late value 14 of a node. *)
Lemma X10_late_evaluation_witness :
  evaluate (PyUnevaluated Examples.x_param_partial
              (late_evaluate_dim_size [PyParameter Examples.y_param])
              (PyList (map int_ [10])))
           [(Examples.y_param, int_ 14)]
  = OK (int_ (fold_left Z.max ([] ++ [14]) 10)).
Proof.
  apply (X10_late_evaluation_with_unknowns [PyParameter Examples.y_param]
           Examples.x_param_partial [(Examples.y_param, int_ 14)] 10 [] [14]).
  repeat constructor.
Defined.

(** ** A dimension fed by a tensor *)

Lemma tuple_index_nth (s : list Z) (i : nat) (z : Z) :
  nth_error s i = Some z -> tuple_index s (int_ (Z.of_nat i)) = OK (int_ z).
Proof.
  intros H. unfold tuple_index. cbn [as_number int_].
  assert (Hlt : (i < List.length s)%nat) by (apply nth_error_Some; congruence).
  destruct (Z.ltb_spec (Z.of_nat i) 0) as [Hn | _]; [ lia | ].
  destruct (Z.leb_spec 0 (Z.of_nat i)) as [_ | Hn]; [ | lia ].
  destruct (Z.ltb_spec (Z.of_nat i) (Z.of_nat (List.length s))) as [_ | Hn]; [ | lia ].
  cbn [andb]. rewrite Nat2Z.id, H. reflexivity.
Qed.

(** X11: a dimension parameter whose single source is a tensor argument,
    with the position [i], resolves (for a consumer other than its start
    scalar, and with no concrete known value of its own) to the extent of
    the tensor's known array along axis [i]. *)
Theorem X11_dimension_from_tensor_shape (consumer : node) (known : values_t) (u : nat)
    (p : Dimension) (tu : nat) (tname : string) tdeps (tdtype : string)
    (i : nat) (s : list Z) (z : Z) (param : option pyobj) :
  node_name consumer <> start_name p ->
  no_override known
    (DimensionParameter u p
       (Some [gvf (PyParameter (TensorArgument tu tname tdeps tdtype))
                  (int_ (Z.of_nat i))])) ->
  od_get node_eqb known (TensorArgument tu tname tdeps tdtype) = Some (PyData (PArray s)) ->
  nth_error s i = Some z ->
  visit consumer known
    (PyParameter
       (DimensionParameter u p
          (Some [gvf (PyParameter (TensorArgument tu tname tdeps tdtype))
                     (int_ (Z.of_nat i))])))
    param
  = OK (int_ z).
Proof.
  intros Hne Hno Hk Hn.
  rewrite (visit_DimensionParameter_resolved consumer known u p _ param [int_ z] Hne).
  - rewrite (reconcile_no_override _ _ _ Hno). reflexivity.
  - cbn [filter is_gets_value_from dep_type gvf]. constructor; [ | constructor ].
    cbn [gvf dep_obj dep_param visit is_DimensionParameter known_lookup].
    rewrite Hk. cbn [bind obj_shape]. now apply tuple_index_nth.
Qed.

(** X11, at the dimension [x] as the only axis of a tensor of extent 10. *)
Lemma X11_dimension_from_tensor_shape_witness :
  visit Examples.x_size_arg Examples.known_fg
    (PyParameter
       (DimensionParameter 7 Examples.x
          (Some [gvf (PyParameter (TensorArgument 0 "f" (Some [gvf (Examples.f 10) None_])
                                     "float32"))
                     (int_ (Z.of_nat 0))])))
    None
  = OK (int_ 10).
Proof.
  apply (X11_dimension_from_tensor_shape Examples.x_size_arg Examples.known_fg 7
           Examples.x 0 "f" _ "float32" 0 [10] 10 None).
  - intros H. vm_compute in H. discriminate.
  - intros v H. vm_compute in H. discriminate.
  - reflexivity.
  - reflexivity.
Defined.

(** X12: the sources of a dimension parameter are resolved before its own
    known value is looked at.  So when its first source is a tensor
    argument whose value is absent from the known values, or is [None] there,
    resolving the dimension fails ([KeyError], [AttributeError]) even if a
    concrete value is known for the dimension itself. *)
Theorem X12_unresolved_tensor_fails_first (consumer : node) (known : values_t) (u : nat)
    (p : Dimension) (tu : nat) (tname : string) tdeps (tdtype : string)
    (idx : pyobj) (rest : list dependency) (param : option pyobj) :
  node_name consumer <> start_name p ->
  (od_get node_eqb known (TensorArgument tu tname tdeps tdtype) = None ->
   visit consumer known
     (PyParameter
        (DimensionParameter u p
           (Some (gvf (PyParameter (TensorArgument tu tname tdeps tdtype)) idx :: rest))))
     param
   = Raise KeyError) /\
  (od_get node_eqb known (TensorArgument tu tname tdeps tdtype) = Some None_ ->
   visit consumer known
     (PyParameter
        (DimensionParameter u p
           (Some (gvf (PyParameter (TensorArgument tu tname tdeps tdtype)) idx :: rest))))
     param
   = Raise AttributeError).
Proof.
  intros Hne.
  split; intros Hk; cbn [visit gvf];
    (destruct (String.eqb_spec (node_name consumer) (start_name p)) as [E | _];
       [ contradiction | ]);
    cbn [is_DimensionParameter known_lookup]; rewrite Hk; reflexivity.
Qed.

(** X12, at [x] fed by [f] while only 20 is known, for [x] itself. *)
Lemma X12_unresolved_tensor_witness :
  visit Examples.x_size_arg [(Examples.x_param, int_ 20)]
    (PyParameter
       (DimensionParameter 2 Examples.x
          (Some (gvf (PyParameter (TensorArgument 0 "f" (Some [gvf (Examples.f 10) None_])
                                     "float32")) (int_ 0)
                 :: [gvf (PyParameter Examples.g_arg) (int_ 0)]))))
    None
  = Raise KeyError.
Proof.
  apply (proj1 (X12_unresolved_tensor_fails_first Examples.x_size_arg
                  [(Examples.x_param, int_ 20)] 2 Examples.x 0 "f" _ "float32" (int_ 0)
                  [gvf (PyParameter Examples.g_arg) (int_ 0)] None
                  ltac:(intros H; vm_compute in H; discriminate))).
  reflexivity.
Defined.

(** ** The failures of [handle] *)

Lemma _dle_arguments_loop_outcome (l : list dle_argument) :
  forall dim_sizes acc at_ log r,
    _dle_arguments_loop l dim_sizes acc at_ = (log, r) ->
    (log = [] /\ exists x, r = OK x) \/
    (exists j, In j l /\ log = [unable_to_derive_message (original_dim j)] /\
               r = Raise (InvalidArgument "Unknown dimension size")).
Proof.
  induction l as [| i l IH]; intros ds acc at_ log r H; simpl in H.
  - inversion H; subst. left. eauto.
  - destruct (is_PNone _).
    + inversion H; subst. right. exists i. split; [ now left | auto ].
    + assert (Hrec : forall a b, _dle_arguments_loop l ds a b = (log, r) ->
                (log = [] /\ exists x, r = OK x) \/
                (exists j, In j (i :: l) /\
                           log = [unable_to_derive_message (original_dim j)] /\
                           r = Raise (InvalidArgument "Unknown dimension size"))).
      { intros a b Hab. destruct (IH _ _ _ _ _ Hab) as [Hl | (j & Hj & Hr)];
          [ now left | right; exists j; split; [ now right | exact Hr ] ]. }
      destruct (dle_value i) as [[z | f] |]; simpl in H.
      * destruct (Z.eqb z 0); simpl in H; eapply Hrec; eauto.
      * eapply Hrec; eauto.
      * eapply Hrec; eauto.
Qed.

Lemma derive_stage_InvalidArgument (self : ArgumentEngine) (kwargs0 : kwargs_t) msg :
  derive_stage self kwargs0 = Raise (InvalidArgument msg) ->
  exists kwargs2,
    prepare_kwargs self kwargs0 = OK kwargs2 /\
    pop_all (map node_name (arguments self) ++ map node_name (dims self)) kwargs2 <> [] /\
    msg = unknown_arguments_message
            (pop_all (map node_name (arguments self) ++ map node_name (dims self)) kwargs2).
Proof.
  unfold derive_stage.
  destruct (prepare_kwargs self kwargs0) as [kw2 | e] eqn:Hp; cbn [bind].
  - intros H. exists kw2. split; [ reflexivity | ].
    destruct (_derive_values self kw2) as [values | e] eqn:Hv; cbn [bind] in H.
    + exfalso. destruct (dim_sizes_of self values) as [ds | e] eqn:Hs; cbn [bind] in H;
        [ discriminate | ].
      inversion H; subst. exact (benign_dim_sizes_of self values _ Hs).
    + inversion H; subst e. clear H.
      destruct (_derive_values_cases self kw2) as [(e & Hs & Hd) | (vals0 & Hs & Hd)].
      * exfalso. rewrite Hd in Hv. inversion Hv; subst e.
        exact (benign_seed_arguments _ _ _ _ Hs).
      * cbv zeta in Hd. rewrite Hd in Hv.
        destruct (pop_all (map node_name (arguments self) ++ map node_name (dims self)) kw2)
          as [| kv rest] eqn:Hr.
        -- exfalso. simpl in Hv. revert Hv.
           apply benign_bind; [ apply benign_propagate | intros; apply benign_settle ].
        -- simpl in Hv. inversion Hv. split; [ discriminate | reflexivity ].
  - intros H. inversion H; subst e. exfalso.
    exact (benign_prepare_kwargs self _ _ Hp).
Qed.

(** X13: [handle] logs nothing unless it fails on a tiling descriptor.  An
    [InvalidArgument] raised by [handle] is one of two: the
    unknown-arguments error, with nothing logged, whose message lists the
    keys left once the names of the arguments and of the dimension
    parameters are popped; or 'Unknown dimension size', with one logged
    line naming the dimension of a tiling descriptor. *)
Theorem X13_invalid_argument_taxonomy (self : ArgumentEngine) (kwargs : kwargs_t)
    (log : list string) (msg : string) :
  handle self kwargs = (log, Raise (InvalidArgument msg)) ->
  (log = [] /\
   exists kwargs2,
     prepare_kwargs self (without_autotune kwargs) = OK kwargs2 /\
     pop_all (map node_name (arguments self) ++ map node_name (dims self)) kwargs2 <> [] /\
     msg = unknown_arguments_message
             (pop_all (map node_name (arguments self) ++ map node_name (dims self))
                      kwargs2)) \/
  (msg = "Unknown dimension size" /\
   exists j, In j (dle_arguments self) /\
             log = [unable_to_derive_message (original_dim j)]).
Proof.
  rewrite handle_unfold.
  destruct (derive_stage self (without_autotune kwargs)) as [[values ds] | e] eqn:Hd.
  - destruct (_dle_arguments self ds) as [log' r] eqn:Hl.
    unfold _dle_arguments in Hl.
    destruct (_dle_arguments_loop_outcome _ _ _ _ _ _ Hl)
      as [(-> & x & ->) | (j & Hj & -> & ->)].
    + destruct x as [dle at_]. intros H. inversion H as [[Hlog Hr]]. exfalso. revert Hr.
      apply benign_bind; [ apply benign__verify | intros ok ].
      destruct ok; [ | intros ?; discriminate ].
      apply benign_bind; [ | intros; apply benign_OK ].
      unfold py_and. apply benign_bind; [ unfold truthy; benign_auto | intros; apply benign_OK ].
    + intros H. inversion H; subst. right. split; [ reflexivity | eauto ].
  - intros H. inversion H; subst. left. split; [ reflexivity | ].
    now apply derive_stage_InvalidArgument.
Qed.

(** X13, at the engine with a halo on [x] and the undeclared key [bogus]. *)
Lemma X13_invalid_argument_taxonomy_witness :
  ([] = @nil string /\
   exists kwargs2,
     prepare_kwargs (Examples.the Examples.empty_engine (Examples.with_halo 10))
                    (without_autotune [("bogus", int_ 1)]) = OK kwargs2 /\
     pop_all (map node_name
                (arguments (Examples.the Examples.empty_engine (Examples.with_halo 10)))
              ++ map node_name
                   (dims (Examples.the Examples.empty_engine (Examples.with_halo 10))))
             kwargs2 <> [] /\
     "Unknown arguments passed: bogus" =
       unknown_arguments_message
         (pop_all (map node_name
                     (arguments (Examples.the Examples.empty_engine (Examples.with_halo 10)))
                   ++ map node_name
                        (dims (Examples.the Examples.empty_engine (Examples.with_halo 10))))
                  kwargs2)) \/
  ("Unknown arguments passed: bogus" = "Unknown dimension size" /\
   exists j,
     In j (dle_arguments (Examples.the Examples.empty_engine (Examples.with_halo 10))) /\
     [] = [unable_to_derive_message (original_dim j)]).
Proof.
  apply (X13_invalid_argument_taxonomy
           (Examples.the Examples.empty_engine (Examples.with_halo 10))
           [("bogus", int_ 1)] [] "Unknown arguments passed: bogus").
  vm_compute. reflexivity.
Defined.

Lemma od_of_list_keys_from {V : Type} (l d : list (string * V)) (n : string) :
  In n (map fst (fold_left (fun d kv => od_set String.eqb d (fst kv) (snd kv)) l d)) ->
  In n (map fst d) \/ In n (map fst l).
Proof.
  revert d. induction l as [| [k v] l IH]; simpl; intros d H; [ now left | ].
  apply IH in H as [H | H]; [ | right; now right ].
  clear IH. induction d as [| [k0 v0] d IHd]; simpl in H.
  - destruct H as [<- | []]. right. now left.
  - destruct (String.eqb k0 k); simpl in H.
    + left. exact H.
    + destruct H as [<- | H]; [ left; now left | ].
      destruct (IHd H) as [H' | H']; [ left; now right | now right ].
Qed.

Lemma dim_sizes_of_keys (self : ArgumentEngine) (values : values_t) ds (n : string) :
  dim_sizes_of self values = OK ds ->
  In n (map fst ds) -> In n (map dim_name (dimensions self)).
Proof.
  unfold dim_sizes_of.
  destruct (mapM _ (dimensions self)) as [l | e] eqn:Hm; cbn [bind]; [ | discriminate ].
  intros H Hin. inversion H; subst ds. unfold od_of_list in Hin.
  apply od_of_list_keys_from in Hin as [[] | Hin].
  apply mapM_Forall2 in Hm.
  clear -Hm Hin. induction Hm as [| d [k e] ds l Hd _ IH]; simpl in *; [ exact Hin | ].
  destruct (runtime_dim_extent d values); cbn [bind] in Hd; [ | discriminate ].
  inversion Hd; subst. destruct Hin as [<- | Hin]; [ now left | right; now apply IH ].
Qed.

(** X14: [handle] takes the extents from the dimensions among the
    parameters only.  So when the original dimension of a tiling
    descriptor is not one of them, [handle] never returns a result,
    whatever the input. *)
Theorem X14_undeclared_original_dim_never_returns (self : ArgumentEngine)
    (kwargs : kwargs_t) (i : dle_argument) :
  In i (dle_arguments self) ->
  ~ In (dim_name (original_dim i)) (map dim_name (dimensions self)) ->
  forall log res flag, handle self kwargs <> (log, OK (res, flag)).
Proof.
  intros Hi Hnot log res flag H.
  apply handle_OK_inv in H as (values & ds & dle & at_ & Hs & Hd & _).
  apply derive_stage_inv in Hs as (kw2 & _ & _ & Hds).
  assert (Hu : extent_unknown ds i = true).
  { unfold extent_unknown.
    destruct (od_get String.eqb ds (dim_name (original_dim i))) as [v |] eqn:E;
      [ | reflexivity ].
    exfalso. apply Hnot. eapply dim_sizes_of_keys; eauto.
    destruct (in_dec string_dec (dim_name (original_dim i)) (map fst ds)) as [Hin | Hin];
      [ exact Hin | ].
    apply kw_get_None_iff in Hin. congruence. }
  destruct (_dle_arguments_loop_unknown (dle_arguments self) ds [] true
              (ex_intro _ i (conj Hi Hu))) as (j & _ & _ & Hl).
  unfold _dle_arguments in Hd. congruence.
Qed.

(** X14, at a tile over the dimension [z] in an engine that declares [x]
    only. *)
Lemma X14_undeclared_original_dim_witness :
  In (mkDle Examples.bx Examples.z None)
     (dle_arguments (Examples.the Examples.empty_engine Examples.tile_over_undeclared)) /\
  forall log res flag,
    handle (Examples.the Examples.empty_engine Examples.tile_over_undeclared) []
    <> (log, OK (res, flag)).
Proof.
  split; [ simpl; auto | ].
  apply (X14_undeclared_original_dim_never_returns
           (Examples.the Examples.empty_engine Examples.tile_over_undeclared) []
           (mkDle Examples.bx Examples.z None)).
  - simpl. auto.
  - vm_compute. intros [H | []]. discriminate.
Defined.

(** ** Supplied values and provider defaults *)

Lemma _offset_adjust_get_unchanged (self : ArgumentEngine) (kwargs kwargs' : kwargs_t)
    (k : string) (v : pyobj) :
  _offset_adjust self kwargs = OK kwargs' ->
  od_get String.eqb kwargs k = Some v ->
  od_get String.eqb (offsets self) k = None ->
  od_get String.eqb kwargs' k = Some v.
Proof.
  intros H Hget Hoff. apply _offset_adjust_spec in H.
  induction H as [| [k0 v0] [k1 v1] kw kw' [Hk Hv] _ IH]; simpl in *; [ discriminate | ].
  subst k1. destruct (String.eqb k0 k) eqn:E.
  - apply String.eqb_eq in E. subst k0. inversion Hget; subst v0.
    rewrite Hoff in Hv. now subst.
  - now apply IH.
Qed.

(** X15: a plain value other than [None] supplied under the name of an
    argument that has no offset is used directly: it is the value of that
    argument in the mapping returned by [handle] (no composite among the
    inputs), so nothing is derived over it. *)
Theorem X15_supplied_value_is_used (self : ArgumentEngine) (kwargs : kwargs_t)
    (i : node) (d : pyval) log res flag :
  distinct_arguments self ->
  no_composite kwargs ->
  In i (arguments self) ->
  node_name i <> "autotune" ->
  od_get String.eqb kwargs (node_name i) = Some (PyData d) ->
  is_PNone d = false ->
  od_get String.eqb (offsets self) (node_name i) = None ->
  handle self kwargs = (log, OK (res, flag)) ->
  od_get String.eqb res (node_name i) = Some (PyData d).
Proof.
  intros Hd Hnc Hin Hne Hget Hnn Hoff H.
  destruct (handle_result_lookup self kwargs log res flag Hd H)
    as (kw2 & values & Hp & Hv & _ & Hres).
  rewrite (Hres i Hin).
  assert (Hnc' : no_composite (without_autotune kwargs)).
  { unfold without_autotune. rewrite kwargs_pop_snd. now apply od_remove_Forall. }
  apply (prepare_kwargs_no_composite _ _ _ Hnc') in Hp.
  assert (Hget' : od_get String.eqb (without_autotune kwargs) (node_name i)
                  = Some (PyData d)).
  { unfold without_autotune. rewrite kwargs_pop_snd.
    rewrite kw_get_remove_other; [ exact Hget | congruence ]. }
  pose proof (_offset_adjust_get_unchanged _ _ _ _ _ Hp Hget' Hoff) as Hk2.
  eapply _derive_values_supplied; eauto.
Qed.

(** X15, at the engine of two tensors with the size of [x] supplied. *)
Lemma X15_supplied_value_witness :
  od_get String.eqb
    [("f", PyData (PArray [10])); ("g", PyData (PArray [14])); ("x_size", int_ 3);
     ("x_s", int_ 0); ("x_e", int_ 14)]
    (node_name (ScalarArgument 3 "x_size" (Some [gvf (PyParameter Examples.x_param) None_])
                  int32))
  = Some (PyData (PInt 3)).
Proof.
  apply (X15_supplied_value_is_used
           (Examples.the Examples.empty_engine (Examples.two_tensors 10 14))
           [("x_size", int_ 3)]
           (ScalarArgument 3 "x_size" (Some [gvf (PyParameter Examples.x_param) None_]) int32)
           (PInt 3) []
           [("f", PyData (PArray [10])); ("g", PyData (PArray [14])); ("x_size", int_ 3);
            ("x_s", int_ 0); ("x_e", int_ 14)]
           (PyData (PBool false))).
  - split; vm_compute; repeat constructor; simpl; intuition discriminate.
  - repeat constructor.
  - vm_compute. do 2 right. left. reflexivity.
  - discriminate.
  - reflexivity.
  - reflexivity.
  - reflexivity.
  - vm_compute. reflexivity.
Defined.

Lemma provider_default_resolves (i : node) (o prm : pyobj) (d : pyval) (known : values_t) :
  provider_default i o = Some d ->
  get_value i (PyDependency (Dependency gets_value_from_t o prm)) known = OK (PyData d).
Proof.
  unfold get_value. cbn [visit].
  destruct o; cbn [provider_default visit]; try discriminate.
  - destruct (is_TensorArgument i); [ | discriminate ].
    intros H; inversion H; reflexivity.
  - intros H; inversion H; reflexivity.
  - intros H; inversion H; reflexivity.
Qed.

(** X16: an argument for which nothing is supplied, and whose single
    source is a provider, takes the provider's own value: the data of the
    function for a tensor argument, the data of a constant, the value of an
    object (when that value is not [None]). *)
Theorem X16_provider_default (self : ArgumentEngine) (kwargs : kwargs_t) (i : node)
    (o prm : pyobj) (d : pyval) log res flag :
  distinct_arguments self ->
  In i (arguments self) ->
  gets_value_from i = OK [Dependency gets_value_from_t o prm] ->
  provider_default i o = Some d ->
  is_PNone d = false ->
  (forall kwargs2, prepare_kwargs self (without_autotune kwargs) = OK kwargs2 ->
                   given kwargs2 i = None_) ->
  handle self kwargs = (log, OK (res, flag)) ->
  od_get String.eqb res (node_name i) = Some (PyData d).
Proof.
  intros Hd Hin Hg Hpd Hnn Hgiven H.
  destruct (handle_result_lookup self kwargs log res flag Hd H)
    as (kw2 & values & Hp & Hv & _ & Hres).
  rewrite (Hres i Hin).
  specialize (Hgiven kw2 Hp).
  destruct Hd as [Hu Hn].
  destruct (_derive_values_cases self kw2) as [(e & Hs & Hd) | (vals0 & Hs & Hd)];
    [ congruence | ].
  cbv zeta in Hd. rewrite Hd in Hv. clear Hd.
  destruct (Nat.ltb 0 _); [ discriminate | ].
  apply seed_arguments_values in Hs; auto.
  destruct Hs as (vs & -> & Hlen & HF). simpl in Hv.
  destruct (values_get_combine _ _ _ Hu HF i Hin) as (v & Hget & known & Hk).
  rewrite Hgiven in Hk. unfold None_ in Hk. rewrite get_value_data in Hk.
  inversion Hk; subst v.
  match type of Hv with
  | context [propagate ?a ?dv ?v] => destruct (propagate a dv v) as [vals1 | e] eqn:Hpr
  end; cbn [bind] in Hv; [ | discriminate ].
  apply settle_spec in Hv as [_ Hs2].
  apply Hs2; [ | reflexivity ].
  eapply (propagate_derives (arguments self) i
            (Dependency gets_value_from_t o prm) (PyData d)); eauto.
  intros known'. now apply provider_default_resolves.
Qed.

(** X16, at the tensor argument [f] of the engine of two tensors. *)
Lemma X16_provider_default_witness :
  od_get String.eqb
    [("f", PyData (PArray [10])); ("g", PyData (PArray [14])); ("x_size", int_ 14);
     ("x_s", int_ 0); ("x_e", int_ 14)]
    (node_name Examples.f_arg)
  = Some (PyData (PArray [10])).
Proof.
  apply (X16_provider_default
           (Examples.the Examples.empty_engine (Examples.two_tensors 10 14))
           [] Examples.f_arg (Examples.f 10) None_ (PArray [10]) []
           [("f", PyData (PArray [10])); ("g", PyData (PArray [14])); ("x_size", int_ 14);
            ("x_s", int_ 0); ("x_e", int_ 14)]
           (PyData (PBool false))).
  - split; vm_compute; repeat constructor; simpl; intuition discriminate.
  - vm_compute. left. reflexivity.
  - reflexivity.
  - reflexivity.
  - reflexivity.
  - intros kwargs2 H. vm_compute in H. inversion H; subst kwargs2. reflexivity.
  - vm_compute. reflexivity.
Defined.

(** ** The unknown-arguments message *)

Lemma od_remove_filter (d : kwargs_t) (n : string) :
  NoDup (map fst d) ->
  od_remove String.eqb d n = filter (fun kv => negb (String.eqb (fst kv) n)) d.
Proof.
  induction d as [| [k v] d IH]; simpl; intros Hnd; [ reflexivity | ].
  inversion Hnd as [| ? ? H1 H2]; subst.
  destruct (String.eqb_spec k n) as [E | E]; simpl.
  - subst k. symmetry. apply filter_all.
    apply Forall_forall. intros [k' v'] Hin. simpl.
    destruct (String.eqb_spec k' n) as [E' | _]; [ | reflexivity ].
    exfalso. apply H1. subst k'. change n with (fst (n, v')). now apply in_map.
  - now rewrite IH.
Qed.

Lemma filter_keys_NoDup (f : string * pyobj -> bool) (d : kwargs_t) :
  NoDup (map fst d) -> NoDup (map fst (filter f d)).
Proof.
  induction d as [| kv d IH]; simpl; intros Hnd; [ constructor | ].
  inversion Hnd as [| ? ? H1 H2]; subst.
  destruct (f kv); simpl; [ | now apply IH ].
  constructor; [ | now apply IH ].
  intros Hin. apply H1. apply in_map_iff in Hin as (x & Hx & Hin).
  apply filter_In in Hin as [Hin _]. rewrite <- Hx. now apply in_map.
Qed.

Lemma pop_all_filter (names : list string) :
  forall kwargs,
    NoDup (map fst kwargs) ->
    pop_all names kwargs =
    filter (fun kv => negb (existsb (String.eqb (fst kv)) names)) kwargs.
Proof.
  induction names as [| n names IH]; intros kw Hnd; simpl.
  - symmetry. apply filter_all. apply Forall_forall. reflexivity.
  - rewrite (od_remove_filter kw n Hnd).
    rewrite IH by now apply filter_keys_NoDup.
    clear. induction kw as [| kv kw IHk]; simpl; [ reflexivity | ].
    destruct (String.eqb (fst kv) n); simpl; [ exact IHk | ].
    destruct (existsb (String.eqb (fst kv)) names); simpl; [ exact IHk | ].
    f_equal. exact IHk.
Qed.

(** X17: over a dictionary of keyword arguments (distinct keys) whose
    seeding goes through, [_derive_values] raises the unknown-arguments
    error exactly when some key is the name of no argument and of no
    dimension parameter, and its message lists precisely these keys, in
    the order of the input, separated by commas. *)
Theorem X17_unknown_arguments_message (self : ArgumentEngine) (kwargs : kwargs_t) seeded :
  NoDup (map fst kwargs) ->
  seed_arguments (arguments self) kwargs [] = OK seeded ->
  (undeclared self kwargs <> [] ->
   _derive_values self kwargs =
     Raise (InvalidArgument
              ("Unknown arguments passed: "
               ++ String.concat ", " (map fst (undeclared self kwargs))))) /\
  (undeclared self kwargs = [] -> benign (_derive_values self kwargs)).
Proof.
  intros Hnd Hs.
  destruct (_derive_values_cases self kwargs) as [(e & Hs' & _) | (values & _ & Hd)];
    [ congruence | ].
  cbv zeta in Hd. rewrite (pop_all_filter _ kwargs Hnd) in Hd.
  fold (undeclared self kwargs) in Hd. rewrite Hd.
  destruct (undeclared self kwargs) as [| kv rest]; split; intros H.
  - contradiction.
  - simpl. apply benign_bind; [ apply benign_propagate | intros; apply benign_settle ].
  - reflexivity.
  - discriminate.
Qed.

(** X17, at the engine with a halo on [x] and two undeclared keys around a
    declared one. *)
Lemma X17_unknown_arguments_message_witness :
  _derive_values (Examples.the Examples.empty_engine (Examples.with_halo 10))
    [("bogus", int_ 1); ("x_e", int_ 7); ("other", int_ 2)]
  = Raise (InvalidArgument
             ("Unknown arguments passed: "
              ++ String.concat ", "
                   (map fst (undeclared
                               (Examples.the Examples.empty_engine (Examples.with_halo 10))
                               [("bogus", int_ 1); ("x_e", int_ 7); ("other", int_ 2)])))).
Proof.
  assert (Hs : exists seeded,
            seed_arguments
              (arguments (Examples.the Examples.empty_engine (Examples.with_halo 10)))
              [("bogus", int_ 1); ("x_e", int_ 7); ("other", int_ 2)] [] = OK seeded)
    by (eexists; vm_compute; reflexivity).
  destruct Hs as [seeded Hs].
  apply (proj1 (X17_unknown_arguments_message
                  (Examples.the Examples.empty_engine (Examples.with_halo 10))
                  [("bogus", int_ 1); ("x_e", int_ 7); ("other", int_ 2)] seeded
                  ltac:(repeat constructor; simpl; intuition discriminate) Hs)).
  vm_compute. discriminate.
Defined.

(** ** Preparation of the keyword arguments *)

Lemma py_add_None (off : Z) : py_add None_ (int_ off) = Raise TypeError.
Proof. reflexivity. Qed.

(** X18: [_offset_adjust] keeps the keys and their order; it returns the
    keyword arguments unchanged when none of their keys has an offset; and
    it never returns when a key with an offset is given the value [None]. *)
Theorem X18_offset_adjust (self : ArgumentEngine) (kwargs : kwargs_t) :
  (forall kwargs', _offset_adjust self kwargs = OK kwargs' ->
                   map fst kwargs' = map fst kwargs) /\
  ((forall k, In k (map fst kwargs) -> od_get String.eqb (offsets self) k = None) ->
   _offset_adjust self kwargs = OK kwargs) /\
  (forall k off, In (k, None_) kwargs ->
                 od_get String.eqb (offsets self) k = Some off ->
                 forall kwargs', _offset_adjust self kwargs <> OK kwargs').
Proof.
  split; [ apply _offset_adjust_keys | split ].
  - induction kwargs as [| [k v] kw IH]; intros H; [ reflexivity | ].
    unfold _offset_adjust in *. cbn [mapM fst snd].
    rewrite (H k (or_introl eq_refl)). cbn [bind].
    rewrite IH; [ reflexivity | ]. intros k' Hk'. apply H. now right.
  - intros k off Hin Hoff kw' H. apply _offset_adjust_spec in H.
    induction H as [| [k0 v0] [k1 v1] kw kw'' [Hk Hv] _ IH]; [ destruct Hin | ].
    destruct Hin as [Heq | Hin]; [ | now apply IH ].
    inversion Heq; subst. simpl in Hv. rewrite Hoff in Hv.
    destruct Hv as (w & Hw & _). rewrite py_add_None in Hw. discriminate.
Qed.

(** X18, at the engine with a halo on [x]. *)
Lemma X18_offset_adjust_witness :
  _offset_adjust (Examples.the Examples.empty_engine (Examples.with_halo 10))
                 [("x_s", int_ 1); ("f", None_)]
  = OK [("x_s", int_ 1); ("f", None_)] /\
  forall kwargs',
    _offset_adjust (Examples.the Examples.empty_engine (Examples.with_halo 10))
                   [("x_e", None_)] <> OK kwargs'.
Proof.
  split.
  - apply (proj1 (proj2 (X18_offset_adjust
                           (Examples.the Examples.empty_engine (Examples.with_halo 10))
                           [("x_s", int_ 1); ("f", None_)]))).
    intros k [<- | [<- | []]]; reflexivity.
  - apply (proj2 (proj2 (X18_offset_adjust
                           (Examples.the Examples.empty_engine (Examples.with_halo 10))
                           [("x_e", None_)])) "x_e" 2).
    + now left.
    + reflexivity.
Defined.

Lemma kw_set_keys_prefix (d : kwargs_t) (k : string) (v : pyobj) :
  exists extra, map fst (od_set String.eqb d k v) = (map fst d ++ extra)%list.
Proof.
  destruct (od_get String.eqb d k) as [w |] eqn:E.
  - exists []. rewrite (kw_set_keys_present d k v w E). now rewrite app_nil_r.
  - exists [k]. rewrite (kw_set_absent d k v E). now rewrite map_app.
Qed.

Lemma od_update_keys_prefix (new d : kwargs_t) :
  exists extra, map fst (od_update String.eqb d new) = (map fst d ++ extra)%list.
Proof.
  unfold od_update. revert d.
  induction new as [| [k v] new IH]; intros d; simpl.
  - exists []. now rewrite app_nil_r.
  - destruct (kw_set_keys_prefix d k v) as [e1 H1].
    destruct (IH (od_set String.eqb d k v)) as [e2 H2].
    exists (e1 ++ e2)%list. rewrite H2, H1. now rewrite app_assoc.
Qed.

Lemma parameters_named_none (k : string) (ps : list pyobj) :
  Forall (fun p => exists n, obj_name p = OK n /\ n <> k) ps ->
  parameters_named k ps = OK [].
Proof.
  induction 1 as [| p ps (n & Hn & Hne) _ IH]; simpl; [ reflexivity | ].
  rewrite Hn, IH. cbn [bind].
  destruct (String.eqb_spec n k); [ contradiction | reflexivity ].
Qed.

(** X19: [_extract_children_of_composites] returns the keyword arguments
    unchanged when none of the values is a composite; when it returns, the
    supplied keys are kept, in place, and keys are only appended; it never
    ends with an [InvalidArgument]: for a composite supplied under a name
    that no parameter carries (the first composite of the input), building
    the error message fails and the call ends with a [TypeError]. *)
Theorem X19_extract_children_of_composites (self : ArgumentEngine) (kwargs : kwargs_t) :
  (no_composite kwargs -> _extract_children_of_composites self kwargs = OK kwargs) /\
  (forall kwargs', _extract_children_of_composites self kwargs = OK kwargs' ->
                   exists extra, map fst kwargs' = (map fst kwargs ++ extra)%list) /\
  benign (_extract_children_of_composites self kwargs) /\
  (forall l1 k v l2,
     kwargs = (l1 ++ (k, v) :: l2)%list -> no_composite l1 ->
     is_CompositeFunction v = true ->
     Forall (fun p => exists n, obj_name p = OK n /\ n <> k) (parameters self) ->
     _extract_children_of_composites self kwargs = Raise TypeError).
Proof.
  unfold _extract_children_of_composites. split; [ | split; [ | split ] ].
  - intros Hn. now rewrite collect_children_no_composite.
  - intros kw'. destruct (collect_children self kwargs []) as [np | e]; cbn [bind];
      [ | discriminate ].
    intros H; inversion H; subst. apply od_update_keys_prefix.
  - apply benign_bind; [ apply benign_collect_children | intros; apply benign_OK ].
  - intros l1 k v l2 -> Hn Hc Hp.
    assert (H : forall np, collect_children self (l1 ++ (k, v) :: l2)%list np
                       = Raise TypeError).
    { induction Hn as [| [k0 v0] l1 Hv _ IH]; intros np; simpl.
      - rewrite Hc, (parameters_named_none k _ Hp). reflexivity.
      - simpl in Hv. rewrite Hv. apply IH. }
    now rewrite H.
Qed.

(** X19, at the engine with a halo on [x]: plain inputs, and a composite
    supplied under the undeclared name [w]. *)
Lemma X19_extract_children_witness :
  _extract_children_of_composites
    (Examples.the Examples.empty_engine (Examples.with_halo 10)) [("x_e", int_ 7)]
  = OK [("x_e", int_ 7)] /\
  _extract_children_of_composites
    (Examples.the Examples.empty_engine (Examples.with_halo 10))
    [("x_e", int_ 7); ("w", PyFunction "w" "float32" [] (PArray [3]) (Some []))]
  = Raise TypeError.
Proof.
  split.
  - apply (proj1 (X19_extract_children_of_composites
                    (Examples.the Examples.empty_engine (Examples.with_halo 10))
                    [("x_e", int_ 7)])).
    repeat constructor.
  - pose proof (X19_extract_children_of_composites
                  (Examples.the Examples.empty_engine (Examples.with_halo 10))
                  [("x_e", int_ 7);
                   ("w", PyFunction "w" "float32" [] (PArray [3]) (Some []))])
      as (_ & _ & _ & H).
    apply (H [("x_e", int_ 7)] "w" (PyFunction "w" "float32" [] (PArray [3]) (Some [])) []).
    + reflexivity.
    + repeat constructor.
    + reflexivity.
    + repeat constructor; eexists; (split; [ reflexivity | discriminate ]).
Defined.

(** ** Names of the scalars of a dimension *)

Lemma list_ascii_of_string_app (s t : string) :
  list_ascii_of_string (s ++ t) = (list_ascii_of_string s ++ list_ascii_of_string t)%list.
Proof. induction s as [| c s IH]; simpl; [ reflexivity | now rewrite IH ]. Qed.

Lemma list_ascii_of_string_inj (s t : string) :
  list_ascii_of_string s = list_ascii_of_string t -> s = t.
Proof.
  intros H. rewrite <- (string_of_list_ascii_of_string s),
              <- (string_of_list_ascii_of_string t). now rewrite H.
Qed.

Lemma append_inv_tail (s1 s2 t : string) : s1 ++ t = s2 ++ t -> s1 = s2.
Proof.
  intros H. apply list_ascii_of_string_inj.
  apply (f_equal list_ascii_of_string) in H.
  rewrite !list_ascii_of_string_app in H. now apply app_inv_tail in H.
Qed.

Lemma append_rev (s t : string) :
  rev (list_ascii_of_string (s ++ t))
  = (rev (list_ascii_of_string t) ++ rev (list_ascii_of_string s))%list.
Proof. now rewrite list_ascii_of_string_app, rev_app_distr. Qed.

(** X20: the size, start and end names are each injective in the name of
    the dimension, and no size, start or end name of one dimension is a
    name of another kind of any dimension: distinct dimensions never share
    a scalar name, and the three scalars of a dimension are told apart. *)
Theorem X20_scalar_names (d d' : Dimension) :
  (size_name d = size_name d' -> dim_name d = dim_name d') /\
  (start_name d = start_name d' -> dim_name d = dim_name d') /\
  (end_name d = end_name d' -> dim_name d = dim_name d') /\
  size_name d <> start_name d' /\
  size_name d <> end_name d' /\
  start_name d <> end_name d'.
Proof.
  unfold size_name, start_name, end_name.
  repeat split; try apply append_inv_tail;
    intros H; apply (f_equal (fun s => rev (list_ascii_of_string s))) in H;
    rewrite !append_rev in H; simpl in H; inversion H.
Qed.

(** ** Construction of the graph *)

Lemma build_tensor_arguments_total (fs : list pyobj) :
  Forall (fun f => is_SymbolicFunction f = true) fs ->
  forall uid mapper, exists r, build_tensor_arguments fs uid mapper = OK r.
Proof.
  induction 1 as [| f fs Hf _ IH]; intros uid mapper; simpl; [ eauto | ].
  destruct f; try discriminate.
  unfold ArgumentVisitor.visit_SymbolicFunction, new_TensorArgument.
  cbn [obj_name obj_dtype bind].
  match goal with
  | |- context [build_tensor_arguments fs (S uid) ?m] =>
      destruct (IH (S uid) m) as [r Hr]; rewrite Hr
  end.
  cbn [bind]. eauto.
Qed.

Lemma filter_Forall {A : Type} (f : A -> bool) (l : list A) :
  Forall (fun a => f a = true) (filter f l).
Proof. apply Forall_forall. intros a Ha. now apply filter_In in Ha. Qed.

(** X21: a stepping dimension carries no [parent] attribute
    ([SteppingDimension.__new__] stores its [modulo] only), so the
    construction of an engine whose parameters hold a stepping dimension
    ends with an [AttributeError], whatever the other inputs. *)
Theorem X21_stepping_dimension_fails (stencils : list Stencil) (params : list pyobj)
    (dles : list dle_argument) (d : Dimension) :
  In (PyDimension d) params -> is_Stepping d = true ->
  ArgumentEngine_init stencils params dles = Raise AttributeError.
Proof.
  intros Hin Hs. unfold ArgumentEngine_init, _build_argument_mapper.
  destruct (build_tensor_arguments_total (filter is_SymbolicFunction params)
              (filter_Forall _ _) 0%nat []) as [r Hr].
  rewrite Hr. cbn [bind].
  assert (Hst : exists d' l, stepping_dimensions params = d' :: l).
  { unfold stepping_dimensions. clear -Hin Hs.
    induction params as [| o ps IH]; [ destruct Hin | ].
    destruct Hin as [-> | Hin].
    - simpl. rewrite Hs. simpl. eauto.
    - destruct (IH Hin) as (d' & l & Hl). simpl. rewrite Hl.
      destruct o; simpl; eauto.
      destruct (is_Stepping d0); simpl; eauto. }
  destruct Hst as (d' & l & ->). reflexivity.
Qed.

(** X21, with a stepping dimension [t] beside the function [f]. *)
Lemma X21_stepping_dimension_witness :
  ArgumentEngine_init [] [Examples.f 10; PyDimension (mkDimension "t" true)] []
  = Raise AttributeError.
Proof.
  apply (X21_stepping_dimension_fails [] _ [] (mkDimension "t" true)).
  - right. now left.
  - reflexivity.
Defined.

Lemma Dimension_eqb_eq (a b : Dimension) : Dimension_eqb a b = true <-> a = b.
Proof.
  unfold Dimension_eqb. destruct a as [na sa], b as [nb sb]; simpl.
  rewrite andb_true_iff, String.eqb_eq, Bool.eqb_true_iff.
  split; [ intros [-> ->]; reflexivity | intros H; inversion H; auto ].
Qed.

Section DimensionKeyed.
Context {V : Type}.

Lemma dim_get_In (m : list (Dimension * V)) (d : Dimension) (v : V) :
  od_get Dimension_eqb m d = Some v -> In (d, v) m.
Proof.
  induction m as [| [k w] m IH]; simpl; [ discriminate | ].
  destruct (Dimension_eqb k d) eqn:E.
  - apply Dimension_eqb_eq in E. subst k. intros H; inversion H. now left.
  - intros H. right. now apply IH.
Qed.

Lemma dim_set_In_same (m : list (Dimension * V)) (d : Dimension) (v : V) :
  In (d, v) (od_set Dimension_eqb m d v).
Proof.
  induction m as [| [k w] m IH]; simpl; [ now left | ].
  destruct (Dimension_eqb k d) eqn:E.
  - apply Dimension_eqb_eq in E. subst k. now left.
  - right. exact IH.
Qed.

Lemma dim_set_In_other (m : list (Dimension * V)) (d d' : Dimension) (v v' : V) :
  d <> d' -> In (d', v') m -> In (d', v') (od_set Dimension_eqb m d v).
Proof.
  intros Hne. induction m as [| [k w] m IH]; simpl; [ tauto | ].
  destruct (Dimension_eqb k d) eqn:E.
  - apply Dimension_eqb_eq in E. subst k.
    intros [H | H]; [ inversion H; subst; contradiction | now right ].
  - intros [H | H]; [ now left | right; now apply IH ].
Qed.

Lemma dim_get_set_same (m : list (Dimension * V)) (d : Dimension) (v : V) :
  od_get Dimension_eqb (od_set Dimension_eqb m d v) d = Some v.
Proof.
  exact (od_get_set_same (fun x : Dimension => x) Dimension_eqb Dimension_eqb_eq m d v).
Qed.

Lemma dim_get_set_other (m : list (Dimension * V)) (d d' : Dimension) (v : V) :
  d <> d' ->
  od_get Dimension_eqb (od_set Dimension_eqb m d v) d' = od_get Dimension_eqb m d'.
Proof.
  exact (od_get_set_other (fun x : Dimension => x) Dimension_eqb Dimension_eqb_eq m d d' v).
Qed.
End DimensionKeyed.

Lemma Dimension_eq_dec (a b : Dimension) : {a = b} + {a <> b}.
Proof.
  destruct (Dimension_eqb a b) eqn:E.
  - left. now apply Dimension_eqb_eq.
  - right. intros H. apply Dimension_eqb_eq in H. congruence.
Qed.

(** Appending to the mapper keeps what is recorded and records the new
    dependency. *)
Lemma mapper_append_keeps (mapper : dep_mapper) (d d' : Dimension) (dep dep' : dependency)
    deps :
  od_get Dimension_eqb mapper d = Some deps -> In dep deps ->
  exists deps', od_get Dimension_eqb (mapper_append mapper d' dep') d = Some deps' /\
                In dep deps'.
Proof.
  intros Hget Hin. unfold mapper_append.
  destruct (Dimension_eq_dec d' d) as [-> | Hne].
  - rewrite Hget, dim_get_set_same. eexists. split; [ reflexivity | ].
    apply in_or_app. now left.
  - destruct (od_get Dimension_eqb mapper d'); rewrite dim_get_set_other by exact Hne; eauto.
Qed.

Lemma mapper_append_records (mapper : dep_mapper) (d : Dimension) (dep : dependency) :
  exists deps, od_get Dimension_eqb (mapper_append mapper d dep) d = Some deps /\
               In dep deps.
Proof.
  unfold mapper_append.
  destruct (od_get Dimension_eqb mapper d) as [old |]; rewrite dim_get_set_same;
    eexists; (split; [ reflexivity | ]).
  - apply in_or_app. right. now left.
  - now left.
Qed.

Section FoldAppend.
Context {X : Type} (kf : X -> Dimension) (df : X -> dependency).

Lemma fold_append_keeps (l : list X) :
  forall mapper d dep,
    records mapper d dep ->
    records (fold_left (fun m x => mapper_append m (kf x) (df x)) l mapper) d dep.
Proof.
  induction l as [| x l IH]; intros mapper d dep H; simpl; [ exact H | ].
  apply IH. destruct H as (deps & Hg & Hi). eapply mapper_append_keeps; eauto.
Qed.

Lemma fold_append_records (l : list X) :
  forall mapper x, In x l ->
    records (fold_left (fun m x => mapper_append m (kf x) (df x)) l mapper) (kf x) (df x).
Proof.
  induction l as [| y l IH]; intros mapper x Hin; simpl; [ destruct Hin | ].
  destruct Hin as [-> | Hin].
  - apply fold_append_keeps. apply mapper_append_records.
  - now apply IH.
Qed.
End FoldAppend.

Lemma build_tensor_arguments_records (fs : list pyobj) :
  forall uid mapper ts mapper',
    build_tensor_arguments fs uid mapper = OK (ts, mapper') ->
    (forall d dep, records mapper d dep -> records mapper' d dep) /\
    (forall f i d, In f fs -> In (i, d) (enumerate_from 0 (obj_indices f)) ->
       exists a, In a ts /\ is_TensorArgument a = true /\
                 obj_name f = OK (node_name a) /\
                 records mapper' d (gvf (PyParameter a) (int_ (Z.of_nat i)))).
Proof.
  induction fs as [| f fs IH]; intros uid mapper ts mapper' H; simpl in H.
  - inversion H; subst. split; [ auto | intros f i d [] ].
  - unfold ArgumentVisitor.visit_SymbolicFunction in H.
    destruct (new_TensorArgument uid f []) as [a | e] eqn:Ha; cbn [bind] in H;
      [ | discriminate ].
    match type of H with
    | context [build_tensor_arguments fs (S uid) ?m] =>
        destruct (build_tensor_arguments fs (S uid) m) as [[ts0 mp0] | e] eqn:Hr
    end; cbn [bind fst snd] in H; [ | discriminate ].
    inversion H; subst. apply IH in Hr as [Hkeep Hrec].
    split.
    + intros d dep Hd. apply Hkeep.
      now apply (fold_append_keeps (fun id : nat * Dimension => snd id)
                   (fun id => gvf (PyParameter a) (int_ (Z.of_nat (fst id))))).
    + intros f' i d [-> | Hin] Hid.
      * exists a. split; [ now left | ].
        assert (Hta : is_TensorArgument a = true /\ obj_name f' = OK (node_name a)).
        { unfold new_TensorArgument in Ha.
          destruct (obj_name f') as [n |]; cbn [bind] in Ha; [ | discriminate ].
          destruct (obj_dtype f') as [t |]; cbn [bind] in Ha; [ | discriminate ].
          inversion Ha; subst. split; reflexivity. }
        destruct Hta as [H1 H2]. split; [ exact H1 | split; [ exact H2 | ] ].
        apply Hkeep.
        exact (fold_append_records (fun id : nat * Dimension => snd id)
                 (fun id => gvf (PyParameter a) (int_ (Z.of_nat (fst id))))
                 _ mapper (i, d) Hid).
      * destruct (Hrec f' i d Hin Hid) as (a' & Ha' & Hrest).
        exists a'. split; [ now right | exact Hrest ].
Qed.

Lemma add_dle_dependencies_records (dles : list dle_argument) (mapper : dep_mapper) :
  (forall d dep, records mapper d dep -> records (add_dle_dependencies dles mapper) d dep) /\
  (forall arg, In arg dles ->
     records (add_dle_dependencies dles mapper) (argument arg)
             (gvf (Pyfunction derive_dle_argument_value_f) (PyDle arg))).
Proof.
  unfold add_dle_dependencies. split.
  - intros d dep H.
    now apply (fold_append_keeps argument
                 (fun arg => gvf (Pyfunction derive_dle_argument_value_f) (PyDle arg))).
  - intros arg Hin.
    exact (fold_append_records argument
             (fun arg => gvf (Pyfunction derive_dle_argument_value_f) (PyDle arg))
             dles mapper arg Hin).
Qed.

Lemma enumerate_from_In {A : Type} (l : list A) (x : A) :
  In x l -> forall k, exists i, In (i, x) (enumerate_from k l).
Proof.
  induction l as [| a l IH]; intros Hin k; [ destruct Hin | ].
  destruct Hin as [-> | Hin]; simpl.
  - exists k. now left.
  - destruct (IH Hin (S k)) as [i Hi]. exists i. now right.
Qed.

Lemma recorded_dimension_parameters_In (u0 : nat) (ddm : dep_mapper) (d : Dimension) deps :
  od_get Dimension_eqb ddm d = Some deps ->
  exists u, In (d, DimensionParameter u d (Some deps)) (recorded_dimension_parameters u0 ddm).
Proof.
  intros H. apply dim_get_In in H.
  destruct (enumerate_from_In ddm (d, deps) H u0) as [u Hu].
  exists u. unfold recorded_dimension_parameters.
  apply in_map_iff. exists (u, (d, deps)). split; [ reflexivity | exact Hu ].
Qed.

Lemma unreferenced_dimensions_In (ddm : dep_mapper) (params : list pyobj) (d : Dimension) :
  In d (unreferenced_dimensions ddm params) <->
  In (PyDimension d) params /\ od_get Dimension_eqb ddm d = None.
Proof.
  unfold unreferenced_dimensions. rewrite in_flat_map. split.
  - intros (o & Ho & Hd). destruct o; try destruct Hd.
    destruct (od_get Dimension_eqb ddm d0) eqn:E; [ destruct Hd | ].
    destruct Hd as [<- | []]. auto.
  - intros [Hin Hg]. exists (PyDimension d). split; [ exact Hin | ].
    rewrite Hg. now left.
Qed.

Lemma add_unreferenced_keeps (unreferenced : list Dimension) (d : Dimension) (n : node) :
  ~ In d unreferenced ->
  forall u1 dpm, In (d, n) dpm -> In (d, n) (add_unreferenced u1 unreferenced dpm).
Proof.
  unfold add_unreferenced.
  induction unreferenced as [| d' l IH]; intros Hnot u1 dpm Hin; simpl; [ exact Hin | ].
  apply IH; [ intros Hc; apply Hnot; now right | ].
  apply dim_set_In_other; [ | exact Hin ].
  intros ->. apply Hnot. now left.
Qed.

Lemma add_unreferenced_sets (unreferenced : list Dimension) (d : Dimension) :
  In d unreferenced ->
  forall u1 dpm,
    exists u, In (d, DimensionParameter u d (Some [])) (add_unreferenced u1 unreferenced dpm).
Proof.
  unfold add_unreferenced.
  induction unreferenced as [| d' l IH]; intros Hin u1 dpm; [ destruct Hin | ].
  simpl. destruct (in_dec Dimension_eq_dec d l) as [Hl | Hl].
  - apply IH. exact Hl.
  - destruct Hin as [-> | Hin]; [ | contradiction ].
    exists u1.
    apply (add_unreferenced_keeps l d _ Hl (S u1)).
    apply dim_set_In_same.
Qed.

(** The dimension parameters of a constructed engine are the values of
    the dimension parameter mapper. *)
Lemma ArgumentEngine_init_dims (stencils : list Stencil) (params : list pyobj)
    (dles : list dle_argument) (self : ArgumentEngine) :
  ArgumentEngine_init stencils params dles = OK self ->
  exists ts mp,
    build_tensor_arguments (filter is_SymbolicFunction params) 0 [] = OK (ts, mp) /\
    dims self =
      map snd
        (add_unreferenced
           (List.length ts + List.length (add_dle_dependencies dles mp))
           (unreferenced_dimensions (add_dle_dependencies dles mp) params)
           (recorded_dimension_parameters (List.length ts)
              (add_dle_dependencies dles mp))).
Proof.
  intros Hinit.
  apply ArgumentEngine_init_inv in Hinit as (Hb & _ & Hdims & _).
  unfold _build_argument_mapper in Hb.
  destruct (build_tensor_arguments (filter is_SymbolicFunction params) 0 [])
    as [[ts mp] | e] eqn:Hts; cbn [bind fst snd] in Hb; [ | discriminate ].
  destruct (mapM Dimension_parent (stepping_dimensions params)); cbn [bind] in Hb;
    [ | discriminate ].
  match type of Hb with
  | context [visit_dimension_parameters ?u ?d] =>
      destruct (visit_dimension_parameters u d) as [vis | e] eqn:Hv;
      cbn [bind] in Hb; [ | discriminate ];
      destruct (visit_parameters (u + 3 * List.length d) params) as [oth | e] eqn:Ho;
      cbn [bind] in Hb; [ | discriminate ]
  end.
  exists ts, mp. split; [ reflexivity | ].
  inversion Hb as [Hm]. rewrite Hdims, <- Hm.
  apply build_tensor_arguments_spec in Hts as [_ Hta].
  unfold visit_dimension_parameters in Hv.
  apply visit_dimension_parameters_from in Hv as (HF & _ & Hsc).
  unfold visit_parameters in Ho.
  apply visit_parameters_from in Ho as (Hoa & _ & _).
  rewrite !mapper_nodes_app, !mapper_nodes_Some, !filter_app.
  rewrite (filter_none _ ts)
    by (apply Argument_not_DimensionParameter, TensorArgument_is_Argument, Hta).
  rewrite (filter_all is_DimensionParameter) by (eapply visited_dimension_parameters; eauto).
  rewrite (filter_none _ (List.concat vis)) by (apply Argument_not_DimensionParameter, Hsc).
  rewrite (filter_none _ (mapper_nodes oth)) by (apply Argument_not_DimensionParameter, Hoa).
  simpl. now rewrite app_nil_r.
Qed.

Lemma recorded_reaches_dims (params : list pyobj) (ddm : dep_mapper) (u0 u1 : nat)
    (d : Dimension) (dep : dependency) :
  records ddm d dep ->
  exists u deps,
    In (DimensionParameter u d (Some deps))
       (map snd (add_unreferenced u1 (unreferenced_dimensions ddm params)
                   (recorded_dimension_parameters u0 ddm))) /\
    In dep deps.
Proof.
  intros (deps & Hg & Hin).
  destruct (recorded_dimension_parameters_In u0 ddm d deps Hg) as [u Hu].
  exists u, deps. split; [ | exact Hin ].
  apply in_map_iff. exists (d, DimensionParameter u d (Some deps)).
  split; [ reflexivity | ].
  apply add_unreferenced_keeps; [ | exact Hu ].
  intros Hc. apply unreferenced_dimensions_In in Hc as [_ Hc]. congruence.
Qed.

(** X22: in a constructed engine, every dimension at position [i] of the
    indices of a function among the parameters has a dimension parameter
    that carries a GetsValueFrom dependency on the tensor argument of that
    function with the position [i] as payload; and every tiling
    descriptor's blocked dimension has a dimension parameter that carries
    a GetsValueFrom dependency on [derive_dle_argument_value] with the
    descriptor as payload. *)
Theorem X22_dimension_dependencies (stencils : list Stencil) (params : list pyobj)
    (dles : list dle_argument) (self : ArgumentEngine) :
  ArgumentEngine_init stencils params dles = OK self ->
  (forall f i d,
     In f params -> is_SymbolicFunction f = true ->
     In (i, d) (enumerate_from 0 (obj_indices f)) ->
     exists a, is_TensorArgument a = true /\ obj_name f = OK (node_name a) /\
               dimension_depends self d (gvf (PyParameter a) (int_ (Z.of_nat i)))) /\
  (forall arg, In arg dles ->
     dimension_depends self (argument arg)
       (gvf (Pyfunction derive_dle_argument_value_f) (PyDle arg))).
Proof.
  intros Hinit.
  destruct (ArgumentEngine_init_dims _ _ _ _ Hinit) as (ts & mp & Hb & Hdims).
  destruct (build_tensor_arguments_records _ _ _ _ _ Hb) as [_ Hrec].
  destruct (add_dle_dependencies_records dles mp) as [Hkeep Hdle].
  unfold dimension_depends. rewrite Hdims. split.
  - intros f i d Hin Hf Hid.
    destruct (Hrec f i d) as (a & _ & Hta & Hname & Hr); [ | exact Hid | ].
    { apply filter_In. split; assumption. }
    exists a. split; [ exact Hta | split; [ exact Hname | ] ].
    apply recorded_reaches_dims. now apply Hkeep.
  - intros arg Hin. apply recorded_reaches_dims. now apply Hdle.
Qed.

(** X22, at the engine with one tile over [x], the axis of [f]. *)
Lemma X22_dimension_dependencies_witness :
  (forall f i d,
     In f [Examples.f 10; PyDimension Examples.x] -> is_SymbolicFunction f = true ->
     In (i, d) (enumerate_from 0 (obj_indices f)) ->
     exists a, is_TensorArgument a = true /\ obj_name f = OK (node_name a) /\
               dimension_depends
                 (Examples.the Examples.empty_engine (Examples.one_tile 10 None)) d
                 (gvf (PyParameter a) (int_ (Z.of_nat i)))) /\
  (forall arg, In arg [mkDle Examples.bx Examples.x None] ->
     dimension_depends (Examples.the Examples.empty_engine (Examples.one_tile 10 None))
       (argument arg) (gvf (Pyfunction derive_dle_argument_value_f) (PyDle arg))).
Proof.
  apply (X22_dimension_dependencies [] [Examples.f 10; PyDimension Examples.x]
           [mkDle Examples.bx Examples.x None]).
  reflexivity.
Defined.

(** X23: in a constructed engine every dimension declared among the
    parameters has a dimension parameter, whether or not a function is
    indexed by it or a tiling descriptor blocks it. *)
Theorem X23_declared_dimension_has_parameter (stencils : list Stencil)
    (params : list pyobj) (dles : list dle_argument) (self : ArgumentEngine)
    (d : Dimension) :
  ArgumentEngine_init stencils params dles = OK self ->
  In (PyDimension d) params ->
  exists u deps, In (DimensionParameter u d (Some deps)) (dims self).
Proof.
  intros Hinit Hin.
  destruct (ArgumentEngine_init_dims _ _ _ _ Hinit) as (ts & mp & _ & Hdims).
  rewrite Hdims.
  set (ddm := add_dle_dependencies dles mp).
  destruct (od_get Dimension_eqb ddm d) as [deps |] eqn:E.
  - destruct (recorded_dimension_parameters_In (List.length ts) ddm d deps E) as [u Hu].
    exists u, deps. apply in_map_iff.
    exists (d, DimensionParameter u d (Some deps)). split; [ reflexivity | ].
    apply add_unreferenced_keeps; [ | exact Hu ].
    intros Hc. apply unreferenced_dimensions_In in Hc as [_ Hc]. congruence.
  - assert (Hu : In d (unreferenced_dimensions ddm params))
      by (apply unreferenced_dimensions_In; split; assumption).
    destruct (add_unreferenced_sets _ d Hu (List.length ts + List.length ddm)
                (recorded_dimension_parameters (List.length ts) ddm)) as [u Hin'].
    exists u, []. apply in_map_iff.
    exists (d, DimensionParameter u d (Some [])). split; [ reflexivity | exact Hin' ].
Qed.

(** X23, at the dimension [y], declared beside a function over [x]. *)
Lemma X23_declared_dimension_witness :
  exists u deps,
    In (DimensionParameter u Examples.y (Some deps))
       (dims (Examples.the Examples.empty_engine
                (ArgumentEngine_init [] [Examples.f 10; PyDimension Examples.y] []))).
Proof.
  apply (X23_declared_dimension_has_parameter [] [Examples.f 10; PyDimension Examples.y] []).
  - reflexivity.
  - right. left. reflexivity.
Defined.

(** * The dependencies of a constructed engine *)








(** * The maximum rule in the derivation of the values *)




